(** * ID3v2 tag codec: a shallow embedding and its properties

    The development follows the Go package [id3]: the byte-level
    primitives (sync-safe integers, unsynchronization), the buffered
    reader and writer, the v2.4 codec of [v24.go], the field scanner
    of [codec24.go] and the stream entry points of [id3.go]. *)

From Stdlib Require Import String Ascii.
From Stdlib.Strings Require Import Byte.
From Stdlib Require Import ZArith NArith List Lia Bool.
Import ListNotations.

Open Scope Z_scope.

(** ** Bytes and fixed-width integers *)

Definition b2z (b : byte) : Z := Z.of_N (Byte.to_N b).

Definition z2b (z : Z) : byte :=
  match Byte.of_N (Z.to_N (z mod 256)) with
  | Some b => b
  | None => x00
  end.

(** Go's [uint32(x)], [uint16(x)] conversions: wrap-around written out. *)
Definition uint32 (z : Z) : Z := z mod 2 ^ 32.
Definition uint16 (z : Z) : Z := z mod 2 ^ 16.

Definition zeros (n : nat) : list byte := repeat x00 n.

Definition len {A} (l : list A) : Z := Z.of_nat (length l).

(** [b[off:off+n]] of a staged buffer. *)
Definition slice {A} (l : list A) (off n : nat) : list A :=
  firstn n (skipn off l).

(** [copy(b[off:], src)]: overwrite in place, never growing the buffer. *)
Definition patch {A} (l : list A) (off : nat) (src : list A) : list A :=
  firstn off l
  ++ firstn (length l - off) src
  ++ skipn (off + length src) l.

(** ** Errors

    The package's error values; Go compares them by identity. *)
Inductive error : Set :=
| ErrInvalidTag
| ErrInvalidVersion
| ErrInvalidHeader
| ErrInvalidHeaderFlags
| ErrInvalidFrame
| ErrInvalidFrameHeader
| ErrInvalidFrameFlags
| ErrInvalidSync
| ErrInvalidEncoding
| ErrInvalidEncodedString
| ErrInvalidPictureType
| ErrInvalidTimeStampFormat
| ErrInvalidLyricContentType
| ErrInvalidGroupID
| ErrInvalidEncryptMethod
| ErrFailedCRC
| ErrIncompleteFrame
| ErrUnknownFrameType
| ErrUnimplemented
| ErrUnexpectedEOF
| errPaddingEncountered.

Definition error_eq_dec (a b : error) : {a = b} + {a <> b}.
Proof. decide equality. Defined.

Inductive result (A : Type) : Type :=
| OK (a : A)
| Err (e : error).
Arguments OK {A} a.
Arguments Err {A} e.

(** ** Sync-safe integers *)

Module SyncSafe.

Definition topBit (b : byte) : bool := 128 <=? b2z b.

Definition shiftIn (acc : Z) (b : byte) : Z :=
  Z.lor (Z.shiftl acc 7) (b2z b).

(** Modelled from the spec: [decodeSyncSafeUint32] is not among the
    sources.  Section 4.1: reject if any input byte has its top bit
    set, else the bytes are packed seven bits each, most significant
    first; section 4.3 applies the same routine to the five bytes of
    the CRC field and stores the result as a uint32. *)
Definition decodeSyncSafeUint32 (b : list byte) : result Z :=
  if existsb topBit b then Err ErrInvalidSync
  else OK (uint32 (fold_left shiftIn b 0)).

Definition septet (value : Z) (i : nat) : byte :=
  z2b (Z.land (Z.shiftr value (7 * Z.of_nat i)) 127).

(** Modelled from the spec: [encodeSyncSafeUint32] is not among the
    sources.  Section 4.1: reject if the value is at least 2^28, else
    write four bytes each masked to seven bits, most significant
    first.  [n] is the length of the destination slice, and a value
    is rejected when it does not fit its 7n bits: 2^28 for the four
    bytes of a size field, while every uint32 fits the five bytes of
    the CRC field of section 4.3. *)
Definition encodeSyncSafeUint32 (n : nat) (value : Z) : result (list byte) :=
  if 2 ^ (7 * Z.of_nat n) <=? value then Err ErrInvalidSync
  else OK (map (septet value) (rev (seq 0 n))).

(** A call whose error result is dropped: the destination keeps its
    previous contents when the encoder rejects the value. *)
Definition putSyncSafe (buf : list byte) (off n : nat) (value : Z)
  : list byte :=
  match encodeSyncSafeUint32 n value with
  | OK bs => patch buf off bs
  | Err _ => buf
  end.

End SyncSafe.

(** ** Unsynchronization *)

Module Unsync.

Definition isFF (b : byte) : bool := b2z b =? 255.
Definition is00 (b : byte) : bool := b2z b =? 0.

(** Modelled from the spec: [removeUnsyncCodes] is not among the
    sources.  Section 4.1: copy bytes, but whenever two consecutive
    input bytes are 0xFF 0x00, emit only the 0xFF and skip the 0x00. *)
Fixpoint removeUnsyncCodes (input : list byte) : list byte :=
  match input with
  | [] => []
  | b :: tl =>
      match tl with
      | z :: tl' =>
          if (isFF b && is00 z)%bool
          then b :: removeUnsyncCodes tl'
          else b :: removeUnsyncCodes tl
      | [] => [b]
      end
  end.

Definition needsStuffing (next : list byte) : bool :=
  match next with
  | [] => true
  | n :: _ => 128 <=? b2z n
  end.

(** Modelled from the spec: [addUnsyncCodes] is not among the sources.
    Section 4.1: copy bytes; after every 0xFF whose next byte has its
    top bit set or does not exist, insert a 0x00. *)
Fixpoint addUnsyncCodes (input : list byte) : list byte :=
  match input with
  | [] => []
  | b :: tl =>
      if (isFF b && needsStuffing tl)%bool
      then b :: x00 :: addUnsyncCodes tl
      else b :: addUnsyncCodes tl
  end.

(** An 0xFF immediately followed by a byte with the top bit set. *)
Fixpoint hasSyncPair (l : list byte) : bool :=
  match l with
  | [] => false
  | b :: tl =>
      match tl with
      | n :: _ => (isFF b && (128 <=? b2z n))%bool || hasSyncPair tl
      | [] => false
      end
  end.

(** An 0xFF immediately followed by 0x00. *)
Fixpoint hasFF00 (l : list byte) : bool :=
  match l with
  | [] => false
  | b :: tl =>
      match tl with
      | z :: _ => (isFF b && is00 z)%bool || hasFF00 tl
      | [] => false
      end
  end.

End Unsync.

(** ** Stream entry points of [id3.go] *)

Module Id3.

(** A call either returns or panics. *)
Inductive outcome (A : Type) : Type :=
| Ret (a : A)
| Panic (msg : string).
Arguments Ret {A} a.
Arguments Panic {A} msg.

(** The frame model of this revision of the package. *)
Record FrameHeader := {
  ID : string;
  FSize : Z;
  FFlags : byte;
  GroupID : byte;
  EncryptMethod : byte;
  DataLength : Z
}.

Inductive FramePayload :=
| FramePayloadUnknown (Data : list byte)
| FramePayloadText (Encoding : byte) (Text : list string)
| FramePayloadAPIC (Encoding : byte) (MimeType : string) (Type_ : byte)
                   (Description : string) (Data : list byte).

Record Frame := { Header : FrameHeader; Payload : FramePayload }.

Record Tag := {
  Version : byte;
  Flags : byte;
  Size : Z;
  Frames : list Frame
}.

Definition TagFlagUnsync : Z := Z.shiftl 1 7.
Definition TagFlagExtended : Z := Z.shiftl 1 6.
Definition TagFlagExperimental : Z := Z.shiftl 1 5.
Definition TagFlagFooter : Z := Z.shiftl 1 4.

Inductive codec := codec22 | codec23 | codec24.

Definition getCodec (v : byte) : outcome codec :=
  match b2z v with
  | 2 => Ret codec22
  | 3 => Ret codec23
  | 4 => Ret codec24
  | _ => Panic "invalid codec version"
  end.

(** What the package needs from its surroundings: an [io.Reader], an
    [io.Writer], the unsynchronizing wrappers around them and the
    [decode] and [encode] methods of the three codecs, none of which
    is among the sources.  [Read r n] is one call of [r.Read] on a
    buffer of [n] bytes: the bytes delivered, the error and the source
    afterwards. *)
Class Env := {
  Src : Type;
  Snk : Type;
  Read : Src -> nat -> list byte * option error * Src;
  Write : Snk -> list byte -> Z * option error * Snk;
  newUnsyncReader : Src -> Src;
  unsyncWriter : list byte -> list byte;
  decode : codec -> Tag -> Src -> Z * option error * Tag * Src;
  encode : codec -> Tag -> Z * option error * Tag * list byte
}.

Definition isErr (e : option error) : bool :=
  match e with Some _ => true | None => false end.

Definition magic : list byte := [x49; x44; x33].

Fixpoint bytes_eqb (a b : list byte) : bool :=
  match a, b with
  | [], [] => true
  | x :: a', y :: b' => (Byte.eqb x y && bytes_eqb a' b')%bool
  | _, _ => false
  end.

Section EntryPoints.
Context {E : Env}.

(** [Tag.ReadFrom]: the tag as left behind, the source as left behind,
    the byte count and the error. *)
Definition ReadFrom (t : Tag) (r : Src)
  : outcome (Tag * Src * (Z * option error)) :=
  let '(got, err, r) := Read r 10 in
  let hdr := firstn 10 (got ++ zeros 10) in
  let n := len got in
  let nn := 0 + n in
  if ((n <? 10) || isErr err)%bool then Ret (t, r, (nn, Some ErrInvalidTag))
  else if negb (bytes_eqb (slice hdr 0 3) magic)
  then Ret (t, r, (nn, Some ErrInvalidTag))
  else
    let t := {| Version := nth 3 hdr x00; Flags := Flags t;
                Size := Size t; Frames := Frames t |} in
    if ((b2z (Version t) <? 2) || (4 <? b2z (Version t)))%bool
    then Ret (t, r, (nn, Some ErrInvalidVersion))
    else if negb (b2z (nth 4 hdr x00) =? 0)
    then Ret (t, r, (nn, Some ErrInvalidVersion))
    else
      let t := {| Version := Version t; Flags := nth 5 hdr x00;
                  Size := Size t; Frames := Frames t |} in
      let r := if negb (Z.land (b2z (Flags t)) TagFlagUnsync =? 0)
               then newUnsyncReader r else r in
      match SyncSafe.decodeSyncSafeUint32 (slice hdr 6 4) with
      | Err e =>
          let t := {| Version := Version t; Flags := Flags t;
                      Size := 0; Frames := Frames t |} in
          Ret (t, r, (nn, Some e))
      | OK size =>
          let t := {| Version := Version t; Flags := Flags t;
                      Size := size; Frames := Frames t |} in
          match getCodec (Version t) with
          | Panic msg => Panic msg
          | Ret c =>
              let '(n, err, t, r) := decode c t r in
              Ret (t, r, (nn + n, err))
          end
      end.

(** [Tag.WriteTo]: the tag and the sink as left behind, the byte count
    and the error. *)
Definition WriteTo (t : Tag) (w : Snk)
  : outcome (Tag * Snk * (Z * option error)) :=
  match getCodec (Version t) with
  | Panic msg => Panic msg
  | Ret c =>
      let unsync := negb (Z.land (b2z (Flags t)) TagFlagUnsync =? 0) in
      let '(size, err, t, raw) := encode c t in
      let tmpbuf := if unsync then unsyncWriter raw else raw in
      match err with
      | Some e => Ret (t, w, (0, Some e))
      | None =>
          let hdr := [x49; x44; x33; Version t; x00; Flags t;
                      x00; x00; x00; x00] in
          match SyncSafe.encodeSyncSafeUint32 4 (uint32 size) with
          | Err e => Ret (t, w, (0, Some e))
          | OK sz =>
              let hdr := patch hdr 6 sz in
              let '(n, err, w) := Write w hdr in
              let nn := 0 + n in
              match err with
              | Some e => Ret (t, w, (nn, Some e))
              | None =>
                  let '(n, err, w) := Write w tmpbuf in
                  Ret (t, w, (nn + n, err))
              end
          end
      end
  end.

End EntryPoints.

(** A byte source that delivers its data in chunks, one chunk at most
    per [Read], and a sink that accepts everything; the codecs of this
    environment read and write nothing. *)
Definition chunkRead (r : list (list byte)) (n : nat)
  : list byte * option error * list (list byte) :=
  match r with
  | [] => ([], Some ErrUnexpectedEOF, [])
  | c :: rest =>
      (firstn n c, None,
       match skipn n c with [] => rest | c' => c' :: rest end)
  end.

Definition chunkEnv : Env := {|
  Src := list (list byte);
  Snk := list byte;
  Read := chunkRead;
  Write := fun w b => (len b, None, w ++ b);
  newUnsyncReader := fun r => r;
  unsyncWriter := Unsync.addUnsyncCodes;
  decode := fun _ t r => (0, None, t, r);
  encode := fun _ t => (0, None, t, [])
|}.

End Id3.

(** ** Flag maps, buffered reader and writer *)

(** One row of a flag map: a bit of the wire format and the flag of the
    package it stands for. *)
Definition flagMap := list (Z * Z).

Module FlagMap.

(** Modelled from the spec: the [Decode] and [Encode] methods of
    [flagMap] are not among the sources.  Section 4.3: the flag byte is
    decoded into the package's flag set (and back on encode), one row
    of the table per flag. *)
Definition Decode (m : flagMap) (wire : Z) : Z :=
  fold_left (fun acc row =>
               if Z.land wire (fst row) =? 0 then acc
               else Z.lor acc (snd row)) m 0.

Definition Encode (m : flagMap) (flags : Z) : Z :=
  fold_left (fun acc row =>
               if Z.land flags (snd row) =? 0 then acc
               else Z.lor acc (fst row)) m 0.

End FlagMap.

Module Reader.

(** Modelled from the spec: the type [reader] is not among the
    sources.  Section 4.2: a byte cursor over a stream with [Load],
    [Len], [ConsumeByte], [ConsumeBytes], [ConsumeAll],
    [ConsumeIntoNewReader], [ReplaceBuffer] and [Bytes]; error-sticky:
    once a consume or load fails, later operations short-circuit and
    return zeros.  [buf] holds the loaded bytes not yet consumed and
    [src] the bytes the underlying source has still to deliver. *)
Record reader := {
  buf : list byte;
  src : list byte;
  err : option error
}.

Definition fail (r : reader) : reader :=
  {| buf := buf r; src := src r; err := Some ErrUnexpectedEOF |}.

Definition Load (n : nat) (r : reader) : reader :=
  match err r with
  | Some _ => r
  | None =>
      if (n <=? length (src r))%nat
      then {| buf := buf r ++ firstn n (src r);
              src := skipn n (src r); err := None |}
      else {| buf := buf r ++ src r; src := [];
              err := Some ErrUnexpectedEOF |}
  end.

Definition Len (r : reader) : nat := length (buf r).

Definition Bytes (r : reader) : list byte := buf r.

Definition ConsumeBytes (n : nat) (r : reader) : list byte * reader :=
  match err r with
  | Some _ => (zeros n, r)
  | None =>
      if (n <=? length (buf r))%nat
      then (firstn n (buf r),
            {| buf := skipn n (buf r); src := src r; err := None |})
      else (zeros n, fail r)
  end.

Definition ConsumeByte (r : reader) : byte * reader :=
  let '(b, r) := ConsumeBytes 1 r in (nth 0 b x00, r).

Definition ConsumeAll (r : reader) : list byte * reader :=
  match err r with
  | Some _ => ([], r)
  | None => (buf r, {| buf := []; src := src r; err := None |})
  end.

(** The new reader over the next [n] bytes, and the parent advanced. *)
Definition ConsumeIntoNewReader (n : nat) (r : reader) : reader * reader :=
  let '(b, r') := ConsumeBytes n r in
  match err r' with
  | Some e => ({| buf := []; src := []; err := Some e |}, r')
  | None => ({| buf := b; src := []; err := None |}, r')
  end.

Definition ReplaceBuffer (b : list byte) (r : reader) : reader :=
  {| buf := b; src := src r; err := err r |}.

End Reader.

Module Writer.

(** Modelled from the spec: the type [writer] is not among the
    sources.  Section 4.2: [StoreByte], [StoreBytes], [Len],
    [SliceBuffer] (a mutable window into the staged bytes),
    [ConsumeBytesFromOffset] (lift out the tail) and [Save] (flush to
    the sink), with the reader's error stickiness.  [buf] is the
    staging buffer and [sink] what has been flushed.  The sink of the
    model takes every write: [Save] fails on a sticky error only, and
    a sink that fails while it is written to is outside the model. *)
Record writer := {
  buf : list byte;
  sink : list byte;
  err : option error
}.

Definition empty : writer := {| buf := []; sink := []; err := None |}.

Definition StoreBytes (b : list byte) (w : writer) : writer :=
  match err w with
  | Some _ => w
  | None => {| buf := buf w ++ b; sink := sink w; err := None |}
  end.

Definition StoreByte (b : byte) (w : writer) : writer := StoreBytes [b] w.

Definition Len (w : writer) : nat := length (buf w).

Definition setBuf (b : list byte) (w : writer) : writer :=
  {| buf := b; sink := sink w; err := err w |}.

Definition setErr (e : error) (w : writer) : writer :=
  {| buf := buf w; sink := sink w; err := Some e |}.

(** Reading the window [SliceBuffer(off, n)]. *)
Definition SliceBuffer (off n : nat) (w : writer) : list byte :=
  slice (buf w) off n.

(** [copy(w.SliceBuffer(off, n), b)]. *)
Definition copyTo (off n : nat) (b : list byte) (w : writer) : writer :=
  setBuf (patch (buf w) off (firstn n b)) w.

(** [encodeSyncSafeUint32(w.SliceBuffer(off, n), value)], the error
    result dropped as at every call of the encoder in [v24.go]. *)
Definition putSyncSafe (off n : nat) (value : Z) (w : writer) : writer :=
  setBuf (SyncSafe.putSyncSafe (buf w) off n value) w.

Definition ConsumeBytesFromOffset (off : nat) (w : writer)
  : list byte * writer :=
  (skipn off (buf w), setBuf (firstn off (buf w)) w).

Definition Save (w : writer) : writer * option error :=
  match err w with
  | Some e => (w, Some e)
  | None => ({| buf := []; sink := sink w ++ buf w; err := None |}, None)
  end.

End Writer.

(** ** The v2.4 codec of [v24.go] *)

Module V24.
Import Reader Writer.

(** [TagFlags], [1 << iota]. *)
Definition TagFlagUnsync : Z := 1.
Definition TagFlagExtended : Z := 2.
Definition TagFlagExperimental : Z := 4.
Definition TagFlagFooter : Z := 8.
Definition TagFlagIsUpdate : Z := 16.
Definition TagFlagHasCRC : Z := 32.
Definition TagFlagHasRestrictions : Z := 64.

(** [FrameFlags]; [FrameFlagHasGroupID] is the later name of
    [FrameFlagHasGroupInfo]. *)
Definition FrameFlagDiscardOnTagAlteration : Z := Z.shiftl 1 0.
Definition FrameFlagDiscardOnFileAlteration : Z := Z.shiftl 1 1.
Definition FrameFlagReadOnly : Z := Z.shiftl 1 2.
Definition FrameFlagHasGroupID : Z := Z.shiftl 1 3.
Definition FrameFlagCompressed : Z := Z.shiftl 1 4.
Definition FrameFlagEncrypted : Z := Z.shiftl 1 5.
Definition FrameFlagUnsynchronized : Z := Z.shiftl 1 6.
Definition FrameFlagHasDataLength : Z := Z.shiftl 1 7.

(** [x & flag != 0]. *)
Definition has (x flag : Z) : bool := negb (Z.land x flag =? 0).

Inductive FrameType : Set :=
| FrameTypeAttachedPicture
| FrameTypeAudioEncryption
| FrameTypeAudioSeekPointIndex
| FrameTypeComment
| FrameTypeEncryptionMethodRegistration
| FrameTypeGroupID
| FrameTypePlayCount
| FrameTypePopularimeter
| FrameTypePrivate
| FrameTypeLyricsSync
| FrameTypeSyncTempoCodes
| FrameTypeTextAlbumName
| FrameTypeTextBPM
| FrameTypeTextCompilationItunes
| FrameTypeTextComposer
| FrameTypeTextGenre
| FrameTypeTextCopyright
| FrameTypeTextEncodingTime
| FrameTypeTextPlaylistDelay
| FrameTypeTextOriginalReleaseTime
| FrameTypeTextRecordingTime
| FrameTypeTextReleaseTime
| FrameTypeTextTaggingTime
| FrameTypeTextEncodedBy
| FrameTypeTextLyricist
| FrameTypeTextFileType
| FrameTypeTextInvolvedPeople
| FrameTypeTextGroupDescription
| FrameTypeTextSongTitle
| FrameTypeTextSongSubtitle
| FrameTypeTextMusicalKey
| FrameTypeTextLanguage
| FrameTypeTextLengthInMs
| FrameTypeTextMusicians
| FrameTypeTextMediaType
| FrameTypeTextMood
| FrameTypeTextOriginalAlbum
| FrameTypeTextOriginalFileName
| FrameTypeTextOriginalLyricist
| FrameTypeTextOriginalPerformer
| FrameTypeTextOwner
| FrameTypeTextArtist
| FrameTypeTextAlbumArtist
| FrameTypeTextConductor
| FrameTypeTextRemixer
| FrameTypeTextPartOfSet
| FrameTypeTextProducedNotice
| FrameTypeTextPublisher
| FrameTypeTextTrackNumber
| FrameTypeTextRadioStation
| FrameTypeTextRadioStationOwner
| FrameTypeTextAlbumSortOrderItunes
| FrameTypeTextAlbumSortOrder
| FrameTypeTextComposerSortOrderItunes
| FrameTypeTextPerformerSortOrder
| FrameTypeTextTitleSortOrder
| FrameTypeTextISRC
| FrameTypeTextEncodingSoftware
| FrameTypeTextSetSubtitle
| FrameTypeTextCustom
| FrameTypeUniqueFileID
| FrameTypeTermsOfUse
| FrameTypeLyricsUnsync
| FrameTypeURLCommercial
| FrameTypeURLCopyright
| FrameTypeURLAudioFile
| FrameTypeURLArtist
| FrameTypeURLAudioSource
| FrameTypeURLRadioStation
| FrameTypeURLPayment
| FrameTypeURLPublisher
| FrameTypeURLCustom
| FrameTypeUnknown.

Definition frameTypes : list (FrameType * string) := [
  (FrameTypeAttachedPicture, "APIC");
  (FrameTypeAudioEncryption, "AENC");
  (FrameTypeAudioSeekPointIndex, "ASPI");
  (FrameTypeComment, "COMM");
  (FrameTypeEncryptionMethodRegistration, "ENCR");
  (FrameTypeGroupID, "GRID");
  (FrameTypePlayCount, "PCNT");
  (FrameTypePopularimeter, "POPM");
  (FrameTypePrivate, "PRIV");
  (FrameTypeLyricsSync, "SYLT");
  (FrameTypeSyncTempoCodes, "SYTC");
  (FrameTypeTextAlbumName, "TALB");
  (FrameTypeTextBPM, "TBPM");
  (FrameTypeTextCompilationItunes, "TCMP");
  (FrameTypeTextComposer, "TCOM");
  (FrameTypeTextGenre, "TCON");
  (FrameTypeTextCopyright, "TCOP");
  (FrameTypeTextEncodingTime, "TDEN");
  (FrameTypeTextPlaylistDelay, "TDLY");
  (FrameTypeTextOriginalReleaseTime, "TDOR");
  (FrameTypeTextRecordingTime, "TDRC");
  (FrameTypeTextReleaseTime, "TDRL");
  (FrameTypeTextTaggingTime, "TDTG");
  (FrameTypeTextEncodedBy, "TENC");
  (FrameTypeTextLyricist, "TEXT");
  (FrameTypeTextFileType, "TFLT");
  (FrameTypeTextInvolvedPeople, "TIPL");
  (FrameTypeTextGroupDescription, "TIT1");
  (FrameTypeTextSongTitle, "TIT2");
  (FrameTypeTextSongSubtitle, "TIT3");
  (FrameTypeTextMusicalKey, "TKEY");
  (FrameTypeTextLanguage, "TLAN");
  (FrameTypeTextLengthInMs, "TLEN");
  (FrameTypeTextMusicians, "TMCL");
  (FrameTypeTextMediaType, "TMED");
  (FrameTypeTextMood, "TMOO");
  (FrameTypeTextOriginalAlbum, "TOAL");
  (FrameTypeTextOriginalFileName, "TOFN");
  (FrameTypeTextOriginalLyricist, "TOLY");
  (FrameTypeTextOriginalPerformer, "TOPE");
  (FrameTypeTextOwner, "TOWN");
  (FrameTypeTextArtist, "TPE1");
  (FrameTypeTextAlbumArtist, "TPE2");
  (FrameTypeTextConductor, "TPE3");
  (FrameTypeTextRemixer, "TPE4");
  (FrameTypeTextPartOfSet, "TPOS");
  (FrameTypeTextProducedNotice, "TPRO");
  (FrameTypeTextPublisher, "TPUB");
  (FrameTypeTextTrackNumber, "TRCK");
  (FrameTypeTextRadioStation, "TRSN");
  (FrameTypeTextRadioStationOwner, "TRSO");
  (FrameTypeTextAlbumSortOrderItunes, "TSO2");
  (FrameTypeTextAlbumSortOrder, "TSOA");
  (FrameTypeTextComposerSortOrderItunes, "TSOC");
  (FrameTypeTextPerformerSortOrder, "TSOP");
  (FrameTypeTextTitleSortOrder, "TSOT");
  (FrameTypeTextISRC, "TSRC");
  (FrameTypeTextEncodingSoftware, "TSSE");
  (FrameTypeTextSetSubtitle, "TSST");
  (FrameTypeTextCustom, "TXXX");
  (FrameTypeUniqueFileID, "UFID");
  (FrameTypeTermsOfUse, "USER");
  (FrameTypeLyricsUnsync, "USLT");
  (FrameTypeURLCommercial, "WCOM");
  (FrameTypeURLCopyright, "WCOP");
  (FrameTypeURLAudioFile, "WOAF");
  (FrameTypeURLArtist, "WOAR");
  (FrameTypeURLAudioSource, "WOAS");
  (FrameTypeURLRadioStation, "WORS");
  (FrameTypeURLPayment, "WPAY");
  (FrameTypeURLPublisher, "WPUB");
  (FrameTypeURLCustom, "WXXX");
  (FrameTypeUnknown, "ZZZZ")
]%string.

(** Modelled from the spec: [frameTypeMap.LookupFrameType] is not among
    the sources.  Section 2: the registry maps frame IDs to frame
    types; an unrecognised ID surfaces as the unknown frame type. *)
Definition LookupFrameType (id : string) : FrameType :=
  match find (fun row => String.eqb (snd row) id) frameTypes with
  | Some row => fst row
  | None => FrameTypeUnknown
  end.

Record versionData := {
  headerFlags : flagMap;
  headerExFlags : flagMap;
  frameFlags : flagMap;
  bounds : list (string * (Z * Z * error))
}.

Definition v24Data : versionData := {|
  headerFlags := [
    (Z.shiftl 1 7, TagFlagUnsync);
    (Z.shiftl 1 6, TagFlagExtended);
    (Z.shiftl 1 5, TagFlagExperimental);
    (Z.shiftl 1 4, TagFlagFooter)];
  headerExFlags := [
    (Z.shiftl 1 6, TagFlagIsUpdate);
    (Z.shiftl 1 5, TagFlagHasCRC);
    (Z.shiftl 1 4, TagFlagHasRestrictions)];
  frameFlags := [
    (Z.shiftl 1 14, FrameFlagDiscardOnTagAlteration);
    (Z.shiftl 1 13, FrameFlagDiscardOnFileAlteration);
    (Z.shiftl 1 12, FrameFlagReadOnly);
    (Z.shiftl 1 6, FrameFlagHasGroupID);
    (Z.shiftl 1 3, FrameFlagCompressed);
    (Z.shiftl 1 2, FrameFlagEncrypted);
    (Z.shiftl 1 1, FrameFlagUnsynchronized);
    (Z.shiftl 1 0, FrameFlagHasDataLength)];
  bounds := [
    ("Encoding", (0, 3, ErrInvalidEncoding));
    ("EncryptMethod", (128, 240, ErrInvalidEncryptMethod));
    ("GroupID", (128, 240, ErrInvalidGroupID));
    ("LyricContentType", (0, 8, ErrInvalidLyricContentType));
    ("PictureType", (0, 20, ErrInvalidPictureType));
    ("TimeStampFormat", (1, 2, ErrInvalidTimeStampFormat))]%string
|}.

Record FrameHeader := {
  FrameID : string;
  FrameType_ : FrameType;
  FSize : Z;
  FFlags : Z;
  GroupID : byte;
  EncryptMethod : byte;
  DataLength : Z
}.

(** A frame: its header and the payload record of its variant.  The
    payload records and the reflector that scans and emits them are
    not among the sources; see [Env]. *)
Record Frame (P : Type) := {
  Header : FrameHeader;
  Payload : P
}.
Arguments Header {P} f.
Arguments Payload {P} f.

Record Tag (P : Type) := {
  Version : byte;
  Flags : Z;
  Size : Z;
  Padding : Z;
  CRC : Z;
  Restrictions : byte;
  Frames : list (Frame P)
}.
Arguments Version {P} t.
Arguments Flags {P} t.
Arguments Size {P} t.
Arguments Padding {P} t.
Arguments CRC {P} t.
Arguments Restrictions {P} t.
Arguments Frames {P} t.

(** What the codec calls and the sources do not hold: the payload
    records, the reflector's [ScanFrame] (which fills a payload from
    the frame's sub-reader) and [OutputFrame] (which emits a payload
    and names the frame ID; the bytes it stores are appended to the
    staging buffer), and [crc32.ChecksumIEEE] of Go's library. *)
Class Env := {
  Payload_ : Type;
  ScanFrame : reader -> string -> result Payload_;
  OutputFrame : Frame Payload_ -> result (list byte * string);
  ChecksumIEEE : list byte -> Z
}.

Section Codec.
Context {E : Env}.

Abbreviation frame := (Frame Payload_).
Abbreviation tag := (Tag Payload_).

Definition setFlags (t : tag) (v : Z) : tag :=
  {| Version := Version t; Flags := v; Size := Size t;
     Padding := Padding t; CRC := CRC t; Restrictions := Restrictions t;
     Frames := Frames t |}.

Definition setSize (t : tag) (v : Z) : tag :=
  {| Version := Version t; Flags := Flags t; Size := v;
     Padding := Padding t; CRC := CRC t; Restrictions := Restrictions t;
     Frames := Frames t |}.

Definition setPadding (t : tag) (v : Z) : tag :=
  {| Version := Version t; Flags := Flags t; Size := Size t;
     Padding := v; CRC := CRC t; Restrictions := Restrictions t;
     Frames := Frames t |}.

Definition setCRC (t : tag) (v : Z) : tag :=
  {| Version := Version t; Flags := Flags t; Size := Size t;
     Padding := Padding t; CRC := v; Restrictions := Restrictions t;
     Frames := Frames t |}.

Definition setRestrictions (t : tag) (v : byte) : tag :=
  {| Version := Version t; Flags := Flags t; Size := Size t;
     Padding := Padding t; CRC := CRC t; Restrictions := v;
     Frames := Frames t |}.

Definition appendFrame (t : tag) (f : frame) : tag :=
  {| Version := Version t; Flags := Flags t; Size := Size t;
     Padding := Padding t; CRC := CRC t; Restrictions := Restrictions t;
     Frames := Frames t ++ [f] |}.

Definition setHFlags (h : FrameHeader) (v : Z) : FrameHeader :=
  {| FrameID := FrameID h; FrameType_ := FrameType_ h; FSize := FSize h;
     FFlags := v; GroupID := GroupID h; EncryptMethod := EncryptMethod h;
     DataLength := DataLength h |}.

Definition setGroupID (h : FrameHeader) (v : byte) : FrameHeader :=
  {| FrameID := FrameID h; FrameType_ := FrameType_ h; FSize := FSize h;
     FFlags := FFlags h; GroupID := v; EncryptMethod := EncryptMethod h;
     DataLength := DataLength h |}.

Definition setEncryptMethod (h : FrameHeader) (v : byte) : FrameHeader :=
  {| FrameID := FrameID h; FrameType_ := FrameType_ h; FSize := FSize h;
     FFlags := FFlags h; GroupID := GroupID h; EncryptMethod := v;
     DataLength := DataLength h |}.

Definition setDataLength (h : FrameHeader) (v : Z) : FrameHeader :=
  {| FrameID := FrameID h; FrameType_ := FrameType_ h; FSize := FSize h;
     FFlags := FFlags h; GroupID := GroupID h;
     EncryptMethod := EncryptMethod h; DataLength := v |}.

Definition setFrameType (h : FrameHeader) (v : FrameType) : FrameHeader :=
  {| FrameID := FrameID h; FrameType_ := v; FSize := FSize h;
     FFlags := FFlags h; GroupID := GroupID h;
     EncryptMethod := EncryptMethod h; DataLength := DataLength h |}.

(** Modelled from the spec: [HeaderOf] and the reflector's
    [SetFrameHeader] are not among the sources.  Section 3: each frame
    variant carries a frame header and a payload record. *)
Definition HeaderOf (f : frame) : FrameHeader := Header f.

Definition SetFrameHeader (p : Payload_) (h : FrameHeader) : frame :=
  {| Header := h; Payload := p |}.

Definition outOfRange (b : byte) : bool :=
  ((b2z b <? 128) || (240 <? b2z b))%bool.

(** [decodeFrame], lines 293-333: the extra header data. *)
Definition decodeExtra (h : FrameHeader) (r : reader)
  : result (FrameHeader * reader) :=
  if FFlags h =? 0 then OK (h, r)
  else if (has (FFlags h) FrameFlagCompressed
           && negb (has (FFlags h) FrameFlagHasDataLength))%bool
  then Err ErrInvalidFrameFlags
  else
    let step1 :=
      if has (FFlags h) FrameFlagHasGroupID then
        let '(gid, r) := ConsumeByte r in
        match Reader.err r with
        | Some e => Err e
        | None => if outOfRange gid then Err ErrInvalidGroupID
                  else OK (setGroupID h gid, r)
        end
      else OK (h, r) in
    match step1 with
    | Err e => Err e
    | OK (h, r) =>
        let step2 :=
          if has (FFlags h) FrameFlagEncrypted then
            let '(em, r) := ConsumeByte r in
            match Reader.err r with
            | Some e => Err e
            | None => if outOfRange em then Err ErrInvalidEncryptMethod
                      else OK (setEncryptMethod h em, r)
            end
          else OK (h, r) in
        match step2 with
        | Err e => Err e
        | OK (h, r) =>
            if has (FFlags h) FrameFlagHasDataLength then
              let '(b, r) := ConsumeBytes 4 r in
              match Reader.err r with
              | Some _ => Err ErrInvalidFrameHeader
              | None =>
                  match SyncSafe.decodeSyncSafeUint32 b with
                  | Err e => Err e
                  | OK dl => OK (setDataLength h dl, r)
                  end
              end
            else OK (h, r)
        end
    end.

Definition isPadding (id : list byte) : bool :=
  ((b2z (nth 0 id x00) =? 0) && (b2z (nth 1 id x00) =? 0)
   && (b2z (nth 2 id x00) =? 0) && (b2z (nth 3 id x00) =? 0))%bool.

(** [codec24.decodeFrame], lines 249-291: the frame header, and the
    frame's bytes carved off into a reader of their own (with the
    unsync codes removed if the frame alone is unsynchronized).  The
    header and the frame's reader, or the error, and the tag's reader
    as the call leaves it. *)
Definition readFrameHeader (t : tag) (r : reader)
  : result (FrameHeader * reader) * reader :=
  let '(id, r) := ConsumeBytes 4 r in
  match Reader.err r with
  | Some e => (Err e, r)
  | None =>
  if isPadding id then (Err errPaddingEncountered, r) else
  let '(hd, r) := ConsumeBytes 6 r in
  match Reader.err r with
  | Some e => (Err e, r)
  | None =>
  match SyncSafe.decodeSyncSafeUint32 (slice hd 0 4) with
  | Err e => (Err e, r)
  | OK size =>
  if size <? 1 then (Err ErrInvalidFrameHeader, r) else
  let flags :=
    FlagMap.Decode (frameFlags v24Data)
      (Z.lor (Z.shiftl (b2z (nth 4 hd x00)) 8) (b2z (nth 5 hd x00))) in
  let h := {| FrameID := string_of_list_byte id;
              FrameType_ := FrameTypeUnknown;
              FSize := size; FFlags := flags;
              GroupID := x00; EncryptMethod := x00; DataLength := 0 |} in
  let '(sub, r) := ConsumeIntoNewReader (Z.to_nat (FSize h)) r in
  let sub :=
    if (has (FFlags h) FrameFlagUnsynchronized
        && negb (has (Flags t) TagFlagUnsync))%bool
    then let '(b, sub) := ConsumeAll sub in
         ReplaceBuffer (Unsync.removeUnsyncCodes b) sub
    else sub in
  (OK (h, sub), r)
  end end end.

(** [codec24.decodeFrame]: the frame or the error, and the tag's reader
    as the call leaves it. *)
Definition decodeFrame (t : tag) (r : reader) : result frame * reader :=
  match readFrameHeader t r with
  | (Err e, r) => (Err e, r)
  | (OK (h, sub), r) =>
      match decodeExtra h sub with
      | Err e => (Err e, r)
      | OK (h, sub) =>
          match ScanFrame sub (FrameID h) with
          | Err e => (Err e, r)
          | OK p =>
              let h := setFrameType h (LookupFrameType (FrameID h)) in
              (OK (SetFrameHeader p h), r)
          end
      end
  end.

(** [codec24.Decode], lines 226-243: the frame loop.  Every iteration
    that goes on has consumed a frame header, so [Len r] iterations
    are always enough; see [decodeFrames_fuel]. *)
Fixpoint decodeFrames (fuel : nat) (t : tag) (r : reader)
  : tag * reader * option error :=
  match fuel with
  | O => (t, r, None)
  | S fuel =>
      if (0 <? Reader.Len r)%nat then
        match decodeFrame t r with
        | (Err e, r) =>
            if error_eq_dec e errPaddingEncountered then
              let t := setPadding t (Z.of_nat (Reader.Len r) + 4) in
              let '(_, r) := ConsumeAll r in
              (t, r, None)
            else (t, r, Some e)
        | (OK f, r) => decodeFrames fuel (appendFrame t f) r
        end
      else (t, r, None)
  end.

(** [codec24.Decode], lines 165-216: the extended header. *)
Definition decodeExtended (t : tag) (r : reader)
  : tag * reader * option error :=
  if negb (has (Flags t) TagFlagExtended) then (t, r, None) else
  let '(b, r) := ConsumeBytes 4 r in
  match SyncSafe.decodeSyncSafeUint32 b with
  | Err e => (t, r, Some e)
  | OK exSize =>
  let '(exFlagsSize, r) := ConsumeByte r in
  if negb (b2z exFlagsSize =? 1) then (t, r, Some ErrInvalidHeader) else
  let '(exFlags, r) := ConsumeByte r in
  let t := setFlags t (Z.lor (Flags t)
             (FlagMap.Decode (headerExFlags v24Data) (b2z exFlags))) in
  let exBytesConsumed := 6 in
  let '(r, exBytesConsumed) :=
    if has (Flags t) TagFlagIsUpdate
    then (snd (ConsumeByte r), exBytesConsumed + 1)
    else (r, exBytesConsumed) in
  let crcStep :=
    if has (Flags t) TagFlagHasCRC then
      let '(data, r) := ConsumeBytes 6 r in
      if negb (b2z (nth 0 data x00) =? 5) then (t, r, 0, Some ErrInvalidHeader)
      else
        match SyncSafe.decodeSyncSafeUint32 (slice data 1 5) with
        | Err _ => (setCRC t 0, r, 0, Some ErrInvalidHeader)
        | OK crc => (setCRC t crc, r, exBytesConsumed + 6, None)
        end
    else (t, r, exBytesConsumed, None) in
  match crcStep with
  | (t, r, _, Some e) => (t, r, Some e)
  | (t, r, exBytesConsumed, None) =>
  let restrStep :=
    if has (Flags t) TagFlagHasRestrictions then
      let '(one, r) := ConsumeByte r in
      if negb (b2z one =? 1) then (t, r, 0, Some ErrInvalidHeader)
      else
        let '(v, r) := ConsumeByte r in
        (setRestrictions t v, r, exBytesConsumed + 2, None)
    else (t, r, exBytesConsumed, None) in
  match restrStep with
  | (t, r, _, Some e) => (t, r, Some e)
  | (t, r, exBytesConsumed, None) =>
  let r :=
    if exBytesConsumed <? exSize
    then snd (ConsumeBytes (Z.to_nat (exSize - exBytesConsumed)) r)
    else r in
  match Reader.err r with
  | Some e => (t, r, Some e)
  | None => (t, r, None)
  end
  end end end.

(** [codec24.Decode], lines 132-163: the tag header, the load of the
    tag's bytes and the removal of the unsync codes. *)
Definition decodeHeader (t : tag) (r : reader)
  : tag * reader * option error :=
  let r := Load 6 r in
  match Reader.err r with
  | Some e => (t, r, Some e)
  | None =>
  let '(hdr, r) := ConsumeBytes 10 r in
  if negb (b2z (nth 4 hdr x00) =? 0) then (t, r, Some ErrInvalidTag) else
  let flags := b2z (nth 5 hdr x00) in
  let t := setFlags t (FlagMap.Decode (headerFlags v24Data) flags) in
  match SyncSafe.decodeSyncSafeUint32 (slice hdr 6 4) with
  | Err e => (t, r, Some e)
  | OK size =>
  let t := setSize t size in
  let r := Load (Z.to_nat (Size t)) r in
  match Reader.err r with
  | Some e => (t, r, Some e)
  | None =>
  let r :=
    if has (Flags t) TagFlagUnsync
    then let '(b, r) := ConsumeAll r in
         ReplaceBuffer (Unsync.removeUnsyncCodes b) r
    else r in
  (t, r, None)
  end end end.

(** [codec24.Decode], lines 218-224: the CRC validation. *)
Definition validateCRC (t : tag) (r : reader) : option error :=
  if has (Flags t) TagFlagHasCRC then
    let crc := uint32 (ChecksumIEEE (Bytes r)) in
    if negb (crc =? CRC t) then Some ErrFailedCRC else None
  else None.

(** [codec24.Decode]: the tag and the reader as the call leaves them,
    and the error. *)
Definition Decode (t : tag) (r : reader) : tag * reader * option error :=
  match decodeHeader t r with
  | (t, r, Some e) => (t, r, Some e)
  | (t, r, None) =>
      match decodeExtended t r with
      | (t, r, Some e) => (t, r, Some e)
      | (t, r, None) =>
          match validateCRC t r with
          | Some e => (t, r, Some e)
          | None => decodeFrames (Reader.Len r) t r
          end
      end
  end.

Definition byteOf (z : Z) : byte := z2b z.

(** [codec24.encodeFrame], lines 453-476: the extra header data and
    the offset of the data length placeholder (-1 if there is none). *)
Definition encodeExtra (h : FrameHeader) (w : writer) : writer * Z :=
  if FFlags h =? 0 then (w, -1) else
  let w :=
    if has (FFlags h) FrameFlagHasGroupID then
      let w := if outOfRange (GroupID h)
               then setErr ErrInvalidGroupID w else w in
      StoreByte (GroupID h) w
    else w in
  let w :=
    if has (FFlags h) FrameFlagEncrypted then
      let w := if outOfRange (EncryptMethod h)
               then setErr ErrInvalidEncryptMethod w else w in
      StoreByte (EncryptMethod h) w
    else w in
  if has (FFlags h) FrameFlagHasDataLength
  then (StoreBytes [x00; x00; x00; x00] w, Z.of_nat (Writer.Len w))
  else (w, -1).

(** [codec24.encodeFrame]: the writer as the call leaves it, and the
    error. *)
Definition encodeFrame (t : tag) (f : frame) (w : writer)
  : writer * option error :=
  let idOffset := Writer.Len w in
  let w := StoreBytes [x00; x00; x00; x00] w in
  let sizeOffset := Writer.Len w in
  let w := StoreBytes [x00; x00; x00; x00] w in
  let h := HeaderOf f in
  let h := if has (FFlags h) FrameFlagCompressed
           then setHFlags h (Z.lor (FFlags h) FrameFlagHasDataLength)
           else h in
  let flags := FlagMap.Encode (frameFlags v24Data) (FFlags h) in
  let w := StoreByte (byteOf (Z.shiftr flags 8)) w in
  let w := StoreByte (byteOf flags) w in
  let startOffset := Writer.Len w in
  let '(w, dataLengthOffset) := encodeExtra h w in
  match (if FFlags h =? 0 then None else Writer.err w) with
  | Some e => (w, Some e)
  | None =>
  let payloadOffset := Writer.Len w in
  match OutputFrame f with
  | Err e => (w, Some e)
  | OK (payload, frameID) =>
  let w := StoreBytes payload w in
  let w :=
    if -1 <? dataLengthOffset then
      let dl := Z.of_nat (Writer.Len w) - Z.of_nat payloadOffset in
      putSyncSafe (Z.to_nat dataLengthOffset) 4 (uint32 dl) w
    else w in
  let w :=
    if (has (FFlags h) FrameFlagUnsynchronized
        && negb (has (Flags t) TagFlagUnsync))%bool
    then let '(b, w) := ConsumeBytesFromOffset startOffset w in
         StoreBytes (Unsync.removeUnsyncCodes b) w
    else w in
  let w := copyTo idOffset 4 (list_byte_of_string frameID) w in
  let size := Z.of_nat (Writer.Len w) - Z.of_nat startOffset in
  let w := putSyncSafe sizeOffset 4 (uint32 size) w in
  (w, Writer.err w)
  end end.

(** [codec24.Encode], lines 391-395: the frames, in order. *)
Fixpoint encodeFrames (t : tag) (fs : list frame) (w : writer)
  : writer * option error :=
  match fs with
  | [] => (w, None)
  | f :: fs =>
      match encodeFrame t f w with
      | (w, Some e) => (w, Some e)
      | (w, None) => encodeFrames t fs w
      end
  end.

(** [codec24.Encode], lines 361-387: the extended header, and the
    offset of the CRC placeholder (-1 if there is none). *)
Definition encodeExtended (t : tag) (w : writer) : writer * Z :=
  if negb (has (Flags t) TagFlagExtended) then (w, -1) else
  let exFlags := byteOf (FlagMap.Encode (headerExFlags v24Data) (Flags t)) in
  let exHdrOffset := Writer.Len w in
  let w := StoreBytes [x00; x00; x00; x00; x01; exFlags] w in
  let w := if has (Flags t) TagFlagIsUpdate then StoreByte x00 w else w in
  let '(w, crcOffset) :=
    if has (Flags t) TagFlagHasCRC
    then (StoreBytes [x05; x00; x00; x00; x00; x00] w,
          Z.of_nat (Writer.Len w) + 1)
    else (w, -1) in
  let w := if has (Flags t) TagFlagHasRestrictions
           then StoreBytes [x01; Restrictions t] w else w in
  let exSize := Z.of_nat (Writer.Len w) - Z.of_nat exHdrOffset in
  (putSyncSafe exHdrOffset 4 (uint32 exSize) w, crcOffset).

(** [codec24.Encode], lines 351-412: everything staged before the
    tag-wide unsynchronization: the tag, the writer, the offsets of the
    CRC field and of the frames, and the error of a frame. *)
Definition encodeStaged (t : tag) (w : writer)
  : tag * writer * Z * nat * option error :=
  let t :=
    if has (Flags t) (Z.lor (Z.lor TagFlagHasCRC TagFlagHasRestrictions)
                            TagFlagIsUpdate)
    then setFlags t (Z.lor (Flags t) TagFlagExtended) else t in
  let flags := byteOf (FlagMap.Encode (headerFlags v24Data) (Flags t)) in
  let hdr := [x49; x44; x33; x04; x00; flags; x00; x00; x00; x00] in
  let w := StoreBytes hdr w in
  let '(w, crcOffset) := encodeExtended t w in
  let framesOffset := Writer.Len w in
  match encodeFrames t (Frames t) w with
  | (w, Some e) => (t, w, crcOffset, framesOffset, Some e)
  | (w, None) =>
  let '(t, w) :=
    if 0 <? Padding t then
      let t := if Padding t <? 4 then setPadding t 4 else t in
      (t, StoreBytes (zeros (Z.to_nat (Padding t))) w)
    else (t, w) in
  let '(t, w) :=
    if -1 <? crcOffset then
      let framesBuf :=
        SliceBuffer framesOffset (Writer.Len w - framesOffset) w in
      let t := setCRC t (uint32 (ChecksumIEEE framesBuf)) in
      (t, putSyncSafe (Z.to_nat crcOffset) 5 (CRC t) w)
    else (t, w) in
  (t, w, crcOffset, framesOffset, None)
  end.

(** [codec24.Encode]: the tag and the writer as the call leaves them,
    and the error. *)
Definition Encode (t : tag) (w : writer) : tag * writer * option error :=
  match encodeStaged t w with
  | (t, w, _, _, Some e) => (t, w, Some e)
  | (t, w, _, _, None) =>
  let sizeOffset := 6%nat in
  let w :=
    if has (Flags t) TagFlagUnsync
    then let '(b, w) := ConsumeBytesFromOffset 10 w in
         StoreBytes (Unsync.addUnsyncCodes b) w
    else w in
  let t := setSize t (Z.of_nat (Writer.Len w) - 10) in
  let w := putSyncSafe sizeOffset 4 (uint32 (Size t)) w in
  let '(w, err) := Save w in
  (t, w, err)
  end.

(** Modelled from the spec: the stream-level dispatcher of this
    revision is not among the sources.  Section 4.3: it has looked at
    the tag id and the version byte when [Decode] is called, which
    loads the remaining six bytes of the header and consumes all ten.
    [decodeStream] decodes a fresh v2.4 tag from a byte stream and
    [encodeTag] encodes into a fresh writer. *)
Definition freshTag : tag :=
  {| Version := x04; Flags := 0; Size := 0; Padding := 0; CRC := 0;
     Restrictions := x00; Frames := [] |}.

Definition readerOn (stream : list byte) : reader :=
  {| Reader.buf := firstn 4 stream; Reader.src := skipn 4 stream;
     Reader.err := None |}.

Definition decodeStream (stream : list byte) : tag * reader * option error :=
  Decode freshTag (readerOn stream).

Definition encodeTag (t : tag) : tag * writer * option error :=
  Encode t Writer.empty.

(** ** Tags in the form [Encode] emits them

    [Decode] hands back frames whose header fields are the ones of the
    wire: the size is the length of the frame's data, the type is the
    registry's, the flags are flags of the frame flag map, a compressed
    frame has a data length, and the group ID and the encryption
    method are within their bounds when their flag is set and are left
    at zero otherwise.  [wfFrame t f bs] says so of [f], whose payload
    the reflector emits as [bs] and scans back from [bs], and adds
    what [Encode] writes whatever the header holds: the data length is
    the length of the payload, and a frame is unsynchronized on its own
    only within a tag that is. *)
Definition extraLen (h : FrameHeader) : Z :=
  (if has (FFlags h) FrameFlagHasGroupID then 1 else 0)
  + (if has (FFlags h) FrameFlagEncrypted then 1 else 0)
  + (if has (FFlags h) FrameFlagHasDataLength then 4 else 0).

Record wfFrame (t : tag) (f : frame) (bs : list byte) : Prop := {
  wf_output : OutputFrame f = OK (bs, FrameID (Header f));
  wf_scan :
    ScanFrame {| Reader.buf := bs; Reader.src := []; Reader.err := None |}
      (FrameID (Header f)) = OK (Payload f);
  wf_id : length (list_byte_of_string (FrameID (Header f))) = 4%nat;
  wf_id_nonzero :
    isPadding (list_byte_of_string (FrameID (Header f))) = false;
  wf_type : FrameType_ (Header f) = LookupFrameType (FrameID (Header f));
  wf_flags : 0 <= FFlags (Header f) < 256;
  wf_compressed :
    has (FFlags (Header f)) FrameFlagCompressed = true ->
    has (FFlags (Header f)) FrameFlagHasDataLength = true;
  wf_unsync :
    has (FFlags (Header f)) FrameFlagUnsynchronized = true ->
    has (Flags t) TagFlagUnsync = true;
  wf_group :
    if has (FFlags (Header f)) FrameFlagHasGroupID
    then outOfRange (GroupID (Header f)) = false
    else GroupID (Header f) = x00;
  wf_encrypt :
    if has (FFlags (Header f)) FrameFlagEncrypted
    then outOfRange (EncryptMethod (Header f)) = false
    else EncryptMethod (Header f) = x00;
  wf_datalength :
    DataLength (Header f)
    = if has (FFlags (Header f)) FrameFlagHasDataLength then len bs else 0;
  wf_size : FSize (Header f) = extraLen (Header f) + len bs;
  wf_size_range : 1 <= FSize (Header f) < 2 ^ 28
}.

(** The tag: version 4, flags of the two header flag maps, the
    extended header flagged when one of its fields is, no restrictions
    without their flag, and frames as above. *)
Record wfTag (t : tag) : Prop := {
  wf_version : Version t = x04;
  wf_tag_flags : 0 <= Flags t < 128;
  wf_extended :
    has (Flags t) (Z.lor (Z.lor TagFlagHasCRC TagFlagHasRestrictions)
                         TagFlagIsUpdate) = true ->
    has (Flags t) TagFlagExtended = true;
  wf_restrictions :
    has (Flags t) TagFlagHasRestrictions = false -> Restrictions t = x00;
  wf_padding : 0 <= Padding t;
  wf_frames : Forall (fun f => exists bs, wfFrame t f bs) (Frames t)
}.

(** What [Encode] has staged after the ten bytes of the tag header
    when it comes to the tag-wide unsynchronization, and the size it
    stores in the tag. *)
Definition stagedBody (t : tag) : list byte :=
  let '(_, w, _, _, _) := encodeStaged t Writer.empty in
  skipn 10 (Writer.buf w).

Definition encodedSize (t : tag) : Z := Size (fst (fst (encodeTag t))).

End Codec.

End V24.

(** ** A concrete environment

    CRC-32/IEEE computed bit by bit (reflected polynomial 0xEDB88320),
    as [hash/crc32.ChecksumIEEE] of Go's library defines it. *)
Module Crc32.

Definition step (crc : Z) : Z :=
  if Z.testbit crc 0
  then Z.lxor (Z.shiftr crc 1) 3988292384
  else Z.shiftr crc 1.

Definition update (crc : Z) (b : byte) : Z :=
  let c := Z.lxor crc (b2z b) in
  step (step (step (step (step (step (step (step c))))))).

Definition ChecksumIEEE (data : list byte) : Z :=
  Z.lxor (fold_left update data 4294967295) 4294967295.

End Crc32.

Module Opaque.
Import V24.

(** Modelled from the spec: the reflector is not among the sources.
    This environment stands for it on frames of the Unknown variant
    (sections 3 and 4.5: opaque data, a byte slice that consumes all
    remaining bytes of the frame, emitted as it is under the frame's
    own ID), which is the variant of every frame ID outside the
    registry. *)
Definition ScanFrame (r : Reader.reader) (frameID : string)
  : result (list byte) :=
  match Reader.err r with
  | Some e => Err e
  | None => OK (fst (Reader.ConsumeAll r))
  end.

Definition OutputFrame (f : Frame (list byte)) : result (list byte * string) :=
  OK (Payload f, FrameID (Header f)).

#[export] Instance env : Env := {|
  Payload_ := list byte;
  V24.ScanFrame := ScanFrame;
  V24.OutputFrame := OutputFrame;
  V24.ChecksumIEEE := Crc32.ChecksumIEEE
|}.

End Opaque.

(** ** The field scanner of [codec24.go] *)

Module Scanner.

(** Modelled from the spec: the type [scanner] is not among the
    sources.  It is the buffered reader of section 4.2 under its
    earlier name: [Read] pulls bytes from the stream into the buffer
    and counts them in [n], the consume methods take them from the
    buffer, and a failed read or consume sticks in [err], after which
    every operation short-circuits and returns zeros. *)
Record scanner := {
  buf : list byte;
  n : Z;
  err : option error
}.

Definition empty : scanner := {| buf := []; n := 0; err := None |}.

Definition setErr (e : option error) (s : scanner) : scanner :=
  {| buf := buf s; n := n s; err := e |}.

(** [s.Read(r, cnt)] on the stream [r]: the scanner and the stream
    afterwards. *)
Definition Read (r : list byte) (cnt : nat) (s : scanner)
  : scanner * list byte :=
  match err s with
  | Some _ => (s, r)
  | None =>
      if (cnt <=? length r)%nat
      then ({| buf := buf s ++ firstn cnt r; n := n s + Z.of_nat cnt;
               err := None |}, skipn cnt r)
      else ({| buf := buf s ++ r; n := n s + len r;
               err := Some ErrUnexpectedEOF |}, [])
  end.

Definition Len (s : scanner) : nat := length (buf s).

Definition ConsumeBytes (cnt : nat) (s : scanner) : list byte * scanner :=
  match err s with
  | Some _ => (zeros cnt, s)
  | None =>
      if (cnt <=? length (buf s))%nat
      then (firstn cnt (buf s),
            {| buf := skipn cnt (buf s); n := n s; err := None |})
      else (zeros cnt, setErr (Some ErrUnexpectedEOF) s)
  end.

Definition ConsumeByte (s : scanner) : byte * scanner :=
  let '(b, s) := ConsumeBytes 1 s in (nth 0 b x00, s).

Definition ConsumeAll (s : scanner) : list byte * scanner :=
  match err s with
  | Some _ => ([], s)
  | None => (buf s, {| buf := []; n := n s; err := None |})
  end.

Definition Replace (b : list byte) (s : scanner) : scanner :=
  {| buf := b; n := n s; err := err s |}.

End Scanner.

Module Codec24.
Import Scanner.

(** Go types as the scanner sees them through [reflect]: the kinds it
    dispatches on, each with the type's name, and for a struct the
    fields in order, each with its name, its [id3] tags and its type.
    The kinds for which [scanStruct] panics are not expressible. *)
#[local] Unset Elimination Schemes.

Inductive rtype : Type :=
| TUint8 (name : string)
| TUint16 (name : string)
| TUint32 (name : string)
| TUint64 (name : string)
| TString (name : string)
| TByteSlice
| TStringSlice
| TStructSlice (name : string) (fields : list (string * list string * rtype))
| TStruct (name : string) (fields : list (string * list string * rtype)).

Definition field : Type := string * list string * rtype.

(** The value a scan leaves in a field; [VZero] is a field not set. *)
Inductive value : Type :=
| VZero
| VUint (z : Z)
| VStr (s : string)
| VBytes (b : list byte)
| VStrs (l : list string)
| VStruct (fields : list value)
| VStructs (elems : list value).

#[local] Set Elimination Schemes.

Record FrameHeader := {
  FrameID : string;
  Size : Z;
  Flags : Z;
  GroupID : byte;
  EncryptMethod : byte;
  DataLength : Z
}.

(** A frame as [DecodeFrame] hands it over: the struct scanned through
    reflection, with the header copied into its first field. *)
Record Frame := {
  Header : FrameHeader;
  Fields : list value
}.

Record state := {
  frameID : string;
  encoding : byte
}.

Definition EncodingISO88591 : byte := x00.

Record codec24 := {
  headerFlags : flagMap;
  frameFlags : flagMap;
  bounds : list (string * (Z * Z))
}.

Definition newCodec24 : codec24 := {|
  headerFlags := [
    (Z.shiftl 1 7, V24.TagFlagUnsync);
    (Z.shiftl 1 6, V24.TagFlagExtended);
    (Z.shiftl 1 5, V24.TagFlagExperimental);
    (Z.shiftl 1 4, V24.TagFlagFooter)];
  frameFlags := [
    (Z.shiftl 1 14, V24.FrameFlagDiscardOnTagAlteration);
    (Z.shiftl 1 13, V24.FrameFlagDiscardOnFileAlteration);
    (Z.shiftl 1 12, V24.FrameFlagReadOnly);
    (Z.shiftl 1 6, V24.FrameFlagHasGroupID);
    (Z.shiftl 1 3, V24.FrameFlagCompressed);
    (Z.shiftl 1 2, V24.FrameFlagEncrypted);
    (Z.shiftl 1 1, V24.FrameFlagUnsynchronized);
    (Z.shiftl 1 0, V24.FrameFlagHasDataLength)];
  bounds := [
    ("Encoding", (0, 3));
    ("GroupSymbol", (128, 240));
    ("PictureType", (0, 20));
    ("TimeStampFormat", (1, 2));
    ("LyricContentType", (0, 8))]%string
|}.

Fixpoint lookupBounds (m : list (string * (Z * Z))) (name : string)
  : option (Z * Z) :=
  match m with
  | [] => None
  | (k, b) :: m => if String.eqb k name then Some b else lookupBounds m name
  end.

Definition hasTag (tags : list string) (t : string) : bool :=
  existsb (String.eqb t) tags.

(** What the scanner calls and the sources do not hold: the string
    methods of [scanner] and the registry's lookups by frame ID. *)
Class Env := {
  ConsumeFixedLengthString : nat -> byte -> scanner -> string * scanner;
  ConsumeNextString : byte -> scanner -> string * scanner;
  ConsumeStrings : byte -> scanner -> list string * scanner;
  LookupReflectType : string -> string * list field;
  LookupFrameType : string -> Z
}.

Definition bigEndian (b : list byte) : Z :=
  fold_left (fun value x => Z.lor (Z.shiftl value 8) (b2z x)) b 0.

Definition uint8 (z : Z) : Z := z mod 2 ^ 8.
Definition uint64 (z : Z) : Z := z mod 2 ^ 64.

Definition isErr (s : scanner) : bool :=
  match err s with Some _ => true | None => false end.

Section Scan.
Context {E : Env}.
Variable c : codec24.

Definition scanUint8 (s : scanner) (name : string) (st : state)
  : scanner * state * value :=
  if isErr s then (s, st, VZero)
  else if String.eqb name "FrameType"
  then (s, st, VUint (LookupFrameType (frameID st)))
  else
    let b := lookupBounds (bounds c) name in
    let '(v, s) := ConsumeByte s in
    if isErr s then (s, st, VZero)
    else
      match b with
      | Some (mn, mx) =>
          if ((b2z v <? uint8 mn) || (uint8 mx <? b2z v))%bool
          then (setErr (Some ErrInvalidFrame) s, st, VZero)
          else
            let st := if String.eqb name "Encoding"
                      then {| frameID := frameID st; encoding := v |}
                      else st in
            (s, st, VUint (b2z v))
      | None =>
          let st := if String.eqb name "Encoding"
                    then {| frameID := frameID st; encoding := v |}
                    else st in
          (s, st, VUint (b2z v))
      end.

Definition scanUint16 (s : scanner) (tags : list string) (st : state)
  : scanner * state * value :=
  if isErr s then (s, st, VZero)
  else
    let '(v, s) :=
      if hasTag tags "tempo" then
        let '(b, s) := ConsumeByte s in
        let v := b2z b in
        if v =? 255
        then let '(b2, s) := ConsumeByte s in (uint16 (v + b2z b2), s)
        else (v, s)
      else
        let '(b, s) := ConsumeBytes 2 s in
        (Z.lor (Z.shiftl (b2z (nth 0 b x00)) 8) (b2z (nth 1 b x00)), s) in
    if isErr s then (s, st, VZero) else (s, st, VUint v).

Definition scanUint32 (s : scanner) (st : state) : scanner * state * value :=
  if isErr s then (s, st, VZero)
  else
    let '(b, s) := ConsumeBytes 4 s in
    (s, st, VUint (uint64 (bigEndian b))).

Definition scanUint64 (s : scanner) (tags : list string) (st : state)
  : scanner * state * value :=
  if isErr s then (s, st, VZero)
  else
    let '(b, s) := if hasTag tags "counter" then ConsumeAll s
                   else ConsumeBytes 8 s in
    if isErr s then (setErr (Some ErrInvalidFrame) s, st, VZero)
    else (s, st, VUint (uint64 (bigEndian b))).

Definition scanString (s : scanner) (name : string) (tags : list string)
    (st : state) : scanner * state * value :=
  if isErr s then (s, st, VZero)
  else if String.eqb name "FrameID" then (s, st, VStr (frameID st))
  else
    let enc := if hasTag tags "iso88519" then EncodingISO88591
               else encoding st in
    let '(str, s) :=
      if hasTag tags "lang"
      then ConsumeFixedLengthString 3 EncodingISO88591 s
      else ConsumeNextString enc s in
    if isErr s then (s, st, VZero) else (s, st, VStr str).

Definition scanByteSlice (s : scanner) (st : state)
  : scanner * state * value :=
  if isErr s then (s, st, VZero)
  else let '(b, s) := ConsumeAll s in (s, st, VBytes b).

Definition scanStringSlice (s : scanner) (st : state)
  : scanner * state * value :=
  if isErr s then (s, st, VZero)
  else
    let '(ss, s) := ConsumeStrings (encoding st) s in
    if isErr s then (s, st, VZero) else (s, st, VStrs ss).

(** [scanStructSlice], given the scan of one element: [k] bounds the
    iterations of its loop. *)
Fixpoint scanStructSlice
    (scanElem : scanner -> state -> scanner * state * list value)
    (k : nat) (s : scanner) (st : state) (elems : list value)
  : scanner * state * value :=
  match k with
  | O => (s, st, VStructs elems)
  | S k =>
      if (0 <? Len s)%nat then
        let '(s, st, v) := scanElem s st in
        if isErr s then (s, st, VZero)
        else scanStructSlice scanElem k s st (elems ++ [VStruct v])
      else (s, st, VStructs elems)
  end.

(** [scanStruct], the body of its loop: the dispatch on the kind of
    one field, given the scan of a nested struct. *)
Definition scanField
    (scanNested : scanner -> string -> list field -> state
                  -> scanner * state * list value)
    (k : nat) (acc : scanner * state * list value) (f : field)
  : scanner * state * list value :=
  let '(s, st, vs) := acc in
  let '(_, tags, typ) := f in
  let '(s, st, v) :=
    match typ with
    | TUint8 nm => scanUint8 s nm st
    | TUint16 _ => scanUint16 s tags st
    | TUint32 _ => scanUint32 s st
    | TUint64 _ => scanUint64 s tags st
    | TString nm => scanString s nm tags st
    | TByteSlice => scanByteSlice s st
    | TStringSlice => scanStringSlice s st
    | TStructSlice nm fs =>
        if isErr s then (s, st, VZero)
        else scanStructSlice (fun s st => scanNested s nm fs st) k s st []
    | TStruct nm fs =>
        let '(s, st, v) := scanNested s nm fs st in
        (s, st, VStruct v)
    end in
  (s, st, vs ++ [v]).

(** [scanStruct]: [fuel] bounds the nesting of structs and the
    iterations of the slice loops. *)
Fixpoint scanStruct (fuel : nat) (s : scanner) (name : string)
    (fields : list field) (st : state) {struct fuel}
  : scanner * state * list value :=
  match fuel with
  | O => (s, st, [])
  | S fuel =>
      if String.eqb name "FrameHeader" then (s, st, [])
      else fold_left (scanField (scanStruct fuel) fuel) fields (s, st, [])
  end.

Definition setGroupID (h : FrameHeader) (b : byte) : FrameHeader :=
  {| FrameID := FrameID h; Size := Size h; Flags := Flags h;
     GroupID := b; EncryptMethod := EncryptMethod h;
     DataLength := DataLength h |}.

Definition setEncryptMethod (h : FrameHeader) (b : byte) : FrameHeader :=
  {| FrameID := FrameID h; Size := Size h; Flags := Flags h;
     GroupID := GroupID h; EncryptMethod := b;
     DataLength := DataLength h |}.

Definition setDataLength (h : FrameHeader) (v : Z) : FrameHeader :=
  {| FrameID := FrameID h; Size := Size h; Flags := Flags h;
     GroupID := GroupID h; EncryptMethod := EncryptMethod h;
     DataLength := v |}.

Definition badSymbol (b : byte) : bool :=
  ((b2z b <? 128) || (240 <? b2z b))%bool.

Definition scanExtraHeaderData (s : scanner) (h : FrameHeader)
  : scanner * FrameHeader :=
  if (V24.has (Flags h) V24.FrameFlagCompressed
      && negb (V24.has (Flags h) V24.FrameFlagHasDataLength))%bool
  then (setErr (Some ErrInvalidFrameFlags) s, h)
  else
    let step1 :=
      if V24.has (Flags h) V24.FrameFlagHasGroupID then
        let '(gid, s) := ConsumeByte s in
        if (isErr s || badSymbol gid)%bool
        then inl (setErr (Some ErrInvalidFrameHeader) s, h)
        else inr (s, setGroupID h gid)
      else inr (s, h) in
    match step1 with
    | inl out => out
    | inr (s, h) =>
        let step2 :=
          if V24.has (Flags h) V24.FrameFlagEncrypted then
            let '(em, s) := ConsumeByte s in
            if (isErr s || badSymbol em)%bool
            then inl (setErr (Some ErrInvalidFrameHeader) s, h)
            else inr (s, setEncryptMethod h em)
          else inr (s, h) in
        match step2 with
        | inl out => out
        | inr (s, h) =>
            if V24.has (Flags h) V24.FrameFlagHasDataLength then
              let '(b, s) := ConsumeBytes 4 s in
              let s := if isErr s
                       then setErr (Some ErrInvalidFrameHeader) s else s in
              match SyncSafe.decodeSyncSafeUint32 b with
              | OK dl => (setErr None s, setDataLength h dl)
              | Err e => (setErr (Some e) s, setDataLength h 0)
              end
            else (s, h)
        end
    end.

(** [codec24.DecodeFrame], lines 195-245: the frame header and the
    frame's bytes read from the stream [r] into the scanner.  The
    scanner and the header, or the error with the byte count, and the
    stream afterwards.  [tagFlags] is [t.Flags]. *)
Definition readFrame (tagFlags : Z) (r : list byte)
  : (Z * error + scanner * FrameHeader) * list byte :=
  let s := Scanner.empty in
  let '(s, r) := Read r 4 s in
  match err s with
  | Some e => (inl (n s, e), r)
  | None =>
  let '(hdr, s) := ConsumeAll s in
  if V24.isPadding hdr then (inl (n s, errPaddingEncountered), r) else
  let frameID := string_of_list_byte (slice hdr 0 4) in
  let '(s, r) := Read r 6 s in
  match err s with
  | Some e => (inl (n s, e), r)
  | None =>
  let '(more, s) := ConsumeAll s in
  let hdr := hdr ++ more in
  match SyncSafe.decodeSyncSafeUint32 (slice hdr 4 4) with
  | Err e => (inl (n s, e), r)
  | OK size =>
  if size <? 1 then (inl (n s, ErrInvalidFrameHeader), r) else
  let flags := Z.lor (Z.shiftl (b2z (nth 8 hdr x00)) 8)
                     (b2z (nth 9 hdr x00)) in
  let header := {| FrameID := frameID; Size := size;
                   Flags := FlagMap.Decode (frameFlags c) flags;
                   GroupID := x00; EncryptMethod := x00; DataLength := 0 |} in
  let '(s, r) := Read r (Z.to_nat (Size header)) s in
  match err s with
  | Some e => (inl (n s, e), r)
  | None =>
  let s :=
    if (V24.has (Flags header) V24.FrameFlagUnsynchronized
        && negb (V24.has tagFlags V24.TagFlagUnsync))%bool
    then Replace (Unsync.removeUnsyncCodes (buf s)) s else s in
  let '(s, header) :=
    if negb (Flags header =? 0) then scanExtraHeaderData s header
    else (s, header) in
  match (if negb (Flags header =? 0) then err s else None) with
  | Some e => (inl (n s, e), r)
  | None => (inr (s, header), r)
  end
  end end end end.

(** [codec24.DecodeFrame]: the byte count, the error, the frame if
    there is one, and the stream afterwards. *)
Definition DecodeFrame (fuel : nat) (tagFlags : Z) (r : list byte)
  : Z * option error * option Frame * list byte :=
  match readFrame tagFlags r with
  | (inl (cnt, e), r) => (cnt, Some e, None, r)
  | (inr (s, header), r) =>
      let st := {| frameID := FrameID header;
                   encoding := EncodingISO88591 |} in
      let '(tname, tfields) := LookupReflectType (FrameID header) in
      let '(s, st, vs) := scanStruct fuel s tname tfields st in
      match err s with
      | Some e => (n s, Some e, None, r)
      | None => (n s, None, Some {| Header := header; Fields := vs |}, r)
      end
  end.

End Scan.

End Codec24.

(** ** A concrete environment for the field scanner *)

Module Latin1.
Import Scanner Codec24.

(** Modelled from the spec: the string methods of [scanner] are not
    among the sources.  Section 4.1, for ISO-8859-1 only: one byte per
    code point; a fixed-length read takes its bytes, a null-terminated
    read consumes up to and including the terminator, and the last
    string of a frame needs no terminator.  The other three encodings
    are outside this environment. *)
Fixpoint splitNul (b : list byte) : list byte * list byte :=
  match b with
  | [] => ([], [])
  | x :: tl =>
      if b2z x =? 0 then ([], tl)
      else let '(a, rest) := splitNul tl in (x :: a, rest)
  end.

Definition ConsumeFixedLengthString (cnt : nat) (enc : byte) (s : scanner)
  : string * scanner :=
  let '(b, s) := ConsumeBytes cnt s in (string_of_list_byte b, s).

Definition ConsumeNextString (enc : byte) (s : scanner) : string * scanner :=
  match err s with
  | Some _ => (EmptyString, s)
  | None =>
      let '(a, rest) := splitNul (buf s) in
      (string_of_list_byte a, Replace rest s)
  end.

Fixpoint splitAll (fuel : nat) (b : list byte) : list string :=
  match fuel, b with
  | S fuel, _ :: _ =>
      let '(a, rest) := splitNul b in
      string_of_list_byte a :: splitAll fuel rest
  | _, _ => []
  end.

Definition ConsumeStrings (enc : byte) (s : scanner)
  : list string * scanner :=
  match err s with
  | Some _ => ([], s)
  | None => (splitAll (length (buf s)) (buf s), Replace [] s)
  end.

(** The payload structs of the frame model that is among the sources
    (unknown, text and attached picture), each behind its header. *)
Definition header : field := ("Header", [], TStruct "FrameHeader" [])%string.

Definition FrameUnknown : string * list field :=
  ("FrameUnknown", [header; ("Data", [], TByteSlice)])%string.

Definition FrameText : string * list field :=
  ("FrameText",
   [header; ("Encoding", [], TUint8 "Encoding");
    ("Text", [], TStringSlice)])%string.

Definition FrameAPIC : string * list field :=
  ("FrameAPIC",
   [header; ("Encoding", [], TUint8 "Encoding");
    ("MimeType", [], TString "string");
    ("Type", [], TUint8 "PictureType");
    ("Description", [], TString "string");
    ("Data", [], TByteSlice)])%string.

Definition LookupReflectType (id : string) : string * list field :=
  if String.eqb id "APIC" then FrameAPIC
  else if (String.prefix "T" id && negb (String.eqb id "TXXX"))%bool
  then FrameText
  else FrameUnknown.

#[export] Instance env : Env := {|
  Codec24.ConsumeFixedLengthString := ConsumeFixedLengthString;
  Codec24.ConsumeNextString := ConsumeNextString;
  Codec24.ConsumeStrings := ConsumeStrings;
  Codec24.LookupReflectType := LookupReflectType;
  Codec24.LookupFrameType := fun _ => 0
|}.

End Latin1.

(** ** The layout of an encoded tag

    Auxiliary functions of the proofs about [Encode] and [Decode]: the
    bytes of a frame and of a tag written as functions of the tag, and
    the tags the two functions pass through.  Nothing rests on them
    being right: [V24Encode] proves that these are the bytes [Encode]
    stages, and [V24Decode] that [Decode] reads them back. *)
Module V24Layout.
Import V24.

(** The staged bytes begin with [p]. *)
Definition extends (p : list byte) (w : Writer.writer) : Prop :=
  exists x, Writer.buf w = p ++ x.

(** The [n] bytes of a sync-safe integer, and a field that is there
    only with its flag. *)
Definition ss (n : nat) (v : Z) : list byte :=
  map (SyncSafe.septet v) (rev (seq 0 n)).

Definition opt (b : bool) (l : list byte) : list byte :=
  if b then l else [].

(** The flags of a frame and of the tag as they come back from the
    wire. *)
Definition frameWire (z : Z) : Z :=
  let fl := FlagMap.Encode (frameFlags v24Data) z in
  Z.lor (Z.shiftl (b2z (byteOf (Z.shiftr fl 8))) 8) (b2z (byteOf fl)).

Definition headerWire (z : Z) : Z :=
  b2z (byteOf (FlagMap.Encode (headerFlags v24Data) z)).

Definition headerExWire (z : Z) : Z :=
  b2z (byteOf (FlagMap.Encode (headerExFlags v24Data) z)).

(** A frame: the extra header data (with [dl] in the place of the data
    length), the two flag bytes, and the whole frame around the
    payload bytes [bs]; then the frames of a tag one after the other. *)
Definition extraBytes (h : FrameHeader) (dl : list byte) : list byte :=
  opt (has (FFlags h) FrameFlagHasGroupID) [GroupID h]
  ++ opt (has (FFlags h) FrameFlagEncrypted) [EncryptMethod h]
  ++ opt (has (FFlags h) FrameFlagHasDataLength) dl.

Definition flagBytes (h : FrameHeader) : list byte :=
  let fl := FlagMap.Encode (frameFlags v24Data) (FFlags h) in
  [byteOf (Z.shiftr fl 8); byteOf fl].

Definition frameBytes {P} (f : Frame P) (bs : list byte) : list byte :=
  list_byte_of_string (FrameID (Header f))
  ++ ss 4 (FSize (Header f))
  ++ flagBytes (Header f)
  ++ extraBytes (Header f) (ss 4 (len bs))
  ++ bs.

Fixpoint framesBytes {P} (fs : list (Frame P)) (bss : list (list byte))
  : list byte :=
  match fs, bss with
  | f :: fs, bs :: bss => frameBytes f bs ++ framesBytes fs bss
  | _, _ => []
  end.

(** The extended header: its size, its bytes (with [crc] in the place
    of the CRC) and the offset of the CRC behind the staged bytes [B];
    the padding [Encode] writes; the tag header in front of the bytes
    of the size. *)
Definition exSizeOf {P} (t : Tag P) : Z :=
  6 + (if has (Flags t) TagFlagIsUpdate then 1 else 0)
  + (if has (Flags t) TagFlagHasCRC then 6 else 0)
  + (if has (Flags t) TagFlagHasRestrictions then 2 else 0).

Definition extBytes {P} (t : Tag P) (crc : list byte) : list byte :=
  opt (has (Flags t) TagFlagExtended)
    (ss 4 (exSizeOf t)
     ++ [x01; byteOf (FlagMap.Encode (headerExFlags v24Data) (Flags t))]
     ++ opt (has (Flags t) TagFlagIsUpdate) [x00]
     ++ opt (has (Flags t) TagFlagHasCRC) (x05 :: crc)
     ++ opt (has (Flags t) TagFlagHasRestrictions) [x01; Restrictions t]).

Definition crcOffsetOf {P} (t : Tag P) (B : list byte) : Z :=
  if (has (Flags t) TagFlagExtended && has (Flags t) TagFlagHasCRC)%bool
  then Z.of_nat (length B) + 6
       + (if has (Flags t) TagFlagIsUpdate then 1 else 0) + 1
  else -1.

Definition padOf {P} (t : Tag P) : nat :=
  if 0 <? Padding t then Z.to_nat (Z.max 4 (Padding t)) else 0%nat.

Definition hdrBytes {P} (t : Tag P) (size : list byte) : list byte :=
  [x49; x44; x33; x04; x00;
   byteOf (FlagMap.Encode (headerFlags v24Data) (Flags t))] ++ size.

(** The header as [readFrameHeader] builds it, and as [decodeExtra]
    completes it. *)
Definition bare (h : FrameHeader) : FrameHeader :=
  {| FrameID := FrameID h; FrameType_ := FrameTypeUnknown;
     FSize := FSize h; FFlags := FFlags h;
     GroupID := x00; EncryptMethod := x00; DataLength := 0 |}.

Definition untyped (h : FrameHeader) : FrameHeader :=
  {| FrameID := FrameID h; FrameType_ := FrameTypeUnknown;
     FSize := FSize h; FFlags := FFlags h;
     GroupID := GroupID h; EncryptMethod := EncryptMethod h;
     DataLength := DataLength h |}.

Section WithEnv.
Context {E : Env}.

(** The tag as [encodeStaged] leaves it, and the CRC it computes. *)
Definition crcOf (t : Tag Payload_) (bss : list (list byte)) : Z :=
  uint32 (ChecksumIEEE (framesBytes (Frames t) bss ++ zeros (padOf t))).

Definition stagedTag (t : Tag Payload_) (bss : list (list byte))
  : Tag Payload_ :=
  {| Version := Version t; Flags := Flags t; Size := Size t;
     Padding := Z.of_nat (padOf t);
     CRC := if has (Flags t) TagFlagHasCRC then crcOf t bss else CRC t;
     Restrictions := Restrictions t; Frames := Frames t |}.

(** What follows the tag header: as staged, and as saved. *)
Definition bodyBytes (t : Tag Payload_) (bss : list (list byte)) : list byte :=
  extBytes t (ss 5 (crcOf t bss))
  ++ framesBytes (Frames t) bss ++ zeros (padOf t).

Definition wireBody (t : Tag Payload_) (bss : list (list byte)) : list byte :=
  if has (Flags t) TagFlagUnsync
  then Unsync.addUnsyncCodes (bodyBytes t bss) else bodyBytes t bss.

(** The tags [Decode] goes through: frames appended, the extended
    header read. *)
Definition withFrames (t : Tag Payload_) (fs : list (Frame Payload_))
  : Tag Payload_ :=
  {| Version := Version t; Flags := Flags t; Size := Size t;
     Padding := Padding t; CRC := CRC t; Restrictions := Restrictions t;
     Frames := Frames t ++ fs |}.

Definition extTag (t t0 : Tag Payload_) (crc : Z) : Tag Payload_ :=
  {| Version := Version t0; Flags := Flags t; Size := Size t0;
     Padding := Padding t0;
     CRC := if has (Flags t) TagFlagHasCRC then crc else CRC t0;
     Restrictions := if has (Flags t) TagFlagHasRestrictions
                     then Restrictions t else Restrictions t0;
     Frames := Frames t0 |}.

(** The tag [Decode] rebuilds from the bytes [Encode] saves. *)
Definition decodedTag (t : Tag Payload_) (bss : list (list byte))
  : Tag Payload_ :=
  {| Version := x04; Flags := Flags t; Size := len (wireBody t bss);
     Padding := Z.of_nat (padOf t);
     CRC := if has (Flags t) TagFlagHasCRC then crcOf t bss else 0;
     Restrictions := if has (Flags t) TagFlagHasRestrictions
                     then Restrictions t else x00;
     Frames := Frames t |}.

(** The header phases assign flags, size, CRC and restrictions only. *)
Definition keeps (t t' : Tag Payload_) : Prop :=
  Version t' = Version t /\ Padding t' = Padding t /\ Frames t' = Frames t.

End WithEnv.

End V24Layout.

(** * Properties *)

(** ** Bytes *)

Lemma b2z_range (b : byte) : 0 <= b2z b < 256.
Proof.
  unfold b2z. pose proof (Byte.to_N_bounded b). lia.
Qed.

Lemma z2b_b2z (b : byte) : z2b (b2z b) = b.
Proof.
  unfold z2b. pose proof (b2z_range b) as R.
  rewrite Z.mod_small by exact R.
  unfold b2z. rewrite N2Z.id, Byte.of_to_N. reflexivity.
Qed.

Lemma b2z_z2b (z : Z) : b2z (z2b z) = z mod 256.
Proof.
  unfold z2b, b2z.
  pose proof (Z.mod_pos_bound z 256 ltac:(lia)) as R.
  destruct (Byte.of_N (Z.to_N (z mod 256))) as [b|] eqn:E.
  - apply Byte.to_of_N in E. rewrite E. rewrite Z2N.id; lia.
  - apply Byte.of_N_None_iff in E. lia.
Qed.

Lemma b2z_inj (a b : byte) : b2z a = b2z b -> a = b.
Proof.
  intros H. rewrite <- (z2b_b2z a), <- (z2b_b2z b). now rewrite H.
Qed.

Lemma b2z_small (z : Z) : 0 <= z < 256 -> b2z (z2b z) = z.
Proof. intros. rewrite b2z_z2b. now apply Z.mod_small. Qed.

(** ** Sync-safe integers *)

Module SyncSafeFacts.
Import SyncSafe.

Lemma lor_shift7 (acc b : Z) :
  0 <= acc -> 0 <= b < 128 -> Z.lor (Z.shiftl acc 7) b = acc * 128 + b.
Proof.
  intros Ha Hb.
  rewrite Z.shiftl_mul_pow2 by lia. change (2 ^ 7) with 128.
  rewrite <- Z.lxor_lor, <- Z.add_nocarry_lxor; try reflexivity.
  all: apply Z.bits_inj'; intros n Hn; rewrite Z.land_spec, Z.bits_0.
  all: destruct (Z.ltb_spec n 7).
  all: try (replace (acc * 128) with (acc * 2 ^ 7) by lia;
            rewrite Z.mul_pow2_bits_low by lia; reflexivity).
  all: rewrite (Z.bits_above_log2 b n), andb_false_r; try reflexivity; try lia.
  all: destruct (Z.eq_dec b 0) as [->|]; [simpl; lia|].
  all: apply Z.log2_lt_pow2; try lia.
  all: apply Z.lt_le_trans with (2 ^ 7); [simpl; lia|].
  all: apply Z.pow_le_mono_r; lia.
Qed.

Lemma septet_val (v : Z) (i : nat) :
  b2z (septet v i) = (v / 2 ^ (7 * Z.of_nat i)) mod 128.
Proof.
  unfold septet.
  change 127 with (Z.ones 7). rewrite Z.land_ones by lia.
  rewrite Z.shiftr_div_pow2 by lia. change (2 ^ 7) with 128.
  apply b2z_small.
  pose proof (Z.mod_pos_bound (v / 2 ^ (7 * Z.of_nat i)) 128). lia.
Qed.

Lemma septet_low (v : Z) (i : nat) : topBit (septet v i) = false.
Proof.
  unfold topBit. rewrite septet_val.
  pose proof (Z.mod_pos_bound (v / 2 ^ (7 * Z.of_nat i)) 128). lia.
Qed.

Lemma rev_seq_S (n : nat) : rev (seq 0 (S n)) = n :: rev (seq 0 n).
Proof. rewrite seq_S, rev_app_distr. reflexivity. Qed.

Lemma fold_septets (v : Z) (n : nat) (acc : Z) :
  0 <= acc -> 0 <= v ->
  fold_left shiftIn (map (septet v) (rev (seq 0 n))) acc
  = acc * 2 ^ (7 * Z.of_nat n) + v mod 2 ^ (7 * Z.of_nat n).
Proof.
  revert acc. induction n as [|n IH]; intros acc Ha Hv.
  - simpl. rewrite Z.mod_1_r. lia.
  - rewrite rev_seq_S. cbn [map fold_left]. unfold shiftIn at 2.
    pose proof (Z.mod_pos_bound (v / 2 ^ (7 * Z.of_nat n)) 128 ltac:(lia)) as B.
    rewrite lor_shift7; rewrite ?septet_val; try lia.
    rewrite IH by lia.
    replace (7 * Z.of_nat (S n)) with (7 * Z.of_nat n + 7) by lia.
    rewrite Z.pow_add_r by lia. change (2 ^ 7) with 128.
    assert (P : 0 < 2 ^ (7 * Z.of_nat n)) by (apply Z.pow_pos_nonneg; lia).
    rewrite (Z.rem_mul_r v (2 ^ (7 * Z.of_nat n)) 128) by lia.
    ring.
Qed.

Lemma existsb_septets (v : Z) (l : list nat) :
  existsb topBit (map (septet v) l) = false.
Proof.
  induction l as [|i l IH]; simpl; [reflexivity|].
  now rewrite septet_low, IH.
Qed.

(** Decoding what the encoder wrote gives the value back, for any
    destination width (four bytes for sizes, five for the CRC). *)
Lemma decode_encode (n : nat) (v : Z) :
  0 <= v < 2 ^ (7 * Z.of_nat n) -> v < 2 ^ 32 ->
  exists bs, encodeSyncSafeUint32 n v = OK bs
             /\ length bs = n
             /\ decodeSyncSafeUint32 bs = OK v.
Proof.
  intros Hv H32. unfold encodeSyncSafeUint32.
  destruct (Z.leb_spec (2 ^ (7 * Z.of_nat n)) v); [lia|].
  eexists; split; [reflexivity|]. split.
  - now rewrite length_map, length_rev, length_seq.
  - unfold decodeSyncSafeUint32. rewrite existsb_septets.
    rewrite fold_septets by lia.
    rewrite Z.mul_0_l, Z.add_0_l, (Z.mod_small v) by lia.
    unfold uint32. rewrite Z.mod_small; [reflexivity|].
    change (2 ^ 32) with 4294967296 in *. lia.
Qed.

Lemma decode4_value (b0 b1 b2 b3 : byte) :
  b2z b0 < 128 -> b2z b1 < 128 -> b2z b2 < 128 -> b2z b3 < 128 ->
  uint32 (fold_left shiftIn [b0; b1; b2; b3] 0)
  = Z.lor (Z.lor (Z.lor (Z.shiftl (b2z b0) 21) (Z.shiftl (b2z b1) 14))
                 (Z.shiftl (b2z b2) 7)) (b2z b3).
Proof.
  intros H0 H1 H2 H3.
  pose proof (b2z_range b0). pose proof (b2z_range b1).
  pose proof (b2z_range b2). pose proof (b2z_range b3).
  assert (E : fold_left shiftIn [b0; b1; b2; b3] 0
              = Z.lor (Z.lor (Z.lor (Z.shiftl (b2z b0) 21) (Z.shiftl (b2z b1) 14))
                             (Z.shiftl (b2z b2) 7)) (b2z b3)).
  { cbn [fold_left]. unfold shiftIn.
    rewrite Z.shiftl_0_l, Z.lor_0_l.
    rewrite !Z.shiftl_lor, !Z.shiftl_shiftl by lia. reflexivity. }
  assert (B : 0 <= fold_left shiftIn [b0; b1; b2; b3] 0 < 2 ^ 28).
  { cbn [fold_left]. unfold shiftIn.
    rewrite Z.shiftl_0_l, Z.lor_0_l.
    rewrite (lor_shift7 (b2z b0)) by lia.
    rewrite (lor_shift7 (b2z b0 * 128 + b2z b1)) by lia.
    rewrite (lor_shift7 ((b2z b0 * 128 + b2z b1) * 128 + b2z b2)) by lia.
    change (2 ^ 28) with 268435456. lia. }
  rewrite <- E. unfold uint32. apply Z.mod_small.
  change (2 ^ 28) with 268435456 in B. change (2 ^ 32) with 4294967296. lia.
Qed.

End SyncSafeFacts.

(** C2.  Sync-safe round trip: every value below 2^28 is decoded back
    from its four-byte encoding; the four-byte encoder rejects every
    value from 2^28 on; the decoder rejects, with the invalid sync code
    error, every four-byte input in which some byte has its top bit
    set, and otherwise returns (b0<<21)|(b1<<14)|(b2<<7)|b3. *)
Theorem syncsafe_roundtrip :
  (forall v, 0 <= v < 2 ^ 28 ->
     exists bs, SyncSafe.encodeSyncSafeUint32 4 v = OK bs
                /\ SyncSafe.decodeSyncSafeUint32 bs = OK v)
  /\ (forall v, 2 ^ 28 <= v ->
        SyncSafe.encodeSyncSafeUint32 4 v = Err ErrInvalidSync)
  /\ (forall b0 b1 b2 b3,
        128 <= b2z b0 \/ 128 <= b2z b1 \/ 128 <= b2z b2 \/ 128 <= b2z b3 ->
        SyncSafe.decodeSyncSafeUint32 [b0; b1; b2; b3] = Err ErrInvalidSync)
  /\ (forall b0 b1 b2 b3,
        b2z b0 < 128 -> b2z b1 < 128 -> b2z b2 < 128 -> b2z b3 < 128 ->
        SyncSafe.decodeSyncSafeUint32 [b0; b1; b2; b3]
        = OK (Z.lor (Z.lor (Z.lor (Z.shiftl (b2z b0) 21)
                                  (Z.shiftl (b2z b1) 14))
                           (Z.shiftl (b2z b2) 7)) (b2z b3))).
Proof.
  repeat split.
  - intros v Hv.
    destruct (SyncSafeFacts.decode_encode 4 v) as (bs & E & _ & D).
    + exact Hv.
    + change (2 ^ 28) with 268435456 in Hv. change (2 ^ 32) with 4294967296. lia.
    + now exists bs.
  - intros v Hv. unfold SyncSafe.encodeSyncSafeUint32.
    change (2 ^ (7 * Z.of_nat 4)) with (2 ^ 28).
    destruct (Z.leb_spec (2 ^ 28) v); [reflexivity|lia].
  - intros b0 b1 b2 b3 H. unfold SyncSafe.decodeSyncSafeUint32.
    cbn [existsb]. unfold SyncSafe.topBit.
    destruct (Z.leb_spec 128 (b2z b0)); [reflexivity|].
    destruct (Z.leb_spec 128 (b2z b1)); [reflexivity|].
    destruct (Z.leb_spec 128 (b2z b2)); [reflexivity|].
    destruct (Z.leb_spec 128 (b2z b3)); [reflexivity|lia].
  - intros b0 b1 b2 b3 H0 H1 H2 H3. unfold SyncSafe.decodeSyncSafeUint32.
    cbn [existsb]. unfold SyncSafe.topBit.
    destruct (Z.leb_spec 128 (b2z b0)); [lia|].
    destruct (Z.leb_spec 128 (b2z b1)); [lia|].
    destruct (Z.leb_spec 128 (b2z b2)); [lia|].
    destruct (Z.leb_spec 128 (b2z b3)); [lia|].
    cbn [orb]. f_equal. now apply SyncSafeFacts.decode4_value.
Qed.

Lemma syncsafe_roundtrip_witness :
  (exists bs, SyncSafe.encodeSyncSafeUint32 4 257 = OK bs
              /\ SyncSafe.decodeSyncSafeUint32 bs = OK 257)
  /\ SyncSafe.encodeSyncSafeUint32 4 (2 ^ 28) = Err ErrInvalidSync
  /\ SyncSafe.decodeSyncSafeUint32 [x00; x80; x00; x00] = Err ErrInvalidSync
  /\ SyncSafe.decodeSyncSafeUint32 [x01; x02; x03; x04]
     = OK (Z.lor (Z.lor (Z.lor (Z.shiftl (b2z x01) 21)
                               (Z.shiftl (b2z x02) 14))
                        (Z.shiftl (b2z x03) 7)) (b2z x04)).
Proof.
  destruct syncsafe_roundtrip as (A & B & C & D).
  split; [|split; [|split]].
  - apply A. vm_compute. split; [discriminate|reflexivity].
  - apply B. vm_compute. discriminate.
  - apply C. right. left. vm_compute. discriminate.
  - apply D; vm_compute; reflexivity.
Defined.

(** ** Unsynchronization *)

Module UnsyncFacts.
Import Unsync.

Lemma add_head (b : byte) (tl : list byte) :
  exists rest, addUnsyncCodes (b :: tl) = b :: rest.
Proof.
  cbn [addUnsyncCodes].
  destruct (isFF b && needsStuffing tl)%bool; eexists; reflexivity.
Qed.

Lemma add_nil_inv (s : list byte) : addUnsyncCodes s = [] -> s = [].
Proof.
  destruct s as [|b tl]; [reflexivity|].
  destruct (add_head b tl) as (rest & E). congruence.
Qed.

Lemma x00_not_FF : isFF x00 = false.
Proof. reflexivity. Qed.

Lemma x00_low : (128 <=? b2z x00) = false.
Proof. reflexivity. Qed.

Lemma hasSyncPair_cons (b : byte) (l : list byte) :
  hasSyncPair (b :: l)
  = ((isFF b && match l with [] => false | n :: _ => 128 <=? b2z n end)
     || hasSyncPair l)%bool.
Proof.
  destruct l as [|n l]; cbn [hasSyncPair].
  - now rewrite andb_false_r.
  - reflexivity.
Qed.

(** The stuffed form holds no 0xFF followed by a byte of 0x80 or more. *)
Lemma add_no_sync (s : list byte) : hasSyncPair (addUnsyncCodes s) = false.
Proof.
  induction s as [|b tl IH]; [reflexivity|].
  cbn [addUnsyncCodes].
  destruct (isFF b) eqn:Fb; cbn [andb].
  - destruct (needsStuffing tl) eqn:N.
    + rewrite hasSyncPair_cons, x00_low, andb_false_r. cbn [orb].
      rewrite hasSyncPair_cons, x00_not_FF. cbn [andb orb]. exact IH.
    + rewrite hasSyncPair_cons, IH, orb_false_r.
      destruct tl as [|n tl']; [discriminate|].
      destruct (add_head n tl') as (rest & E). rewrite E.
      cbn [needsStuffing] in N. now rewrite N, andb_false_r.
  - rewrite hasSyncPair_cons, Fb, IH. reflexivity.
Qed.

Lemma remove_cons_keep (b : byte) (l : list byte) :
  (isFF b && match l with [] => false | z :: _ => is00 z end)%bool = false ->
  removeUnsyncCodes (b :: l) = b :: removeUnsyncCodes l.
Proof.
  destruct l as [|z l]; [reflexivity|]. intros H.
  cbn [removeUnsyncCodes] in *. now rewrite H.
Qed.

Lemma hasFF00_cons (b : byte) (l : list byte) :
  hasFF00 (b :: l)
  = ((isFF b && match l with [] => false | z :: _ => is00 z end)
     || hasFF00 l)%bool.
Proof.
  destruct l as [|z l]; cbn [hasFF00].
  - now rewrite andb_false_r.
  - reflexivity.
Qed.

(** Removing the codes undoes adding them on inputs that hold no
    0xFF 0x00 pair of their own. *)
Lemma remove_add (s : list byte) :
  hasFF00 s = false -> removeUnsyncCodes (addUnsyncCodes s) = s.
Proof.
  induction s as [|b tl IH]; [reflexivity|].
  rewrite hasFF00_cons. intros H.
  apply orb_false_iff in H. destruct H as [Hb Htl].
  specialize (IH Htl). cbn [addUnsyncCodes].
  destruct (isFF b && needsStuffing tl)%bool eqn:S.
  - apply andb_true_iff in S. destruct S as [Fb _].
    cbn [removeUnsyncCodes]. rewrite Fb. cbn. now rewrite IH.
  - rewrite remove_cons_keep; [now rewrite IH|].
    destruct tl as [|z tl'].
    + cbn. now rewrite andb_false_r.
    + destruct (add_head z tl') as (rest & E). rewrite E. exact Hb.
Qed.

Lemma is00_not_FF (z : byte) : is00 z = true -> isFF z = false.
Proof.
  unfold is00, isFF. intros H. apply Z.eqb_eq in H. now rewrite H.
Qed.

Lemma is00_low (z : byte) : is00 z = true -> (128 <=? b2z z) = false.
Proof.
  unfold is00. intros H. apply Z.eqb_eq in H. now rewrite H.
Qed.

(** The round trip never lengthens its input, and shortens every
    input that holds an 0xFF 0x00 pair. *)
Lemma remove_add_length (s : list byte) :
  (length (removeUnsyncCodes (addUnsyncCodes s)) <= length s)%nat
  /\ (hasFF00 s = true ->
      (length (removeUnsyncCodes (addUnsyncCodes s)) < length s)%nat).
Proof.
  remember (length s) as n eqn:L.
  revert s L. induction n as [n IH] using lt_wf_ind. intros s L.
  destruct s as [|b tl]; [cbn; split; [lia|discriminate]|].
  cbn [length] in L. rewrite hasFF00_cons. cbn [addUnsyncCodes].
  destruct (isFF b && needsStuffing tl)%bool eqn:S.
  - apply andb_true_iff in S. destruct S as [Fb N].
    assert (R : removeUnsyncCodes (b :: x00 :: addUnsyncCodes tl)
                = b :: removeUnsyncCodes (addUnsyncCodes tl))
      by (cbn [removeUnsyncCodes]; now rewrite Fb).
    rewrite R. cbn [length].
    destruct (IH (length tl) ltac:(lia) tl eq_refl) as [LE LT].
    split; [lia|]. intros H.
    assert (T : hasFF00 tl = true).
    { destruct tl as [|z tl'].
      - now rewrite andb_false_r in H.
      - cbn [needsStuffing] in N.
        destruct (is00 z) eqn:Z0.
        + apply is00_low in Z0. congruence.
        + now rewrite andb_false_r in H. }
    specialize (LT T). lia.
  - destruct (isFF b && match tl with [] => false | z :: _ => is00 z end)%bool
      eqn:P.
    + destruct tl as [|z tl']; [now rewrite andb_false_r in P|].
      pose proof P as P'. apply andb_true_iff in P'. destruct P' as [_ Z0].
      cbn [addUnsyncCodes]. rewrite (is00_not_FF z Z0). cbn [andb].
      assert (R : removeUnsyncCodes (b :: z :: addUnsyncCodes tl')
                  = b :: removeUnsyncCodes (addUnsyncCodes tl'))
        by (cbn [removeUnsyncCodes]; now rewrite P).
      rewrite R. cbn [length] in *.
      destruct (IH (length tl') ltac:(lia) tl' eq_refl) as [LE _].
      split; intros; lia.
    + rewrite remove_cons_keep.
      * cbn [length orb].
        destruct (IH (length tl) ltac:(lia) tl eq_refl) as [LE LT].
        split; [lia|]. intros H. specialize (LT H). lia.
      * destruct tl as [|z tl']; [now rewrite andb_false_r|].
        destruct (add_head z tl') as (rest & E). rewrite E. exact P.
Qed.

End UnsyncFacts.

(** The two functions as section 4.1 words them do not restore the
    input 0xFF 0x00: no code is inserted after an 0xFF whose successor
    is 0x00, and the decoder then drops that 0x00. *)
Lemma unsync_roundtrip_counterexample :
  Unsync.removeUnsyncCodes (Unsync.addUnsyncCodes [xff; x00]) = [xff]
  /\ Unsync.removeUnsyncCodes (Unsync.addUnsyncCodes [xff; x00]) <> [xff; x00].
Proof.
  split; [reflexivity|]. cbv. discriminate.
Qed.

(** As section 4.1 words the two functions,
    [removeUnsyncCodes (addUnsyncCodes s) = s] holds exactly for the
    byte sequences [s] in which no 0xFF is immediately followed by
    0x00; and for every [s] the output of [addUnsyncCodes] holds no
    0xFF followed by a byte of 0x80 or more. *)
Theorem unsync_roundtrip (s : list byte) :
  (Unsync.hasFF00 s = false ->
   Unsync.removeUnsyncCodes (Unsync.addUnsyncCodes s) = s)
  /\ (Unsync.removeUnsyncCodes (Unsync.addUnsyncCodes s) = s ->
      Unsync.hasFF00 s = false)
  /\ Unsync.hasSyncPair (Unsync.addUnsyncCodes s) = false.
Proof.
  split; [apply UnsyncFacts.remove_add|]. split.
  - intros E. destruct (Unsync.hasFF00 s) eqn:H; [|reflexivity].
    destruct (UnsyncFacts.remove_add_length s) as [_ LT].
    specialize (LT H). rewrite E in LT. lia.
  - apply UnsyncFacts.add_no_sync.
Qed.

Lemma unsync_roundtrip_witness :
  Unsync.hasFF00 [x41; xff; xe0; xff] = false
  /\ Unsync.removeUnsyncCodes (Unsync.addUnsyncCodes [x41; xff; xe0; xff])
     = [x41; xff; xe0; xff]
  /\ Unsync.hasSyncPair (Unsync.addUnsyncCodes [x41; xff; xe0; xff]) = false.
Proof.
  split; [reflexivity|]. split.
  - apply (proj1 (unsync_roundtrip [x41; xff; xe0; xff])). reflexivity.
  - apply (proj2 (proj2 (unsync_roundtrip [x41; xff; xe0; xff]))).
Defined.

(** ** Stream entry points of [id3.go] *)

Module Id3Facts.
Import Id3.

Lemma getCodec_ok (v : byte) :
  2 <= b2z v <= 4 -> exists c, getCodec v = Ret c.
Proof.
  intros H. unfold getCodec.
  assert (C : b2z v = 2 \/ b2z v = 3 \/ b2z v = 4) by lia.
  destruct C as [-> | [-> | ->]]; eexists; reflexivity.
Qed.

Lemma getCodec_panics (v : byte) :
  b2z v < 2 \/ 4 < b2z v -> getCodec v = Panic "invalid codec version".
Proof.
  intros H. unfold getCodec. pose proof (b2z_range v) as R.
  destruct (b2z v) as [|p|p]; try reflexivity.
  destruct p as [[p|p|]|[p|[p|p|]|]|]; try reflexivity; lia.
Qed.

End Id3Facts.

(** C9.  [Tag.ReadFrom] issues one [Read] for the ten header bytes and
    fails with the invalid tag error whenever that call delivers fewer
    than ten bytes, whatever the source could deliver afterwards: the
    tag is untouched, and the source is left as that single call left
    it. *)
Theorem ReadFrom_short_read {E : Id3.Env} (t : Id3.Tag) (r r' : Id3.Src)
    (got : list byte) (e : option error) :
  Id3.Read r 10 = (got, e, r') ->
  (length got < 10)%nat ->
  Id3.ReadFrom t r = Id3.Ret (t, r', (len got, Some ErrInvalidTag)).
Proof.
  intros HR HL. unfold Id3.ReadFrom. rewrite HR.
  assert (S : (len got <? 10) = true) by (unfold len; lia).
  rewrite S. reflexivity.
Qed.

Lemma ReadFrom_short_read_witness :
  let t := {| Id3.Version := x00; Id3.Flags := x00; Id3.Size := 0;
              Id3.Frames := [] |} in
  @Id3.ReadFrom Id3.chunkEnv t
    [[x49; x44; x33]; [x04; x00; x00; x00; x00; x00; x00]]
  = Id3.Ret (t, [[x04; x00; x00; x00; x00; x00; x00]],
             (3, Some ErrInvalidTag)).
Proof.
  intros t.
  apply (@ReadFrom_short_read Id3.chunkEnv t
           [[x49; x44; x33]; [x04; x00; x00; x00; x00; x00; x00]]
           [[x04; x00; x00; x00; x00; x00; x00]]
           [x49; x44; x33] None).
  - reflexivity.
  - simpl. lia.
Defined.

(** C10.  The panic of [getCodec] cannot be reached from
    [Tag.ReadFrom], which returns on every source (a version byte
    outside 2..4 is answered with the invalid version error before a
    codec is selected); [Tag.WriteTo] selects the codec without looking
    at the version and panics on every tag whose version is not 2, 3 or
    4. *)
Theorem getCodec_panic_reach {E : Id3.Env} :
  (forall (t : Id3.Tag) (r : Id3.Src),
     exists res, Id3.ReadFrom t r = Id3.Ret res)
  /\ (forall (t : Id3.Tag) (w : Id3.Snk),
        b2z (Id3.Version t) < 2 \/ 4 < b2z (Id3.Version t) ->
        Id3.WriteTo t w = Id3.Panic "invalid codec version").
Proof.
  split.
  - intros t r. unfold Id3.ReadFrom.
    destruct (Id3.Read r 10) as [[got err] r1].
    destruct ((len got <? 10) || Id3.isErr err)%bool; [eexists; reflexivity|].
    destruct (negb (Id3.bytes_eqb _ Id3.magic)); [eexists; reflexivity|].
    cbn [Id3.Version Id3.Flags Id3.Size Id3.Frames].
    set (v := nth 3 (firstn 10 (got ++ zeros 10)) x00).
    destruct (Z.ltb_spec (b2z v) 2); [eexists; reflexivity|].
    destruct (Z.ltb_spec 4 (b2z v)); [eexists; reflexivity|].
    cbn [orb].
    destruct (negb (b2z (nth 4 _ x00) =? 0)); [eexists; reflexivity|].
    destruct (SyncSafe.decodeSyncSafeUint32 _); [|eexists; reflexivity].
    destruct (Id3Facts.getCodec_ok v ltac:(lia)) as [c ->].
    destruct (Id3.decode c _ _) as [[[n e] t'] r'].
    eexists; reflexivity.
  - intros t w H. unfold Id3.WriteTo.
    now rewrite (Id3Facts.getCodec_panics _ H).
Qed.

Lemma getCodec_panic_reach_witness :
  @Id3.WriteTo Id3.chunkEnv
    {| Id3.Version := x05; Id3.Flags := x00; Id3.Size := 0;
       Id3.Frames := [] |} []
  = Id3.Panic "invalid codec version".
Proof.
  apply (proj2 (@getCodec_panic_reach Id3.chunkEnv)).
  right. vm_compute. reflexivity.
Defined.

(** ** The v2.4 codec: reader steps and the frame loop *)

Module V24Facts.
Import Reader V24.

Lemma ConsumeBytes_ok (n : nat) (r : reader) :
  err r = None -> (n <= length (buf r))%nat ->
  ConsumeBytes n r
  = (firstn n (buf r), {| buf := skipn n (buf r); src := src r; err := None |}).
Proof.
  intros He Hn. unfold ConsumeBytes. rewrite He.
  destruct (Nat.leb_spec n (length (buf r))); [reflexivity|lia].
Qed.

Lemma ConsumeBytes_app (b rest : list byte) (s : list byte) :
  ConsumeBytes (length b) {| buf := b ++ rest; src := s; err := None |}
  = (b, {| buf := rest; src := s; err := None |}).
Proof.
  rewrite ConsumeBytes_ok; cbn [buf src err].
  - now rewrite firstn_app, Nat.sub_diag, firstn_all, skipn_app,
      Nat.sub_diag, skipn_all, app_nil_r.
  - reflexivity.
  - rewrite length_app. lia.
Qed.

(** A consume that succeeds shortens the buffer by what it returns; one
    that fails leaves the buffer as it was. *)
Lemma ConsumeBytes_shape (n : nat) (r r' : reader) (b : list byte) :
  ConsumeBytes n r = (b, r') ->
  (err r' = None /\ err r = None
   /\ (length (buf r') + n = length (buf r))%nat)
  \/ (err r' <> None /\ buf r' = buf r).
Proof.
  unfold ConsumeBytes. destruct (err r) eqn:He.
  - intros [= <- <-]. right. rewrite He. split; [discriminate|reflexivity].
  - destruct (Nat.leb_spec n (length (buf r))); intros [= <- <-].
    + left. cbn. rewrite length_skipn. repeat split. lia.
    + right. cbn. split; [discriminate|reflexivity].
Qed.

Section WithEnv.
Context {E : Env}.

(** A frame that is decoded has taken its ten header bytes. *)
Lemma readFrameHeader_shrinks (t : Tag Payload_) (r r' : reader)
    (hs : FrameHeader * reader) :
  readFrameHeader t r = (OK hs, r') ->
  (length (buf r') + 10 <= length (buf r))%nat.
Proof.
  unfold readFrameHeader.
  destruct (ConsumeBytes 4 r) as [id r1] eqn:C1.
  destruct (err r1) eqn:E1; [discriminate|].
  destruct (isPadding id); [discriminate|].
  destruct (ConsumeBytes 6 r1) as [hd r2] eqn:C2.
  destruct (err r2) eqn:E2; [discriminate|].
  destruct (SyncSafe.decodeSyncSafeUint32 _) as [size|]; [|discriminate].
  destruct (size <? 1); [discriminate|].
  cbn [FSize].
  unfold ConsumeIntoNewReader.
  destruct (ConsumeBytes (Z.to_nat size) r2) as [b r3] eqn:C3.
  assert (L : (length (buf r3) + 10 <= length (buf r))%nat).
  { apply ConsumeBytes_shape in C1, C2, C3.
    destruct C1 as [(_ & _ & L1)|[N _]]; [|congruence].
    destruct C2 as [(_ & _ & L2)|[N _]]; [|congruence].
    destruct C3 as [(_ & _ & L3)|[_ B]]; [lia|]. rewrite B. lia. }
  destruct (err r3); intros [= _ <-]; exact L.
Qed.

Lemma decodeFrame_shrinks (t : Tag Payload_) (r r' : reader)
    (f : Frame Payload_) :
  decodeFrame t r = (OK f, r') -> (length (buf r') + 10 <= length (buf r))%nat.
Proof.
  unfold decodeFrame.
  destruct (readFrameHeader t r) as [[[h sub]|e] r1] eqn:H; [|discriminate].
  apply readFrameHeader_shrinks in H.
  destruct (decodeExtra _ _) as [[h' sub']|]; [|discriminate].
  destruct (ScanFrame _ _); [|discriminate].
  intros [= _ <-]. exact H.
Qed.

(** The frame loop needs no more fuel than there are bytes to decode. *)
Lemma decodeFrames_fuel (f1 f2 : nat) (t : Tag Payload_) (r : reader) :
  (Len r <= f1)%nat -> (Len r <= f2)%nat ->
  decodeFrames f1 t r = decodeFrames f2 t r.
Proof.
  revert f2 t r. induction f1 as [|f1 IH]; intros f2 t r H1 H2.
  - destruct f2 as [|f2]; [reflexivity|]. cbn [decodeFrames].
    destruct (Nat.ltb_spec 0 (Len r)); [lia|reflexivity].
  - destruct f2 as [|f2]; cbn [decodeFrames].
    + destruct (Nat.ltb_spec 0 (Len r)); [lia|reflexivity].
    + destruct (0 <? Len r)%nat; [|reflexivity].
      destruct (decodeFrame t r) as [[f|e] r'] eqn:D; [|reflexivity].
      apply decodeFrame_shrinks in D. unfold Len in *.
      apply IH; lia.
Qed.

Lemma decodeFrame_padding (t : Tag Payload_) (rest s : list byte) :
  decodeFrame t {| buf := x00 :: x00 :: x00 :: x00 :: rest; src := s;
                   err := None |}
  = (Err errPaddingEncountered, {| buf := rest; src := s; err := None |}).
Proof.
  unfold decodeFrame, readFrameHeader.
  change (x00 :: x00 :: x00 :: x00 :: rest)
    with ([x00; x00; x00; x00] ++ rest).
  pose proof (ConsumeBytes_app [x00; x00; x00; x00] rest s) as C.
  change (length [x00; x00; x00; x00]) with 4%nat in C.
  rewrite C. reflexivity.
Qed.

End WithEnv.

End V24Facts.

(** C7 (as stated, refuted).  A frame position whose first ID byte is
    zero while another ID byte is not is decoded as a frame: no padding
    is recorded.  And two zero bytes left at a frame position are not
    padding either, but an error. *)
Lemma first_zero_byte_counterexample :
  let r := {| Reader.buf := [x00; x41; x42; x43; x00; x00; x00; x01;
                             x00; x00; x61];
              Reader.src := []; Reader.err := None |} in
  let h := {| V24.FrameID := string_of_list_byte [x00; x41; x42; x43];
              V24.FrameType_ := V24.FrameTypeUnknown;
              V24.FSize := 1; V24.FFlags := 0; V24.GroupID := x00;
              V24.EncryptMethod := x00; V24.DataLength := 0 |} in
  @V24.decodeFrames Opaque.env (Reader.Len r) (@V24.freshTag Opaque.env) r
  = (@V24.appendFrame Opaque.env (@V24.freshTag Opaque.env)
       {| V24.Header := h; V24.Payload := [x61] |},
     {| Reader.buf := []; Reader.src := []; Reader.err := None |}, None)
  /\ V24.Padding
       (fst (fst (@V24.decodeFrames Opaque.env (Reader.Len r) (@V24.freshTag Opaque.env) r)))
     = 0
  /\ snd (@V24.decodeFrames Opaque.env 2 (@V24.freshTag Opaque.env)
            {| Reader.buf := [x00; x00]; Reader.src := [];
               Reader.err := None |})
     = Some ErrUnexpectedEOF.
Proof.
  vm_compute. repeat split.
Qed.

(** C7 (amended).  In the v2.4 frame loop, a frame position at which
    all four ID bytes are zero signals padding: the loop records the
    remaining buffer length plus 4 as the tag's Padding, consumes the
    rest of the buffer and ends without error; no frame is appended. *)
Theorem padding_ends_frame_loop {E : V24.Env} (t : V24.Tag V24.Payload_)
    (r : Reader.reader) (rest : list byte) (fuel : nat) :
  Reader.err r = None ->
  Reader.buf r = x00 :: x00 :: x00 :: x00 :: rest ->
  (Reader.Len r <= fuel)%nat ->
  V24.decodeFrames fuel t r
  = (V24.setPadding t (Z.of_nat (length rest) + 4),
     {| Reader.buf := []; Reader.src := Reader.src r; Reader.err := None |},
     None)
  /\ V24.Frames (fst (fst (V24.decodeFrames fuel t r))) = V24.Frames t.
Proof.
  intros He Hb Hf.
  assert (D : V24.decodeFrames fuel t r
              = (V24.setPadding t (Z.of_nat (length rest) + 4),
                 {| Reader.buf := []; Reader.src := Reader.src r;
                    Reader.err := None |}, None)).
  { destruct r as [b s e]. cbn in He, Hb. subst b e.
    destruct fuel as [|fuel]; [cbn in Hf; lia|].
    cbn [V24.decodeFrames].
    change (0 <? Reader.Len _)%nat with true. cbn iota.
    rewrite V24Facts.decodeFrame_padding.
    destruct (error_eq_dec errPaddingEncountered errPaddingEncountered);
      [reflexivity|congruence]. }
  rewrite D. split; reflexivity.
Qed.

Lemma padding_ends_frame_loop_witness :
  let r := {| Reader.buf := [x00; x00; x00; x00; x00; x00];
              Reader.src := []; Reader.err := None |} in
  @V24.decodeFrames Opaque.env 6 (@V24.freshTag Opaque.env) r
  = (@V24.setPadding Opaque.env (@V24.freshTag Opaque.env) 6,
     {| Reader.buf := []; Reader.src := []; Reader.err := None |}, None)
  /\ V24.Frames (fst (fst (@V24.decodeFrames Opaque.env 6 (@V24.freshTag Opaque.env) r)))
     = [].
Proof.
  intros r.
  apply (@padding_ends_frame_loop Opaque.env (@V24.freshTag Opaque.env) r [x00; x00] 6).
  - reflexivity.
  - reflexivity.
  - vm_compute. lia.
Defined.

(** C6 (the code at the failing input).  A frame with the
    Unsynchronized flag in a tag without Unsync, payload 0xFF 0xE0:
    [encodeFrame] passes the payload region through
    [removeUnsyncCodes], so the pair goes out unstuffed, where
    [addUnsyncCodes] would make it 0xFF 0x00 0xE0; and a payload
    0xFF 0x00 0x41 goes out as 0xFF 0x41, one byte short. *)
Lemma encodeFrame_unsync_evaluated :
  let h := {| V24.FrameID := "XXXX"; V24.FrameType_ := V24.FrameTypeUnknown;
              V24.FSize := 0; V24.FFlags := V24.FrameFlagUnsynchronized;
              V24.GroupID := x00; V24.EncryptMethod := x00;
              V24.DataLength := 0 |} in
  let t := @V24.freshTag Opaque.env in
  @V24.encodeFrame Opaque.env t
    {| V24.Header := h; V24.Payload := [xff; xe0] |} Writer.empty
  = ({| Writer.buf := [x58; x58; x58; x58; x00; x00; x00; x02; x00; x02;
                       xff; xe0];
        Writer.sink := []; Writer.err := None |}, None)
  /\ Unsync.addUnsyncCodes [xff; xe0] = [xff; x00; xe0]
  /\ @V24.encodeFrame Opaque.env t
       {| V24.Header := h; V24.Payload := [xff; x00; x41] |} Writer.empty
     = ({| Writer.buf := [x58; x58; x58; x58; x00; x00; x00; x02; x00; x02;
                          xff; x41];
           Writer.sink := []; Writer.err := None |}, None).
Proof.
  vm_compute. repeat split.
Qed.

(** C5 (as stated, refuted).  A stream whose second frame has size
    zero: decoding fails with the invalid frame header error, and the
    tag handed in comes back holding the flags and the size of the
    header and the first frame. *)
Lemma partial_tag_counterexample :
  let stream := [x49; x44; x33; x04; x00; x20; x00; x00; x00; x15;
                 x58; x58; x58; x58; x00; x00; x00; x01; x00; x00; x61;
                 x59; x59; x59; x59; x00; x00; x00; x00; x00; x00] in
  let h := {| V24.FrameID := "XXXX"; V24.FrameType_ := V24.FrameTypeUnknown;
              V24.FSize := 1; V24.FFlags := 0; V24.GroupID := x00;
              V24.EncryptMethod := x00; V24.DataLength := 0 |} in
  let t' := fst (fst (@V24.decodeStream Opaque.env stream)) in
  snd (@V24.decodeStream Opaque.env stream) = Some ErrInvalidFrameHeader
  /\ V24.Flags t' = V24.TagFlagExperimental
  /\ V24.Size t' = 21
  /\ V24.Frames t' = [{| V24.Header := h; V24.Payload := [x61] |}]
  /\ t' <> @V24.freshTag Opaque.env.
Proof.
  vm_compute. repeat split. discriminate.
Qed.

(** ** The v2.4 codec: what a failed decode leaves in the tag *)

Module V24Partial.
Import Reader V24 V24Layout.

Ltac break_match :=
  repeat match goal with
    | |- context [match ?x with _ => _ end] => destruct x eqn:?
    | |- context [if ?x then _ else _] => destruct x eqn:?
    end.

Ltac break_hyps :=
  repeat match goal with
    | H : context [match ?x with _ => _ end] |- _ => destruct x eqn:?
    | H : context [if ?x then _ else _] |- _ => destruct x eqn:?
    | H : (_, _) = (_, _) |- _ => inversion H; clear H
    end.

Section WithEnv.
Context {E : Env}.

Lemma keeps_refl (t : Tag Payload_) : keeps t t.
Proof. repeat split. Qed.

Lemma keeps_trans (a b c : Tag Payload_) : keeps a b -> keeps b c -> keeps a c.
Proof. unfold keeps. intros (A1 & A2 & A3) (B1 & B2 & B3). repeat split; congruence. Qed.

Lemma decodeHeader_keeps (t t' : Tag Payload_) (r r' : reader)
    (e : option error) :
  decodeHeader t r = (t', r', e) -> keeps t t'.
Proof.
  unfold decodeHeader. break_match; intros [= <- <- <-]; repeat split.
Qed.

Lemma decodeExtended_keeps (t t' : Tag Payload_) (r r' : reader)
    (e : option error) :
  decodeExtended t r = (t', r', e) -> keeps t t'.
Proof.
  unfold decodeExtended.
  break_match; intros [= <- <- <-]; break_hyps; subst;
    repeat split.
Qed.

(** The extended header leaves the size of the tag header alone. *)
Lemma decodeExtended_size (t t' : Tag Payload_) (r r' : reader)
    (e : option error) :
  decodeExtended t r = (t', r', e) -> Size t' = Size t.
Proof.
  unfold decodeExtended.
  break_match; intros [= <- <- <-]; break_hyps; subst; reflexivity.
Qed.

(** The frame loop appends frames and, when it fails, has assigned
    nothing else. *)
Lemma decodeFrames_extends (fuel : nat) (t t' : Tag Payload_)
    (r r' : reader) (e : option error) :
  decodeFrames fuel t r = (t', r', e) ->
  Version t' = Version t
  /\ (exists fs, Frames t' = Frames t ++ fs)
  /\ (e <> None -> Padding t' = Padding t).
Proof.
  revert t r. induction fuel as [|fuel IH]; intros t r; cbn [decodeFrames].
  - intros [= <- <- <-]. repeat split. exists []. now rewrite app_nil_r.
  - destruct (0 <? Len r)%nat.
    2:{ intros [= <- <- <-]. repeat split. exists []. now rewrite app_nil_r. }
    destruct (decodeFrame t r) as [[f|e0] r1].
    + intros H. apply IH in H. destruct H as (V & (fs & F) & P).
      cbn in V, F, P. repeat split; [exact V | | exact P].
      exists (f :: fs). rewrite F, <- app_assoc. reflexivity.
    + destruct (error_eq_dec e0 errPaddingEncountered).
      * destruct (ConsumeAll r1). intros [= <- <- <-].
        repeat split; [|congruence]. exists []. now rewrite app_nil_r.
      * intros [= <- <- <-]. repeat split. exists []. now rewrite app_nil_r.
Qed.

Lemma withFrames_nil (t : Tag Payload_) : withFrames t [] = t.
Proof. destruct t. unfold withFrames. cbn. now rewrite app_nil_r. Qed.

Lemma withFrames_cons (t : Tag Payload_) (f : Frame Payload_)
    (fs : list (Frame Payload_)) :
  withFrames (appendFrame t f) fs = withFrames t (f :: fs).
Proof.
  unfold withFrames, appendFrame. cbn. now rewrite <- app_assoc.
Qed.

(** A frame loop that fails has decoded some frames, one after the
    other, and has failed on the next: the tag it returns is the tag it
    was given with these frames appended, which is also what the loop
    yields when it is stopped after as many iterations, and the error
    is the one [decodeFrame] gives where these frames end. *)
Lemma decodeFrames_failure (fuel : nat) (t t' : Tag Payload_)
    (r r' : reader) (e : error) :
  decodeFrames fuel t r = (t', r', Some e) ->
  exists (fs : list (Frame Payload_)) (rk : reader),
    t' = withFrames t fs
    /\ decodeFrames (length fs) t r = (t', rk, None)
    /\ (0 < Len rk)%nat
    /\ decodeFrame t' rk = (Err e, r')
    /\ e <> errPaddingEncountered.
Proof.
  revert t r. induction fuel as [|fuel IH]; intros t r; cbn [decodeFrames].
  - discriminate.
  - destruct (Nat.ltb_spec 0 (Len r)) as [L|L]; [|discriminate].
    destruct (decodeFrame t r) as [[f|e0] r1] eqn:D.
    + intros H. destruct (IH _ _ H) as (fs & rk & T & F & Lk & Dk & N).
      exists (f :: fs), rk. rewrite <- withFrames_cons.
      repeat split; auto.
      cbn [length decodeFrames].
      destruct (Nat.ltb_spec 0 (Len r)) as [_|L']; [|lia].
      now rewrite D.
    + destruct (error_eq_dec e0 errPaddingEncountered) as [->|N].
      * destruct (ConsumeAll r1). discriminate.
      * intros [= <- <- <-]. exists [], r. rewrite withFrames_nil.
        repeat split; auto.
Qed.

End WithEnv.

End V24Partial.

(** C5 (amended).  When decoding fails, [Decode] returns the error of
    the failing step and the caller's tag stays as populated up to
    that step.  Its version and padding are untouched.  If the tag
    header fails, the tag is as [decodeHeader] left it; if the
    extended header fails, it is as [decodeExtended] left it, with the
    size read from the tag header; if the CRC fails, it holds all that
    both headers assigned; and if a frame fails, it is the tag as the
    two headers left it (flags, size, CRC and restrictions) with the
    frames decoded before the failure appended, in their order: the
    frame loop stopped after these frames yields that very tag, and
    the error is the one [decodeFrame] gives on what follows them. *)
Theorem decode_failure_leaves_prefix {E : V24.Env}
    (t t' : V24.Tag V24.Payload_) (r r' : Reader.reader) (e : error) :
  V24.Decode t r = (t', r', Some e) ->
  V24.Version t' = V24.Version t
  /\ V24.Padding t' = V24.Padding t
  /\ ((V24.decodeHeader t r = (t', r', Some e)
       /\ V24.Frames t' = V24.Frames t)
      \/ exists (t0 : V24.Tag V24.Payload_) (r0 : Reader.reader),
           V24.decodeHeader t r = (t0, r0, None)
           /\ V24.Size t' = V24.Size t0
           /\ ((V24.decodeExtended t0 r0 = (t', r', Some e)
                /\ V24.Frames t' = V24.Frames t)
               \/ exists (t1 : V24.Tag V24.Payload_) (r1 : Reader.reader),
                    V24.decodeExtended t0 r0 = (t1, r1, None)
                    /\ ((V24.validateCRC t1 r1 = Some e
                         /\ t' = t1 /\ r' = r1
                         /\ V24.Frames t' = V24.Frames t)
                        \/ (V24.validateCRC t1 r1 = None
                            /\ exists (fs : list (V24.Frame V24.Payload_))
                                      (rk : Reader.reader),
                                 t' = V24Layout.withFrames t1 fs
                                 /\ V24.Frames t' = V24.Frames t ++ fs
                                 /\ V24.decodeFrames (length fs) t1 r1
                                    = (t', rk, None)
                                 /\ (0 < Reader.Len rk)%nat
                                 /\ V24.decodeFrame t' rk = (Err e, r')
                                 /\ e <> errPaddingEncountered)))).
Proof.
  unfold V24.Decode.
  destruct (V24.decodeHeader t r) as [[t0 r0] e0] eqn:H0.
  pose proof (V24Partial.decodeHeader_keeps _ _ _ _ _ H0) as (V0 & P0 & F0).
  destruct e0 as [e0|].
  { intros [= <- <- <-]. repeat split; auto. }
  destruct (V24.decodeExtended t0 r0) as [[t1 r1] e1] eqn:H1.
  pose proof (V24Partial.decodeExtended_keeps _ _ _ _ _ H1) as (V1 & P1 & F1).
  pose proof (V24Partial.decodeExtended_size _ _ _ _ _ H1) as S1.
  destruct e1 as [e1|].
  { intros [= <- <- <-]. repeat split; try congruence.
    right. exists t0, r0. repeat split; auto. left. split; congruence. }
  destruct (V24.validateCRC t1 r1) as [e2|] eqn:C.
  { intros [= <- <- <-]. repeat split; try congruence.
    right. exists t0, r0. repeat split; auto.
    right. exists t1, r1. split; [exact H1|].
    left. repeat split; congruence. }
  intros H.
  pose proof (V24Partial.decodeFrames_extends _ _ _ _ _ _ H) as (V & _ & P).
  destruct (V24Partial.decodeFrames_failure _ _ _ _ _ _ H)
    as (fs & rk & T & F & Lk & Dk & N).
  repeat split; try congruence.
  - rewrite P by discriminate. congruence.
  - right. exists t0, r0. repeat split; auto.
    + rewrite T. cbn. congruence.
    + right. exists t1, r1. split; [exact H1|]. right. split; [exact C|].
      exists fs, rk. repeat split; auto.
      rewrite T. cbn. congruence.
Qed.

Lemma decode_failure_leaves_prefix_witness :
  let stream := [x49; x44; x33; x04; x00; x20; x00; x00; x00; x15;
                 x58; x58; x58; x58; x00; x00; x00; x01; x00; x00; x61;
                 x59; x59; x59; x59; x00; x00; x00; x00; x00; x00] in
  let t := @V24.freshTag Opaque.env in
  let r := @V24.readerOn stream in
  let t' := fst (fst (@V24.decodeStream Opaque.env stream)) in
  let r' := snd (fst (@V24.decodeStream Opaque.env stream)) in
  let e := ErrInvalidFrameHeader in
  V24.Version t' = V24.Version t
  /\ V24.Padding t' = V24.Padding t
  /\ ((@V24.decodeHeader Opaque.env t r = (t', r', Some e)
       /\ V24.Frames t' = V24.Frames t)
      \/ exists (t0 : V24.Tag V24.Payload_) (r0 : Reader.reader),
           @V24.decodeHeader Opaque.env t r = (t0, r0, None)
           /\ V24.Size t' = V24.Size t0
           /\ ((@V24.decodeExtended Opaque.env t0 r0 = (t', r', Some e)
                /\ V24.Frames t' = V24.Frames t)
               \/ exists (t1 : V24.Tag V24.Payload_) (r1 : Reader.reader),
                    @V24.decodeExtended Opaque.env t0 r0 = (t1, r1, None)
                    /\ ((@V24.validateCRC Opaque.env t1 r1 = Some e
                         /\ t' = t1 /\ r' = r1
                         /\ V24.Frames t' = V24.Frames t)
                        \/ (@V24.validateCRC Opaque.env t1 r1 = None
                            /\ exists (fs : list (V24.Frame V24.Payload_))
                                      (rk : Reader.reader),
                                 t' = @V24Layout.withFrames Opaque.env t1 fs
                                 /\ V24.Frames t' = V24.Frames t ++ fs
                                 /\ @V24.decodeFrames Opaque.env
                                      (length fs) t1 r1
                                    = (t', rk, None)
                                 /\ (0 < Reader.Len rk)%nat
                                 /\ @V24.decodeFrame Opaque.env t' rk
                                    = (Err e, r')
                                 /\ e <> errPaddingEncountered)))).
Proof.
  intros stream t r t' r' e.
  apply (@decode_failure_leaves_prefix Opaque.env t t' r r' e).
  vm_compute. reflexivity.
Defined.

(** ** Staging buffers: windows and back-patching *)

Module BufFacts.

Lemma patch_length {A} (l : list A) (off : nat) (src : list A) :
  (off + length src <= length l)%nat ->
  length (patch l off src) = length l.
Proof.
  intros H. unfold patch.
  rewrite !length_app, length_firstn, length_firstn, length_skipn. lia.
Qed.

Lemma patch_fits {A} (l : list A) (off : nat) (src : list A) :
  (off + length src <= length l)%nat ->
  patch l off src = firstn off l ++ src ++ skipn (off + length src) l.
Proof.
  intros H. unfold patch.
  rewrite (@firstn_all2 _ (length l - off) src); [reflexivity|lia].
Qed.

Lemma patch_beyond {A} (l : list A) (off : nat) (src : list A) :
  (length l <= off)%nat -> patch l off src = l.
Proof.
  intros H. unfold patch.
  rewrite (@firstn_all2 _ off l) by lia.
  replace (length l - off)%nat with 0%nat by lia.
  rewrite skipn_all2 by lia. cbn. now rewrite app_nil_r.
Qed.

(** Patching behind a prefix leaves the prefix alone. *)
Lemma patch_app_r {A} (p x : list A) (k : nat) (src : list A) :
  patch (p ++ x) (length p + k) src = p ++ patch x k src.
Proof.
  unfold patch.
  rewrite firstn_app, (@firstn_all2 _ (length p + k) p) by lia.
  replace (length p + k - length p)%nat with k by lia.
  rewrite length_app.
  replace (length p + length x - (length p + k))%nat
    with (length x - k)%nat by lia.
  rewrite skipn_app, (@skipn_all2 _ (length p + k + length src) p) by lia.
  replace (length p + k + length src - length p)%nat
    with (k + length src)%nat by lia.
  cbn. now rewrite <- !app_assoc.
Qed.

(** Patching inside a prefix leaves what follows alone. *)
Lemma patch_app_l {A} (p x : list A) (off : nat) (src : list A) :
  (off + length src <= length p)%nat ->
  patch (p ++ x) off src = patch p off src ++ x.
Proof.
  intros H. rewrite !patch_fits by (rewrite ?length_app; lia).
  rewrite firstn_app, skipn_app.
  replace (off - length p)%nat with 0%nat by lia.
  replace (off + length src - length p)%nat with 0%nat by lia.
  cbn. now rewrite app_nil_r, <- !app_assoc.
Qed.

Lemma slice_patch {A} (l : list A) (off : nat) (src : list A) :
  (off + length src <= length l)%nat ->
  slice (patch l off src) off (length src) = src.
Proof.
  intros H. unfold slice. rewrite patch_fits by exact H.
  rewrite skipn_app, length_firstn.
  replace (Nat.min off (length l)) with off by lia.
  rewrite Nat.sub_diag. cbn [skipn].
  rewrite (@skipn_all2 _ off (firstn off l)) by (rewrite length_firstn; lia).
  cbn [app]. rewrite firstn_app, Nat.sub_diag, firstn_all. cbn.
  now rewrite app_nil_r.
Qed.

Lemma skipn_patch {A} (l : list A) (off k : nat) (src : list A) :
  (off + length src <= k)%nat -> (k <= length l)%nat ->
  skipn k (patch l off src) = skipn k l.
Proof.
  intros H1 H2. rewrite patch_fits by lia.
  rewrite !skipn_app.
  rewrite (@skipn_all2 _ k (firstn off l)) by (rewrite length_firstn; lia).
  rewrite length_firstn.
  replace (Nat.min off (length l)) with off by lia.
  rewrite (@skipn_all2 _ (k - off) src) by lia.
  cbn [app]. rewrite skipn_skipn. f_equal. lia.
Qed.

Lemma firstn_patch {A} (l : list A) (off k : nat) (src : list A) :
  (k <= off)%nat -> firstn k (patch l off src) = firstn k l.
Proof.
  intros H. unfold patch.
  destruct (Nat.le_gt_cases off (length l)) as [L|L].
  - rewrite firstn_app, length_firstn.
    replace (k - Nat.min off (length l))%nat with 0%nat by lia.
    cbn. rewrite app_nil_r, firstn_firstn. f_equal. lia.
  - rewrite (@firstn_all2 _ off l) by lia.
    replace (length l - off)%nat with 0%nat by lia.
    rewrite skipn_all2 by lia. cbn. now rewrite app_nil_r.
Qed.

Lemma slice_firstn {A} (l : list A) (o n k : nat) :
  (o + n <= k)%nat -> slice (firstn k l) o n = slice l o n.
Proof.
  intros H. unfold slice. revert o n k H.
  induction l as [|a l IH]; intros o n k H.
  - now rewrite firstn_nil.
  - destruct k as [|k].
    + replace o with 0%nat by lia. replace n with 0%nat by lia. reflexivity.
    + destruct o as [|o]; cbn [firstn skipn].
      * destruct n as [|n]; [reflexivity|]. cbn [firstn]. f_equal.
        apply (IH 0%nat n k). lia.
      * apply IH. lia.
Qed.

(** A window that lies before the patch, or after it, is not touched. *)
Lemma slice_patch_before {A} (l : list A) (off o n : nat) (src : list A) :
  (o + n <= off)%nat ->
  slice (patch l off src) o n = slice l o n.
Proof.
  intros H.
  rewrite <- (slice_firstn (patch l off src) o n off H).
  rewrite firstn_patch by lia. now apply slice_firstn.
Qed.

Lemma slice_patch_after {A} (l : list A) (off o n : nat) (src : list A) :
  (off + length src <= o)%nat -> (o <= length l)%nat ->
  slice (patch l off src) o n = slice l o n.
Proof.
  intros H1 H2. unfold slice. now rewrite skipn_patch.
Qed.

End BufFacts.

(** ** The v2.4 codec: the staging buffer only grows *)

Module WriterFacts.
Import Writer V24Layout.

Lemma ext_refl (w : writer) : extends (buf w) w.
Proof. exists []. now rewrite app_nil_r. Qed.

Lemma ext_len (p : list byte) (w : writer) :
  extends p w -> (length p <= Len w)%nat.
Proof. intros [x H]. unfold Len. rewrite H, length_app. lia. Qed.

Lemma ext_StoreBytes (p b : list byte) (w : writer) :
  extends p w -> extends p (StoreBytes b w).
Proof.
  intros [x H]. unfold StoreBytes. destruct (err w).
  - now exists x.
  - exists (x ++ b). cbn. now rewrite H, app_assoc.
Qed.

Lemma ext_StoreByte (p : list byte) (b : byte) (w : writer) :
  extends p w -> extends p (StoreByte b w).
Proof. apply ext_StoreBytes. Qed.

Lemma ext_setErr (p : list byte) (e : error) (w : writer) :
  extends p w -> extends p (setErr e w).
Proof. intros [x H]. now exists x. Qed.

Lemma ext_patch (p : list byte) (w : writer) (off : nat) (b : list byte) :
  extends p w -> (length p <= off)%nat ->
  extends p (setBuf (patch (buf w) off b) w).
Proof.
  intros [x H] L. exists (patch x (off - length p) b). cbn. rewrite H.
  replace off with (length p + (off - length p))%nat at 1 by lia.
  apply BufFacts.patch_app_r.
Qed.

Lemma ext_putSyncSafe (p : list byte) (w : writer) (off n : nat) (v : Z) :
  extends p w -> (length p <= off)%nat ->
  extends p (putSyncSafe off n v w).
Proof.
  intros H L. unfold putSyncSafe, SyncSafe.putSyncSafe.
  destruct (SyncSafe.encodeSyncSafeUint32 n v).
  - now apply ext_patch.
  - destruct H as [x H]. now exists x.
Qed.

Lemma ext_copyTo (p : list byte) (w : writer) (off n : nat) (b : list byte) :
  extends p w -> (length p <= off)%nat ->
  extends p (copyTo off n b w).
Proof. intros H L. unfold copyTo. now apply ext_patch. Qed.

Lemma ext_consume (p : list byte) (w : writer) (off : nat) :
  extends p w -> (length p <= off)%nat ->
  extends p (snd (ConsumeBytesFromOffset off w)).
Proof.
  intros [x H] L. exists (firstn (off - length p) x). cbn. rewrite H.
  rewrite firstn_app, (@firstn_all2 _ off p) by lia. reflexivity.
Qed.

Create HintDb ext.

#[export] Hint Resolve ext_refl ext_len ext_StoreBytes ext_StoreByte
  ext_setErr ext_putSyncSafe ext_copyTo ext_consume : ext.

End WriterFacts.

Module V24Staging.
Import Writer V24 V24Layout WriterFacts.

Section WithEnv.
Context {E : Env}.

Lemma encodeExtra_extends (p : list byte) (h : FrameHeader) (w : writer) :
  extends p w ->
  extends p (fst (encodeExtra h w))
  /\ (snd (encodeExtra h w) = -1
      \/ exists w1, extends p w1
                    /\ snd (encodeExtra h w) = Z.of_nat (Len w1)).
Proof.
  intros H. unfold encodeExtra.
  destruct (FFlags h =? 0); [cbn; auto|].
  destruct (has (FFlags h) FrameFlagHasGroupID);
    destruct (has (FFlags h) FrameFlagEncrypted);
    destruct (has (FFlags h) FrameFlagHasDataLength);
    destruct (outOfRange (GroupID h));
    destruct (outOfRange (EncryptMethod h)); cbn [fst snd];
    (split; [auto 10 with ext | first [left; reflexivity
       | right; eexists; split; [|reflexivity]; auto 10 with ext]]).
Qed.

Lemma encodeFrame_extends (p : list byte) (t : Tag Payload_)
    (f : Frame Payload_) (w : writer) :
  extends p w -> extends p (fst (encodeFrame t f w)).
Proof.
  intros H. unfold encodeFrame.
  set (w2 := StoreBytes [x00; x00; x00; x00]
               (StoreBytes [x00; x00; x00; x00] w)).
  set (h := if has (FFlags (HeaderOf f)) FrameFlagCompressed then _ else _).
  set (w4 := StoreByte _ (StoreByte _ w2)).
  assert (H4 : extends p w4) by (subst w4 w2; auto 10 with ext).
  destruct (encodeExtra_extends p h w4 H4) as [HX HD].
  destruct (encodeExtra h w4) as [w5 dlo]. cbn [fst snd] in HX, HD.
  destruct (if FFlags h =? 0 then None else err w5); [exact HX|].
  destruct (OutputFrame f) as [[payload frameID]|]; [|exact HX].
  cbn [fst].
  set (w6 := StoreBytes payload w5).
  assert (H6 : extends p w6) by (subst w6; auto with ext).
  set (w7 := if -1 <? dlo then _ else w6).
  assert (H7 : extends p w7).
  { subst w7. destruct HD as [-> | (w1 & H1 & ->)].
    - exact H6.
    - destruct (-1 <? Z.of_nat (Len w1)); [|exact H6].
      rewrite Nat2Z.id. auto with ext. }
  set (w8 := if (_ && _)%bool then _ else w7).
  assert (H8 : extends p w8).
  { subst w8. destruct (_ && _)%bool; [|exact H7].
    pose proof (ext_consume p w7 (Len w4) H7 (ext_len _ _ H4)) as C.
    destruct (ConsumeBytesFromOffset (Len w4) w7) as [b w'].
    cbn [snd] in C. auto with ext. }
  apply ext_putSyncSafe; [apply ext_copyTo; [exact H8|]|].
  - apply ext_len, H.
  - apply ext_len. auto with ext.
Qed.

Lemma encodeFrames_extends (p : list byte) (t : Tag Payload_)
    (fs : list (Frame Payload_)) (w : writer) :
  extends p w -> extends p (fst (encodeFrames t fs w)).
Proof.
  revert w. induction fs as [|f fs IH]; intros w H; cbn [encodeFrames].
  - exact H.
  - pose proof (encodeFrame_extends p t f w H) as H1.
    destruct (encodeFrame t f w) as [w1 [e|]]; cbn [fst] in *; auto.
Qed.

(** A frame that is encoded without error leaves no error behind. *)
Lemma encodeFrame_ok_err (t : Tag Payload_) (f : Frame Payload_)
    (w w' : writer) :
  encodeFrame t f w = (w', None) -> err w' = None.
Proof.
  unfold encodeFrame.
  destruct (encodeExtra _ _) as [w5 dlo].
  destruct (if _ =? 0 then None else err w5); [discriminate|].
  destruct (OutputFrame f) as [[payload frameID]|]; [|discriminate].
  intros [= <- H]. exact H.
Qed.

Lemma encodeFrames_ok_err (t : Tag Payload_) (fs : list (Frame Payload_))
    (w w' : writer) :
  err w = None -> encodeFrames t fs w = (w', None) -> err w' = None.
Proof.
  revert w. induction fs as [|f fs IH]; intros w He; cbn [encodeFrames].
  - now intros [= <-].
  - destruct (encodeFrame t f w) as [w1 [e|]] eqn:F; [discriminate|].
    apply IH. now apply encodeFrame_ok_err in F.
Qed.

End WithEnv.

End V24Staging.

(** ** The v2.4 codec: the CRC field *)

Module V24Crc.
Import Writer V24 V24Layout WriterFacts V24Staging.

Lemma has_lor_r (x a b : Z) : has x (Z.lor a b) = (has x a || has x b)%bool.
Proof.
  unfold has. rewrite Z.land_lor_distr_r.
  destruct (Z.eqb_spec (Z.land x a) 0) as [A|A];
    destruct (Z.eqb_spec (Z.land x b) 0) as [B|B]; cbn;
    destruct (Z.eqb_spec (Z.lor (Z.land x a) (Z.land x b)) 0) as [C|C];
    try reflexivity; try (apply Z.lor_eq_0_iff in C; tauto).
  exfalso. apply C. apply Z.lor_eq_0_iff. tauto.
Qed.

Lemma has_lor_l (x y a : Z) : has (Z.lor x y) a = (has x a || has y a)%bool.
Proof.
  unfold has. rewrite Z.land_lor_distr_l.
  destruct (Z.eqb_spec (Z.land x a) 0) as [A|A];
    destruct (Z.eqb_spec (Z.land y a) 0) as [B|B]; cbn;
    destruct (Z.eqb_spec (Z.lor (Z.land x a) (Z.land y a)) 0) as [C|C];
    try reflexivity; try (apply Z.lor_eq_0_iff in C; tauto).
  exfalso. apply C. apply Z.lor_eq_0_iff. tauto.
Qed.

Lemma StoreBytes_ok (b : list byte) (w : writer) :
  err w = None ->
  StoreBytes b w = {| buf := buf w ++ b; sink := sink w; err := None |}.
Proof. intros H. unfold StoreBytes. now rewrite H. Qed.

Lemma encode_length (n : nat) (v : Z) (bs : list byte) :
  SyncSafe.encodeSyncSafeUint32 n v = OK bs -> length bs = n.
Proof.
  unfold SyncSafe.encodeSyncSafeUint32.
  destruct (_ <=? _); [discriminate|]. intros [= <-].
  now rewrite length_map, length_rev, length_seq.
Qed.

Lemma putSyncSafe_err (off n : nat) (v : Z) (w : writer) :
  err (putSyncSafe off n v w) = err w.
Proof. reflexivity. Qed.

Lemma putSyncSafe_sink (off n : nat) (v : Z) (w : writer) :
  sink (putSyncSafe off n v w) = sink w.
Proof. reflexivity. Qed.

Lemma putSyncSafe_len (off n : nat) (v : Z) (w : writer) :
  (off + n <= Len w)%nat -> Len (putSyncSafe off n v w) = Len w.
Proof.
  intros H. unfold putSyncSafe, SyncSafe.putSyncSafe, Len.
  destruct (SyncSafe.encodeSyncSafeUint32 n v) as [bs|] eqn:En; [|reflexivity].
  cbn. apply BufFacts.patch_length. apply encode_length in En.
  unfold Len in H. lia.
Qed.

Section WithEnv.
Context {E : Env}.

(** The extended header of a tag with a CRC: the five bytes of the CRC
    field lie inside it. *)
Lemma encodeExtended_crc (t : Tag Payload_) (w : writer) :
  err w = None ->
  has (Flags t) TagFlagExtended = true ->
  has (Flags t) TagFlagHasCRC = true ->
  err (fst (encodeExtended t w)) = None
  /\ sink (fst (encodeExtended t w)) = sink w
  /\ extends (buf w) (fst (encodeExtended t w))
  /\ 0 <= snd (encodeExtended t w)
  /\ (Len w <= Z.to_nat (snd (encodeExtended t w)))%nat
  /\ (Z.to_nat (snd (encodeExtended t w)) + 5
      <= Len (fst (encodeExtended t w)))%nat.
Proof.
  intros He Hx Hc. unfold encodeExtended. rewrite Hx, Hc. cbn [negb].
  destruct w as [b s e]. cbn [err] in He. subst e.
  unfold StoreByte, StoreBytes.
  destruct (has (Flags t) TagFlagIsUpdate);
    destruct (has (Flags t) TagFlagHasRestrictions);
    cbn [err buf sink fst snd];
    rewrite putSyncSafe_err, putSyncSafe_sink;
    (split; [reflexivity|]); (split; [reflexivity|]);
    (split; [apply ext_putSyncSafe;
             [eexists; cbn [buf]; rewrite <- ?app_assoc; reflexivity
             | unfold Len; cbn [buf]; lia]|]);
    rewrite putSyncSafe_len
      by (unfold Len; cbn [buf]; rewrite !length_app; cbn [length]; lia);
    unfold Len; cbn [buf]; rewrite ?length_app; cbn [length]; lia.
Qed.

End WithEnv.

End V24Crc.

Module V24CrcStaged.
Import Writer V24 V24Layout WriterFacts V24Staging V24Crc.

Section WithEnv.
Context {E : Env}.

Lemma uint32_range (z : Z) : 0 <= uint32 z < 2 ^ 32.
Proof. unfold uint32. apply Z.mod_pos_bound. reflexivity. Qed.

(** What is staged for a tag with a CRC. *)
Lemma encodeStaged_crc (t t1 : Tag Payload_) (w w1 : writer)
    (crcOff : Z) (fOff : nat) :
  err w = None ->
  has (Flags t) TagFlagHasCRC = true ->
  encodeStaged t w = (t1, w1, crcOff, fOff, None) ->
  CRC t1 = uint32 (ChecksumIEEE (skipn fOff (buf w1)))
  /\ SyncSafe.decodeSyncSafeUint32 (slice (buf w1) (Z.to_nat crcOff) 5)
     = OK (CRC t1)
  /\ (Len w + 10 <= Z.to_nat crcOff)%nat
  /\ (Z.to_nat crcOff + 5 <= fOff)%nat
  /\ (fOff <= Len w1)%nat
  /\ err w1 = None /\ sink w1 = sink w
  /\ has (Flags t1) TagFlagUnsync = has (Flags t) TagFlagUnsync.
Proof.
  intros He Hc. unfold encodeStaged.
  assert (Hany : has (Flags t)
                   (Z.lor (Z.lor TagFlagHasCRC TagFlagHasRestrictions)
                          TagFlagIsUpdate) = true)
    by (rewrite !has_lor_r, Hc; reflexivity).
  rewrite Hany.
  set (t0 := setFlags t (Z.lor (Flags t) TagFlagExtended)).
  assert (Hx0 : has (Flags t0) TagFlagExtended = true)
    by (cbn; rewrite has_lor_l; apply orb_true_r).
  assert (Hc0 : has (Flags t0) TagFlagHasCRC = true)
    by (cbn; rewrite has_lor_l, Hc; reflexivity).
  assert (Hu0 : has (Flags t0) TagFlagUnsync = has (Flags t) TagFlagUnsync)
    by (cbn; rewrite has_lor_l; apply orb_false_r).
  set (hdr := [x49; x44; x33; x04; x00; _; x00; x00; x00; x00]).
  set (w0 := StoreBytes hdr w).
  assert (He0 : err w0 = None) by (subst w0; now rewrite StoreBytes_ok).
  assert (Hl0 : Len w0 = (Len w + 10)%nat).
  { subst w0. rewrite StoreBytes_ok by exact He. unfold Len. cbn [buf].
    rewrite length_app. reflexivity. }
  assert (Hs0 : sink w0 = sink w)
    by (subst w0; now rewrite StoreBytes_ok).
  destruct (encodeExtended_crc t0 w0 He0 Hx0 Hc0)
    as (Hxe & Hxs & _ & Hx1 & Hx2 & Hx3).
  destruct (encodeExtended t0 w0) as [wx co]. cbn [fst snd] in *.
  pose proof (encodeFrames_extends (buf wx) t0 (Frames t0) wx (ext_refl wx))
    as Hf.
  destruct (encodeFrames t0 (Frames t0) wx) as [wf [e|]] eqn:EF;
    [discriminate|].
  cbn [fst] in Hf.
  pose proof (encodeFrames_ok_err _ _ _ _ Hxe EF) as Hfe.
  assert (Hfs : sink wf = sink wx).
  { clear - EF. revert wx EF. generalize (Frames t0) as fs.
    induction fs as [|f fs IH]; intros wx; cbn [encodeFrames].
    - now intros [= <-].
    - destruct (encodeFrame t0 f wx) as [w1 [e|]] eqn:F; [discriminate|].
      intros H. rewrite (IH _ H). clear - F.
      unfold encodeFrame in F.
      destruct (encodeExtra _ _) as [w5 dlo] eqn:X.
      assert (S5 : sink w5 = sink wx).
      { clear - X. unfold encodeExtra, StoreByte, StoreBytes, setErr in X.
        repeat match type of X with
          | context [if ?c then _ else _] => destruct c
          | context [match ?c with _ => _ end] => destruct c eqn:?
          end; injection X as <- _; try reflexivity;
          cbn in *; congruence. }
      destruct (if _ =? 0 then None else err w5); [discriminate|].
      destruct (OutputFrame f) as [[payload frameID]|]; [|discriminate].
      injection F as <- _. cbn [putSyncSafe copyTo setBuf sink].
      destruct (_ && _)%bool; destruct (-1 <? dlo);
        unfold ConsumeBytesFromOffset, StoreBytes, putSyncSafe, setBuf;
        cbn [sink err buf];
        repeat match goal with
          | |- context [match ?c with _ => _ end] => destruct c
          end; cbn [sink]; exact S5. }
  set (tp := if 0 <? Padding t0 then _ else (t0, wf)).
  assert (Hp : extends (buf wx) (snd tp) /\ err (snd tp) = None
               /\ sink (snd tp) = sink wx
               /\ Flags (fst tp) = Flags t0).
  { subst tp. destruct (0 <? Padding t0); cbn [fst snd].
    - split; [now apply ext_StoreBytes|].
      rewrite StoreBytes_ok by exact Hfe. cbn [err sink].
      destruct (Padding t0 <? 4); auto.
    - auto. }
  destruct tp as [t2 w2]. cbn [fst snd] in Hp.
  destruct Hp as (Hpx & Hpe & Hps & Hpf).
  destruct (Z.ltb_spec (-1) co); [|lia].
  intros [= <- <- <- <-].
  cbn [CRC setCRC].
  pose proof (ext_len _ _ Hpx) as Hpl.
  assert (Hslice : SliceBuffer (Len wx) (Len w2 - Len wx) w2
                   = skipn (Len wx) (buf w2)).
  { unfold SliceBuffer, slice. apply firstn_all2.
    rewrite length_skipn. unfold Len. lia. }
  rewrite Hslice.
  set (crc := uint32 (ChecksumIEEE (skipn (Len wx) (buf w2)))).
  pose proof (uint32_range (ChecksumIEEE (skipn (Len wx) (buf w2)))) as Hr.
  fold crc in Hr.
  destruct (SyncSafeFacts.decode_encode 5 crc) as (bs & En & Lbs & De).
  { split; [lia|]. apply Z.lt_trans with (2 ^ 32); [lia|reflexivity]. }
  { lia. }
  unfold putSyncSafe, SyncSafe.putSyncSafe. rewrite En.
  cbn [buf setBuf err sink Len].
  unfold Len in *.
  repeat split.
  - rewrite BufFacts.skipn_patch by lia. reflexivity.
  - pose proof (BufFacts.slice_patch (buf w2) (Z.to_nat co) bs ltac:(lia))
      as SP.
    rewrite Lbs in SP. rewrite SP. exact De.
  - lia.
  - lia.
  - cbn [buf setBuf]. rewrite BufFacts.patch_length by lia. lia.
  - exact Hpe.
  - congruence.
  - cbn [Flags setCRC]. rewrite Hpf. exact Hu0.
Qed.

End WithEnv.

End V24CrcStaged.

(** C4.  When a v2.4 tag with the HasCRC flag is encoded, the value
    back-patched into the CRC field of the extended header is
    CRC-32/IEEE of the staged frames-plus-padding region, it is the
    CRC the tag is left with, and without tag-wide unsynchronization
    the bytes written out hold that field and that region unchanged;
    and once the headers of a tag with HasCRC are decoded, [Decode]
    goes on to the frame loop if the stored CRC equals CRC-32/IEEE of
    the reader's remaining bytes, and fails with the failed CRC error
    otherwise. *)
Theorem crc_correct {E : V24.Env} :
  (forall (t t1 : V24.Tag V24.Payload_) (w1 : Writer.writer)
          (crcOff : Z) (fOff : nat),
     V24.has (V24.Flags t) V24.TagFlagHasCRC = true ->
     V24.encodeStaged t Writer.empty = (t1, w1, crcOff, fOff, None) ->
     V24.CRC t1 = uint32 (V24.ChecksumIEEE (skipn fOff (Writer.buf w1)))
     /\ SyncSafe.decodeSyncSafeUint32
          (slice (Writer.buf w1) (Z.to_nat crcOff) 5) = OK (V24.CRC t1)
     /\ exists t2 w2,
          V24.Encode t Writer.empty = (t2, w2, None)
          /\ V24.CRC t2 = V24.CRC t1
          /\ (V24.has (V24.Flags t) V24.TagFlagUnsync = false ->
              slice (Writer.sink w2) (Z.to_nat crcOff) 5
              = slice (Writer.buf w1) (Z.to_nat crcOff) 5
              /\ skipn fOff (Writer.sink w2) = skipn fOff (Writer.buf w1)))
  /\ (forall (t t0 t1 : V24.Tag V24.Payload_) (r r0 r1 : Reader.reader),
        V24.decodeHeader t r = (t0, r0, None) ->
        V24.decodeExtended t0 r0 = (t1, r1, None) ->
        V24.has (V24.Flags t1) V24.TagFlagHasCRC = true ->
        (V24.CRC t1 = uint32 (V24.ChecksumIEEE (Reader.Bytes r1)) ->
         V24.Decode t r = V24.decodeFrames (Reader.Len r1) t1 r1)
        /\ (V24.CRC t1 <> uint32 (V24.ChecksumIEEE (Reader.Bytes r1)) ->
            V24.Decode t r = (t1, r1, Some ErrFailedCRC))).
Proof.
  split.
  - intros t t1 w1 crcOff fOff Hc Hs.
    destruct (V24CrcStaged.encodeStaged_crc t t1 Writer.empty w1 crcOff fOff
                eq_refl Hc Hs)
      as (C1 & C2 & L1 & L2 & L3 & He & Hk & Hu).
    split; [exact C1|]. split; [exact C2|].
    unfold V24.Encode. rewrite Hs. rewrite Hu.
    unfold Writer.Len in *. cbn [Writer.buf Writer.empty length] in L1.
    destruct (V24.has (V24.Flags t) V24.TagFlagUnsync).
    + unfold Writer.ConsumeBytesFromOffset, Writer.StoreBytes, Writer.Save.
      cbn [Writer.err Writer.setBuf Writer.putSyncSafe]. rewrite He.
      cbn [Writer.err]. eexists _, _. split; [reflexivity|].
      split; [reflexivity|]. discriminate.
    + unfold Writer.Save. rewrite V24Crc.putSyncSafe_err, He.
      eexists _, _. split; [reflexivity|]. split; [reflexivity|].
      intros _. cbn [Writer.sink]. rewrite V24Crc.putSyncSafe_sink, Hk.
      cbn [Writer.sink Writer.empty app].
      unfold Writer.putSyncSafe, SyncSafe.putSyncSafe.
      destruct (SyncSafe.encodeSyncSafeUint32 4 _) as [bs|] eqn:En;
        [|split; reflexivity].
      apply V24Crc.encode_length in En. cbn [Writer.buf Writer.setBuf].
      split.
      * apply BufFacts.slice_patch_after; lia.
      * apply BufFacts.skipn_patch; lia.
  - intros t t0 t1 r r0 r1 H0 H1 Hc. unfold V24.Decode.
    rewrite H0, H1. unfold V24.validateCRC. rewrite Hc.
    split; intros H.
    + rewrite <- H, Z.eqb_refl. reflexivity.
    + destruct (Z.eqb_spec (uint32 (V24.ChecksumIEEE (Reader.Bytes r1)))
                  (V24.CRC t1)); [congruence|reflexivity].
Qed.

Lemma crc_correct_witness :
  let h := {| V24.FrameID := "XXXX"; V24.FrameType_ := V24.FrameTypeUnknown;
              V24.FSize := 3; V24.FFlags := 0; V24.GroupID := x00;
              V24.EncryptMethod := x00; V24.DataLength := 0 |} in
  let t : V24.Tag (@V24.Payload_ Opaque.env) :=
    {| V24.Version := x04; V24.Flags := V24.TagFlagHasCRC; V24.Size := 0;
       V24.Padding := 4; V24.CRC := 0; V24.Restrictions := x00;
       V24.Frames := [{| V24.Header := h; V24.Payload := [x61; x62; x63] |}]
    |} in
  let st := @V24.encodeStaged Opaque.env t Writer.empty in
  let t1 := fst (fst (fst (fst st))) in
  let w1 := snd (fst (fst (fst st))) in
  let crcOff := snd (fst (fst st)) in
  let fOff := snd (fst st) in
  let stream := Writer.sink (snd (fst (@V24.encodeTag Opaque.env t))) in
  let d0 := @V24.decodeHeader Opaque.env (@V24.freshTag Opaque.env)
              (@V24.readerOn stream) in
  let d1 := @V24.decodeExtended Opaque.env (fst (fst d0)) (snd (fst d0)) in
  (V24.CRC t1 = uint32 (Crc32.ChecksumIEEE (skipn fOff (Writer.buf w1)))
   /\ SyncSafe.decodeSyncSafeUint32
        (slice (Writer.buf w1) (Z.to_nat crcOff) 5) = OK (V24.CRC t1))
  /\ @V24.decodeStream Opaque.env stream
     = @V24.decodeFrames Opaque.env (Reader.Len (snd (fst d1)))
         (fst (fst d1)) (snd (fst d1)).
Proof.
  intros h t st t1 w1 crcOff fOff stream d0 d1.
  destruct (@crc_correct Opaque.env) as [A B].
  split.
  - destruct (A t t1 w1 crcOff fOff) as (C1 & C2 & _).
    + reflexivity.
    + vm_compute. reflexivity.
    + split; [exact C1|exact C2].
  - apply (B (@V24.freshTag Opaque.env) (fst (fst d0)) (fst (fst d1))
             (@V24.readerOn stream) (snd (fst d0)) (snd (fst d1))).
    + vm_compute. reflexivity.
    + vm_compute. reflexivity.
    + vm_compute. reflexivity.
    + vm_compute. reflexivity.
Defined.

(** ** The field scanner: bounded byte fields *)

Module Codec24Facts.
Import Scanner Codec24.

Section WithEnv.
Context {E : Env}.
Variable c : codec24.

Lemma scanner_ConsumeByte_cons (v : byte) (rest : list byte) (cnt : Z) :
  ConsumeByte {| buf := v :: rest; n := cnt; err := None |}
  = (v, {| buf := rest; n := cnt; err := None |}).
Proof. reflexivity. Qed.


(** Once the error is set, the scan of a field leaves the scanner and
    the state alone. *)
Lemma scanStructSlice_sticky scanElem (k : nat) (s : scanner) (st : state)
    (elems : list value) :
  isErr s = true ->
  (forall s st, isErr s = true -> exists vs, scanElem s st = (s, st, vs)) ->
  exists v, scanStructSlice scanElem k s st elems = (s, st, v).
Proof.
  intros He Hrec. destruct k as [|k]; cbn [scanStructSlice].
  - eexists; reflexivity.
  - destruct (0 <? Len s)%nat; [|eexists; reflexivity].
    destruct (Hrec s st He) as [vs ->]. rewrite He. eexists; reflexivity.
Qed.

Lemma scanField_sticky scanNested (k : nat) (s : scanner) (st : state)
    (vs : list value) (f : field) :
  isErr s = true ->
  (forall s nm fs st, isErr s = true ->
     exists vs, scanNested s nm fs st = (s, st, vs)) ->
  exists v, scanField c scanNested k (s, st, vs) f = (s, st, vs ++ [v]).
Proof.
  intros He Hrec. destruct f as [[fname tags] typ]. unfold scanField.
  destruct typ as [nm|nm|nm|nm|nm| | |nm fs|nm fs].
  - unfold scanUint8. rewrite He. eexists; reflexivity.
  - unfold scanUint16. rewrite He. eexists; reflexivity.
  - unfold scanUint32. rewrite He. eexists; reflexivity.
  - unfold scanUint64. rewrite He. eexists; reflexivity.
  - unfold scanString. rewrite He. eexists; reflexivity.
  - unfold scanByteSlice. rewrite He. eexists; reflexivity.
  - unfold scanStringSlice. rewrite He. eexists; reflexivity.
  - rewrite He. eexists; reflexivity.
  - destruct (Hrec s nm fs st He) as [v ->]. eexists; reflexivity.
Qed.

Lemma scanFields_sticky scanNested (k : nat) (fields : list field)
    (s : scanner) (st : state) (vs : list value) :
  isErr s = true ->
  (forall s nm fs st, isErr s = true ->
     exists vs, scanNested s nm fs st = (s, st, vs)) ->
  exists vs', fold_left (scanField c scanNested k) fields (s, st, vs)
              = (s, st, vs').
Proof.
  intros He Hrec. revert vs.
  induction fields as [|f fields IH]; intros vs; cbn [fold_left].
  - eexists; reflexivity.
  - destruct (scanField_sticky scanNested k s st vs f He Hrec) as [v ->].
    apply IH.
Qed.

Lemma scanStruct_sticky (fuel : nat) (s : scanner) (name : string)
    (fields : list field) (st : state) :
  isErr s = true ->
  exists vs, scanStruct c fuel s name fields st = (s, st, vs).
Proof.
  revert s name fields st.
  induction fuel as [|fuel IH]; intros s name fields st He;
    cbn [scanStruct].
  - eexists; reflexivity.
  - destruct (String.eqb name "FrameHeader"); [eexists; reflexivity|].
    apply scanFields_sticky; [exact He|]. intros. now apply IH.
Qed.


End WithEnv.

End Codec24Facts.

Module V24Bounds.
Import Reader V24.

Lemma has_nonzero (x f : Z) : has x f = true -> (x =? 0) = false.
Proof.
  unfold has. intros H. destruct (Z.eqb_spec x 0) as [->|]; [|reflexivity].
  rewrite Z.land_0_l in H. discriminate.
Qed.

Lemma reader_ConsumeByte_cons (v : byte) (rest s : list byte) :
  ConsumeByte {| buf := v :: rest; src := s; err := None |}
  = (v, {| buf := rest; src := s; err := None |}).
Proof. reflexivity. Qed.

Section WithEnv.
Context {E : Env}.

Lemma decodeExtra_bad_group (h : FrameHeader) (sub : reader)
    (gid : byte) (rest : list byte) :
  has (FFlags h) FrameFlagHasGroupID = true ->
  (has (FFlags h) FrameFlagCompressed = true ->
   has (FFlags h) FrameFlagHasDataLength = true) ->
  err sub = None -> buf sub = gid :: rest ->
  outOfRange gid = true ->
  decodeExtra h sub = Err ErrInvalidGroupID.
Proof.
  intros Hg Hc He Hb Ho. destruct sub as [b s e]. cbn in He, Hb. subst.
  unfold decodeExtra. rewrite (has_nonzero _ _ Hg).
  destruct (has (FFlags h) FrameFlagCompressed) eqn:C.
  - rewrite (Hc eq_refl). cbn [negb andb].
    rewrite Hg, reader_ConsumeByte_cons. cbn [err]. now rewrite Ho.
  - cbn [andb]. rewrite Hg, reader_ConsumeByte_cons. cbn [err]. now rewrite Ho.
Qed.

Lemma decodeExtra_bad_encrypt (h : FrameHeader) (sub : reader)
    (pre : list byte) (em : byte) (rest : list byte) :
  has (FFlags h) FrameFlagEncrypted = true ->
  (has (FFlags h) FrameFlagCompressed = true ->
   has (FFlags h) FrameFlagHasDataLength = true) ->
  err sub = None -> buf sub = pre ++ em :: rest ->
  (if has (FFlags h) FrameFlagHasGroupID
   then exists g, pre = [g] /\ outOfRange g = false
   else pre = []) ->
  outOfRange em = true ->
  decodeExtra h sub = Err ErrInvalidEncryptMethod.
Proof.
  intros Hx Hc He Hb Hp Ho. destruct sub as [b s e]. cbn in He, Hb. subst.
  unfold decodeExtra. rewrite (has_nonzero _ _ Hx).
  assert (C : (has (FFlags h) FrameFlagCompressed
               && negb (has (FFlags h) FrameFlagHasDataLength))%bool = false).
  { destruct (has (FFlags h) FrameFlagCompressed); [|reflexivity].
    now rewrite (Hc eq_refl). }
  rewrite C.
  destruct (has (FFlags h) FrameFlagHasGroupID).
  - destruct Hp as (g & -> & Hg). cbn [app]. rewrite reader_ConsumeByte_cons.
    cbn [err]. rewrite Hg. cbn [FFlags setGroupID]. rewrite Hx.
    rewrite reader_ConsumeByte_cons. cbn [err]. now rewrite Ho.
  - subst pre. cbn [app]. rewrite Hx, reader_ConsumeByte_cons. cbn [err].
    now rewrite Ho.
Qed.

End WithEnv.

End V24Bounds.



(** X13.  [decodeFrame] of [v24.go] checks the two optional bytes of
    the frame header against 0x80..0xF0: a frame flagged with a group
    ID whose group ID byte lies outside fails with
    [ErrInvalidGroupID], and a frame flagged as encrypted whose
    encryption method byte, behind a group ID within the bounds if the
    frame has one, lies outside fails with [ErrInvalidEncryptMethod].
    The tag's reader is then past the frame. *)
Theorem decodeFrame_bounds {E : V24.Env} (t : V24.Tag V24.Payload_)
    (r r' sub : Reader.reader) (h : V24.FrameHeader) :
  V24.readFrameHeader t r = (OK (h, sub), r') ->
  (V24.has (V24.FFlags h) V24.FrameFlagCompressed = true ->
   V24.has (V24.FFlags h) V24.FrameFlagHasDataLength = true) ->
  Reader.err sub = None ->
  (forall (gid : byte) (rest : list byte),
     V24.has (V24.FFlags h) V24.FrameFlagHasGroupID = true ->
     Reader.buf sub = gid :: rest ->
     b2z gid < 128 \/ 240 < b2z gid ->
     V24.decodeFrame t r = (Err ErrInvalidGroupID, r'))
  /\ (forall (pre : list byte) (em : byte) (rest : list byte),
        V24.has (V24.FFlags h) V24.FrameFlagEncrypted = true ->
        Reader.buf sub = pre ++ em :: rest ->
        (if V24.has (V24.FFlags h) V24.FrameFlagHasGroupID
         then exists g : byte, pre = [g] /\ 128 <= b2z g <= 240
         else pre = []) ->
        b2z em < 128 \/ 240 < b2z em ->
        V24.decodeFrame t r = (Err ErrInvalidEncryptMethod, r')).
Proof.
  intros Hr Hc He.
  assert (O : forall b, b2z b < 128 \/ 240 < b2z b -> V24.outOfRange b = true).
  { intros b H. unfold V24.outOfRange.
    destruct (Z.ltb_spec (b2z b) 128); [reflexivity|].
    destruct (Z.ltb_spec 240 (b2z b)); [reflexivity|lia]. }
  assert (I : forall b, 128 <= b2z b <= 240 -> V24.outOfRange b = false).
  { intros b H. unfold V24.outOfRange.
    destruct (Z.ltb_spec (b2z b) 128); [lia|].
    destruct (Z.ltb_spec 240 (b2z b)); [lia|reflexivity]. }
  split.
  - intros gid rest Hg Hb Ho.
    unfold V24.decodeFrame. rewrite Hr.
    now rewrite (V24Bounds.decodeExtra_bad_group h sub gid rest Hg Hc He Hb
                   (O _ Ho)).
  - intros pre em rest Hx Hb Hp Ho.
    unfold V24.decodeFrame. rewrite Hr.
    rewrite (V24Bounds.decodeExtra_bad_encrypt h sub pre em rest Hx Hc He Hb);
      [reflexivity| |exact (O _ Ho)].
    destruct (V24.has (V24.FFlags h) V24.FrameFlagHasGroupID); [|exact Hp].
    destruct Hp as (g & -> & Hg). exists g. split; [reflexivity|]. now apply I.
Qed.

Lemma decodeFrame_bounds_witness :
  @V24.decodeFrame Opaque.env (@V24.freshTag Opaque.env)
    {| Reader.buf := [x58; x58; x58; x58; x00; x00; x00; x03; x00; x44;
                      x80; xf1; x61];
       Reader.src := []; Reader.err := None |}
  = (Err ErrInvalidEncryptMethod,
     {| Reader.buf := []; Reader.src := []; Reader.err := None |})
  /\ @V24.decodeFrame Opaque.env (@V24.freshTag Opaque.env)
       {| Reader.buf := [x58; x58; x58; x58; x00; x00; x00; x03; x00; x44;
                         x7f; xf1; x61];
          Reader.src := []; Reader.err := None |}
     = (Err ErrInvalidGroupID,
        {| Reader.buf := []; Reader.src := []; Reader.err := None |}).
Proof.
  split.
  - match goal with
    | |- V24.decodeFrame ?t ?r = _ =>
        let x := eval vm_compute in (@V24.readFrameHeader Opaque.env t r) in
        match x with
        | (OK (?h, ?sub), ?r') =>
            assert (R : @V24.readFrameHeader Opaque.env t r
                        = (OK (h, sub), r')) by (vm_compute; reflexivity);
            apply (proj2 (@decodeFrame_bounds Opaque.env t r r' sub h R
                            ltac:(intros H; vm_compute in H; discriminate H)
                            eq_refl)
                     [x80] xf1 [x61])
        end
    end.
    + vm_compute. reflexivity.
    + reflexivity.
    + exists x80. split; [reflexivity|]. vm_compute. split; discriminate.
    + right. vm_compute. reflexivity.
  - match goal with
    | |- V24.decodeFrame ?t ?r = _ =>
        let x := eval vm_compute in (@V24.readFrameHeader Opaque.env t r) in
        match x with
        | (OK (?h, ?sub), ?r') =>
            assert (R : @V24.readFrameHeader Opaque.env t r
                        = (OK (h, sub), r')) by (vm_compute; reflexivity);
            apply (proj1 (@decodeFrame_bounds Opaque.env t r r' sub h R
                            ltac:(intros H; vm_compute in H; discriminate H)
                            eq_refl)
                     x7f [xf1; x61])
        end
    end.
    + vm_compute. reflexivity.
    + reflexivity.
    + left. vm_compute. reflexivity.
Defined.

(** ** The round trip of a tag through [Encode] and [Decode] *)

Module FlagFacts.
Import V24 V24Layout.

(** A check over a range of integers, run on each of them. *)
Lemma range_check (P : Z -> bool) (n : nat) :
  forallb P (map Z.of_nat (seq 0 n)) = true ->
  forall z, 0 <= z < Z.of_nat n -> P z = true.
Proof.
  intros H z Hz. rewrite forallb_forall in H. apply H.
  apply in_map_iff. exists (Z.to_nat z). split; [lia|].
  apply in_seq. lia.
Qed.

Lemma frameFlags_roundtrip (z : Z) :
  0 <= z < 256 -> FlagMap.Decode (frameFlags v24Data) (frameWire z) = z.
Proof.
  intros Hz.
  apply Z.eqb_eq.
  apply (range_check
           (fun z => FlagMap.Decode (frameFlags v24Data) (frameWire z) =? z)
           256); [vm_compute; reflexivity|exact Hz].
Qed.

Lemma lor_datalength (z : Z) :
  0 <= z < 256 -> has z FrameFlagHasDataLength = true ->
  Z.lor z FrameFlagHasDataLength = z.
Proof.
  intros Hz H. apply Z.eqb_eq.
  pose proof (range_check
                (fun z => implb (has z FrameFlagHasDataLength)
                            (Z.lor z FrameFlagHasDataLength =? z)) 256) as R.
  specialize (R ltac:(vm_compute; reflexivity) z Hz). cbv beta in R.
  rewrite H in R. exact R.
Qed.

Lemma headerFlags_roundtrip (z : Z) :
  0 <= z < 128 ->
  FlagMap.Decode (headerFlags v24Data) (headerWire z) = Z.land z 15.
Proof.
  intros Hz. apply Z.eqb_eq.
  apply (range_check
           (fun z => FlagMap.Decode (headerFlags v24Data) (headerWire z)
                     =? Z.land z 15) 128);
    [vm_compute; reflexivity|exact Hz].
Qed.

Lemma headerExFlags_roundtrip (z : Z) :
  0 <= z < 128 ->
  Z.lor (Z.land z 15)
    (FlagMap.Decode (headerExFlags v24Data) (headerExWire z)) = z.
Proof.
  intros Hz. apply Z.eqb_eq.
  apply (range_check
           (fun z => Z.lor (Z.land z 15)
                       (FlagMap.Decode (headerExFlags v24Data)
                          (headerExWire z)) =? z) 128);
    [vm_compute; reflexivity|exact Hz].
Qed.

(** Without a field of the extended header, the flags are flags of
    the tag header alone. *)
Lemma land15_plain (z : Z) :
  0 <= z < 128 ->
  has z (Z.lor (Z.lor TagFlagHasCRC TagFlagHasRestrictions) TagFlagIsUpdate)
  = false ->
  Z.land z 15 = z.
Proof.
  intros Hz H. apply Z.eqb_eq.
  pose proof (range_check
                (fun z => orb (has z (Z.lor (Z.lor TagFlagHasCRC
                                               TagFlagHasRestrictions)
                                        TagFlagIsUpdate))
                            (Z.land z 15 =? z)) 128) as R.
  specialize (R ltac:(vm_compute; reflexivity) z Hz). cbv beta in R.
  rewrite H in R. exact R.
Qed.

Lemma has_land15 (z f : Z) :
  0 <= z < 128 -> f = TagFlagUnsync \/ f = TagFlagExtended ->
  has (Z.land z 15) f = has z f.
Proof.
  intros Hz Hf. 
  pose proof (range_check
                (fun z => andb (Bool.eqb (has (Z.land z 15) TagFlagUnsync)
                                  (has z TagFlagUnsync))
                            (Bool.eqb (has (Z.land z 15) TagFlagExtended)
                               (has z TagFlagExtended))) 128) as R.
  specialize (R ltac:(vm_compute; reflexivity) z Hz). cbv beta in R.
  apply andb_true_iff in R. destruct R as [R1 R2].
  apply Bool.eqb_prop in R1, R2. destruct Hf; subst f; assumption.
Qed.

Lemma lor_extended (z : Z) :
  0 <= z < 128 -> has z TagFlagExtended = true -> Z.lor z TagFlagExtended = z.
Proof.
  intros Hz H. apply Z.eqb_eq.
  pose proof (range_check
                (fun z => implb (has z TagFlagExtended)
                            (Z.lor z TagFlagExtended =? z)) 128) as R.
  specialize (R ltac:(vm_compute; reflexivity) z Hz). cbv beta in R.
  rewrite H in R. exact R.
Qed.

Lemma has_zero (f : Z) : has 0 f = false.
Proof. reflexivity. Qed.

End FlagFacts.

Module V24Wire.
Import Reader Writer V24 V24Layout.

Lemma ss_length (n : nat) (v : Z) : length (ss n v) = n.
Proof. unfold ss. now rewrite length_map, length_rev, length_seq. Qed.

Lemma encode_ss (n : nat) (v : Z) :
  v < 2 ^ (7 * Z.of_nat n) -> SyncSafe.encodeSyncSafeUint32 n v = OK (ss n v).
Proof.
  intros H. unfold SyncSafe.encodeSyncSafeUint32.
  destruct (Z.leb_spec (2 ^ (7 * Z.of_nat n)) v); [lia|reflexivity].
Qed.

Lemma decode_ss (n : nat) (v : Z) :
  0 <= v < 2 ^ (7 * Z.of_nat n) -> v < 2 ^ 32 ->
  SyncSafe.decodeSyncSafeUint32 (ss n v) = OK v.
Proof.
  intros H1 H2.
  destruct (SyncSafeFacts.decode_encode n v H1 H2) as (bs & E & _ & D).
  rewrite encode_ss in E by lia. now inversion E; subst.
Qed.

Lemma uint32_small (v : Z) : 0 <= v < 2 ^ 32 -> uint32 v = v.
Proof. intros H. unfold uint32. now apply Z.mod_small. Qed.

Lemma patch_mid {A} (a old c new : list A) :
  length new = length old ->
  patch (a ++ old ++ c) (length a) new = a ++ new ++ c.
Proof.
  intros L.
  pose proof (BufFacts.patch_app_r a (old ++ c) 0 new) as H.
  rewrite Nat.add_0_r in H. rewrite H. f_equal.
  unfold patch. cbn [firstn app]. rewrite Nat.sub_0_r, Nat.add_0_l.
  rewrite firstn_all2 by (rewrite length_app; lia).
  rewrite L, skipn_app, skipn_all, Nat.sub_diag. reflexivity.
Qed.

(** [putSyncSafe] over a placeholder of the staging buffer. *)
Lemma putSyncSafe_mid (a old c : list byte) (S : list byte) (n : nat) (v : Z) :
  length old = n -> 0 <= v < 2 ^ (7 * Z.of_nat n) ->
  putSyncSafe (length a) n v {| buf := a ++ old ++ c; sink := S; err := None |}
  = {| buf := a ++ ss n v ++ c; sink := S; err := None |}.
Proof.
  intros L H. unfold putSyncSafe, SyncSafe.putSyncSafe, setBuf. cbn [buf sink err].
  rewrite encode_ss by lia. rewrite patch_mid by (rewrite ss_length; lia).
  reflexivity.
Qed.

Lemma opt_length (b : bool) (l : list byte) :
  length (opt b l) = if b then length l else 0%nat.
Proof. now destruct b. Qed.

Lemma extraBytes_length (h : FrameHeader) (dl : list byte) :
  length dl = 4%nat -> Z.of_nat (length (extraBytes h dl)) = extraLen h.
Proof.
  intros L. unfold extraBytes, extraLen.
  rewrite !length_app, !opt_length, L. cbn [length].
  destruct (has (FFlags h) FrameFlagHasGroupID);
    destruct (has (FFlags h) FrameFlagEncrypted);
    destruct (has (FFlags h) FrameFlagHasDataLength); reflexivity.
Qed.

Lemma copyTo_mid (a old c id S : list byte) :
  length old = 4%nat -> length id = 4%nat ->
  copyTo (length a) 4 id {| buf := a ++ old ++ c; sink := S; err := None |}
  = {| buf := a ++ id ++ c; sink := S; err := None |}.
Proof.
  intros Lo Li. unfold copyTo, setBuf. cbn [buf sink err].
  rewrite firstn_all2 by lia. rewrite patch_mid by lia. reflexivity.
Qed.

Lemma putSyncSafe_at (X a old c S : list byte) (off n : nat) (v v0 : Z) :
  X = a ++ old ++ c -> off = length a -> length old = n ->
  v = v0 -> 0 <= v0 < 2 ^ (7 * Z.of_nat n) ->
  putSyncSafe off n v {| buf := X; sink := S; err := None |}
  = {| buf := a ++ ss n v0 ++ c; sink := S; err := None |}.
Proof. intros -> -> L -> H. now apply putSyncSafe_mid. Qed.

Lemma copyTo_at (X a old c id S : list byte) (off : nat) :
  X = a ++ old ++ c -> off = length a ->
  length old = 4%nat -> length id = 4%nat ->
  copyTo off 4 id {| buf := X; sink := S; err := None |}
  = {| buf := a ++ id ++ c; sink := S; err := None |}.
Proof. intros -> -> Lo Li. now apply copyTo_mid. Qed.

Section WithEnv.
Context {E : Env}.

Lemma encodeExtra_bytes (h : FrameHeader) (B S : list byte) :
  (if has (FFlags h) FrameFlagHasGroupID
   then outOfRange (GroupID h) = false else GroupID h = x00) ->
  (if has (FFlags h) FrameFlagEncrypted
   then outOfRange (EncryptMethod h) = false else EncryptMethod h = x00) ->
  encodeExtra h {| buf := B; sink := S; err := None |}
  = ({| buf := B ++ extraBytes h [x00; x00; x00; x00]; sink := S;
        err := None |},
     if has (FFlags h) FrameFlagHasDataLength
     then Z.of_nat (length (B
                            ++ opt (has (FFlags h) FrameFlagHasGroupID)
                                 [GroupID h]
                            ++ opt (has (FFlags h) FrameFlagEncrypted)
                                 [EncryptMethod h]))
     else -1).
Proof.
  intros Hg He. unfold encodeExtra, extraBytes.
  destruct (FFlags h =? 0) eqn:Hz.
  - apply Z.eqb_eq in Hz. rewrite Hz, !FlagFacts.has_zero. cbn [opt app].
    now rewrite app_nil_r.
  - destruct (has (FFlags h) FrameFlagHasGroupID);
      destruct (has (FFlags h) FrameFlagEncrypted);
      destruct (has (FFlags h) FrameFlagHasDataLength);
      try rewrite Hg; try rewrite He;
      unfold StoreByte, StoreBytes, Writer.Len; cbn [opt app buf sink err];
      rewrite ?app_nil_r, <- ?app_assoc; cbn [app]; reflexivity.
Qed.

End WithEnv.

End V24Wire.

Module V24Encode.
Import Reader Writer V24 V24Layout V24Wire.

Section WithEnv.
Context {E : Env}.

Lemma compressed_header (h : FrameHeader) :
  0 <= FFlags h < 256 ->
  (has (FFlags h) FrameFlagCompressed = true ->
   has (FFlags h) FrameFlagHasDataLength = true) ->
  (if has (FFlags h) FrameFlagCompressed
   then setHFlags h (Z.lor (FFlags h) FrameFlagHasDataLength) else h) = h.
Proof.
  intros Hr Hc. destruct (has (FFlags h) FrameFlagCompressed); [|reflexivity].
  rewrite FlagFacts.lor_datalength by auto. now destruct h.
Qed.

Lemma encodeFrame_bytes (t : Tag Payload_) (f : Frame Payload_)
    (bs B S : list byte) :
  wfFrame t f bs ->
  encodeFrame t f {| buf := B; sink := S; err := None |}
  = ({| buf := B ++ frameBytes f bs; sink := S; err := None |}, None).
Proof.
  intros [Ho Hs Hi Hn Ht Hf Hc Hu Hg He Hd Hz Hr].
  assert (Hl : 0 <= len bs < 2 ^ 28).
  { unfold len. split; [lia|].
    pose proof (extraBytes_length (Header f) (ss 4 0) (ss_length _ _)).
    unfold len in Hz. lia. }
  unfold encodeFrame, HeaderOf.
  rewrite (compressed_header _ Hf Hc).
  unfold StoreByte, StoreBytes, Writer.Len. cbn [buf sink err].
  rewrite (encodeExtra_bytes _ _ _ Hg He).
  cbn [err].
  replace (if FFlags (Header f) =? 0 then @None error else None)
    with (@None error) by (destruct (FFlags (Header f) =? 0); reflexivity).
  rewrite Ho.
  assert (Hun : (has (FFlags (Header f)) FrameFlagUnsynchronized
                 && negb (has (Flags t) TagFlagUnsync))%bool = false).
  { destruct (has (FFlags (Header f)) FrameFlagUnsynchronized);
      [rewrite Hu by reflexivity|]; reflexivity. }
  rewrite Hun. cbn [buf sink err].
  match goal with
  | |- context [copyTo _ _ _ ?w] =>
      replace w
        with {| buf := B ++ zeros 4 ++ zeros 4 ++ flagBytes (Header f)
                       ++ extraBytes (Header f) (ss 4 (len bs)) ++ bs;
                sink := S; err := None |}
  end.
  2:{ unfold extraBytes.
      destruct (has (FFlags (Header f)) FrameFlagHasDataLength).
      - cbn [opt].
        replace (-1 <? Z.of_nat _) with true by (symmetry; apply Z.ltb_lt; lia).
        rewrite Nat2Z.id.
        set (G := opt (has (FFlags (Header f)) FrameFlagHasGroupID)
                    [GroupID (Header f)]).
        set (X := opt (has (FFlags (Header f)) FrameFlagEncrypted)
                    [EncryptMethod (Header f)]).
        symmetry.
        rewrite (putSyncSafe_at _
                   (B ++ zeros 4 ++ zeros 4 ++ flagBytes (Header f) ++ G ++ X)
                   (zeros 4) bs S _ 4 _ (len bs)).
        + now rewrite <- !app_assoc.
        + unfold flagBytes, zeros. cbn [repeat].
          now rewrite <- !app_assoc.
        + unfold flagBytes, zeros. cbn [repeat].
          now rewrite <- !app_assoc.
        + reflexivity.
        + rewrite V24Wire.uint32_small.
          * unfold len. rewrite (length_app _ bs). lia.
          * rewrite (length_app _ bs). unfold len in Hl.
            change (2 ^ 28) with 268435456 in Hl.
            change (2 ^ 32) with 4294967296. lia.
        + exact Hl.
      - cbn [opt]. change (-1 <? -1) with false. cbv iota.
        unfold flagBytes, zeros. cbn [repeat].
        now rewrite <- !app_assoc. }
  rewrite (copyTo_at _ B (zeros 4)
             (zeros 4 ++ flagBytes (Header f)
              ++ extraBytes (Header f) (ss 4 (len bs)) ++ bs)
             (list_byte_of_string (FrameID (Header f))) S);
    [|reflexivity|reflexivity|reflexivity|exact Hi].
  cbn [buf].
  rewrite (putSyncSafe_at _ (B ++ list_byte_of_string (FrameID (Header f)))
             (zeros 4)
             (flagBytes (Header f)
              ++ extraBytes (Header f) (ss 4 (len bs)) ++ bs)
             S _ 4 _ (FSize (Header f))).
  - cbn [err]. unfold frameBytes. now rewrite <- !app_assoc.
  - now rewrite <- !app_assoc.
  - rewrite !length_app. rewrite Hi. reflexivity.
  - reflexivity.
  - pose proof (extraBytes_length (Header f) (ss 4 (len bs)) (ss_length _ _))
      as HX.
    assert (L : Z.of_nat (length (B ++ list_byte_of_string (FrameID (Header f))
                          ++ zeros 4 ++ flagBytes (Header f)
                          ++ extraBytes (Header f) (ss 4 (len bs)) ++ bs))
                - Z.of_nat (length ((((B ++ [x00; x00; x00; x00])
                                      ++ [x00; x00; x00; x00])
                                     ++ [byteOf (Z.shiftr
                                           (FlagMap.Encode (frameFlags v24Data)
                                              (FFlags (Header f))) 8)])
                                    ++ [byteOf (FlagMap.Encode
                                                  (frameFlags v24Data)
                                                  (FFlags (Header f)))]))
                = FSize (Header f)).
    { rewrite !length_app, Hi. unfold flagBytes, zeros, len in *.
      cbn [length repeat]. lia. }
    rewrite L. apply V24Wire.uint32_small.
    change (2 ^ 28) with 268435456 in Hr.
    change (2 ^ 32) with 4294967296. lia.
  - change (7 * Z.of_nat 4) with 28. lia.
Qed.

Lemma encodeFrames_bytes (t : Tag Payload_) (fs : list (Frame Payload_))
    (bss : list (list byte)) (B S : list byte) :
  Forall2 (wfFrame t) fs bss ->
  encodeFrames t fs {| buf := B; sink := S; err := None |}
  = ({| buf := B ++ framesBytes fs bss; sink := S; err := None |}, None).
Proof.
  intros H. revert B. induction H as [|f bs fs bss W _ IH]; intros B.
  - cbn. now rewrite app_nil_r.
  - cbn [encodeFrames framesBytes].
    rewrite (encodeFrame_bytes t f bs B S W), IH.
    now rewrite <- app_assoc.
Qed.

Lemma encodeExtended_bytes (t : Tag Payload_) (B S : list byte) :
  encodeExtended t {| buf := B; sink := S; err := None |}
  = ({| buf := B ++ extBytes t (zeros 5); sink := S; err := None |},
     crcOffsetOf t B).
Proof.
  unfold encodeExtended, extBytes, crcOffsetOf.
  destruct (has (Flags t) TagFlagExtended) eqn:X; cbn [negb opt andb];
    [|now rewrite app_nil_r].
  destruct (has (Flags t) TagFlagIsUpdate) eqn:U;
    destruct (has (Flags t) TagFlagHasCRC) eqn:C;
    destruct (has (Flags t) TagFlagHasRestrictions) eqn:R;
    unfold StoreByte, StoreBytes, Writer.Len; cbn [buf sink err opt app];
    (erewrite (putSyncSafe_at _ B (zeros 4) _ S _ 4 _ (exSizeOf t));
     [ | rewrite <- ?app_assoc; cbn [app zeros repeat]; reflexivity
       | reflexivity | reflexivity | | ]).
  all: try (unfold exSizeOf; rewrite U, C, R; change (7 * Z.of_nat 4) with 28;
            change (2 ^ 28) with 268435456; lia).
  all: try (rewrite !length_app; cbn [length]; unfold exSizeOf;
            rewrite U, C, R;
            match goal with
            | |- uint32 ?x = ?k => replace x with k by lia
            end; reflexivity).
  all: rewrite ?length_app; cbn [length zeros repeat app]; f_equal; lia.
Qed.

Lemma extended_tag (t : Tag Payload_) :
  0 <= Flags t < 128 ->
  (has (Flags t) (Z.lor (Z.lor TagFlagHasCRC TagFlagHasRestrictions)
                        TagFlagIsUpdate) = true ->
   has (Flags t) TagFlagExtended = true) ->
  (if has (Flags t) (Z.lor (Z.lor TagFlagHasCRC TagFlagHasRestrictions)
                           TagFlagIsUpdate)
   then setFlags t (Z.lor (Flags t) TagFlagExtended) else t) = t.
Proof.
  intros Hr Hx.
  destruct (has (Flags t) _); [|reflexivity].
  rewrite FlagFacts.lor_extended by auto. now destruct t.
Qed.

Lemma pad_step (t : Tag Payload_) (W S : list byte) :
  0 <= Padding t ->
  (if 0 <? Padding t
   then (if Padding t <? 4 then setPadding t 4 else t,
         StoreBytes
           (zeros (Z.to_nat
                     (Padding (if Padding t <? 4 then setPadding t 4 else t))))
           {| buf := W; sink := S; err := None |})
   else (t, {| buf := W; sink := S; err := None |}))
  = (setPadding t (Z.of_nat (padOf t)),
     {| buf := W ++ zeros (padOf t); sink := S; err := None |}).
Proof.
  intros Hp. unfold padOf, StoreBytes. cbn [err buf sink].
  destruct (Z.ltb_spec 0 (Padding t)).
  - destruct (Z.ltb_spec (Padding t) 4).
    + cbn [Padding setPadding]. rewrite Z.max_l by lia. reflexivity.
    + rewrite Z.max_r by lia. rewrite Z2Nat.id by lia.
      f_equal. now destruct t.
  - cbn [zeros repeat]. rewrite app_nil_r. f_equal.
    assert (Padding t = 0) by lia. destruct t; cbn in *; subst; reflexivity.
Qed.

Lemma slice_tail {A} (a f : list A) :
  slice (a ++ f) (length a) (length (a ++ f) - length a) = f.
Proof.
  unfold slice. rewrite skipn_app, skipn_all, Nat.sub_diag. cbn [skipn app].
  rewrite length_app. apply firstn_all2. lia.
Qed.

Lemma encodeStaged_bytes (t : Tag Payload_) (bss : list (list byte)) :
  0 <= Flags t < 128 ->
  (has (Flags t) (Z.lor (Z.lor TagFlagHasCRC TagFlagHasRestrictions)
                        TagFlagIsUpdate) = true ->
   has (Flags t) TagFlagExtended = true) ->
  0 <= Padding t ->
  Forall2 (wfFrame t) (Frames t) bss ->
  encodeStaged t Writer.empty
  = (stagedTag t bss,
     {| buf := hdrBytes t (zeros 4)
               ++ extBytes t (ss 5 (crcOf t bss))
               ++ framesBytes (Frames t) bss ++ zeros (padOf t);
        sink := []; err := None |},
     crcOffsetOf t (hdrBytes t (zeros 4)),
     length (hdrBytes t (zeros 4) ++ extBytes t (zeros 5)),
     None).
Proof.
  intros Hr Hx Hp HF. unfold encodeStaged.
  rewrite (extended_tag t Hr Hx).
  unfold Writer.empty, StoreBytes at 1. cbn [err buf sink app].
  change [x49; x44; x33; x04; x00;
          byteOf (FlagMap.Encode (headerFlags v24Data) (Flags t));
          x00; x00; x00; x00] with (hdrBytes t (zeros 4)).
  rewrite encodeExtended_bytes.
  rewrite (encodeFrames_bytes t (Frames t) bss _ _ HF).
  rewrite (pad_step t _ _ Hp).
  unfold SliceBuffer, Writer.Len. cbn [buf].
  rewrite <- (app_assoc _ (framesBytes (Frames t) bss) (zeros (padOf t))).
  rewrite slice_tail.
  fold (crcOf t bss). cbn [CRC setCRC].
  unfold crcOffsetOf, extBytes, stagedTag.
  destruct (has (Flags t) TagFlagExtended) eqn:X.
  - destruct (has (Flags t) TagFlagHasCRC) eqn:C; cbn [andb opt].
    + assert (Hc : 0 <= crcOf t bss < 2 ^ (7 * Z.of_nat 5)).
      { pose proof (V24CrcStaged.uint32_range
                      (ChecksumIEEE (framesBytes (Frames t) bss
                                     ++ zeros (padOf t)))) as Hc.
        fold (crcOf t bss) in Hc.
        change (2 ^ 32) with 4294967296 in Hc.
        change (2 ^ (7 * Z.of_nat 5)) with 34359738368. lia. }
      destruct (has (Flags t) TagFlagIsUpdate) eqn:U; cbn [opt app];
        (replace (-1 <? _) with true by (symmetry; apply Z.ltb_lt; lia));
        [ erewrite (putSyncSafe_at _
                      (hdrBytes t (zeros 4) ++ ss 4 (exSizeOf t)
                       ++ [x01; byteOf (FlagMap.Encode (headerExFlags v24Data)
                                          (Flags t)); x00; x05])
                      (zeros 5) _ [] _ 5 _ (crcOf t bss))
        | erewrite (putSyncSafe_at _
                      (hdrBytes t (zeros 4) ++ ss 4 (exSizeOf t)
                       ++ [x01; byteOf (FlagMap.Encode (headerExFlags v24Data)
                                          (Flags t)); x05])
                      (zeros 5) _ [] _ 5 _ (crcOf t bss)) ];
        try exact Hc; try reflexivity;
        try (repeat first [rewrite <- app_assoc | progress cbn [app]];
             reflexivity);
        try (rewrite !length_app, ss_length; cbn [length]; lia).
      all: do 4 f_equal; repeat first [rewrite <- app_assoc | progress cbn [app]];
        reflexivity.
    + change (-1 <? -1) with false. cbv iota.
      do 4 f_equal; try reflexivity; now rewrite <- !app_assoc.
  - assert (C : has (Flags t) TagFlagHasCRC = false).
    { destruct (has (Flags t) TagFlagHasCRC) eqn:C; [|reflexivity].
      assert (F : false = true); [|discriminate F].
      apply Hx. rewrite !V24Crc.has_lor_r, C. reflexivity. }
    rewrite C. cbn [andb opt app]. change (-1 <? -1) with false. cbv iota.
    do 4 f_equal; try reflexivity; now rewrite <- !app_assoc.
Qed.

Lemma stagedBody_bytes (t : Tag Payload_) (bss : list (list byte)) :
  0 <= Flags t < 128 ->
  (has (Flags t) (Z.lor (Z.lor TagFlagHasCRC TagFlagHasRestrictions)
                        TagFlagIsUpdate) = true ->
   has (Flags t) TagFlagExtended = true) ->
  0 <= Padding t ->
  Forall2 (wfFrame t) (Frames t) bss ->
  stagedBody t = bodyBytes t bss.
Proof.
  intros Hr Hx Hp HF. unfold stagedBody.
  rewrite (encodeStaged_bytes t bss Hr Hx Hp HF). reflexivity.
Qed.

Lemma encodeTag_bytes (t : Tag Payload_) (bss : list (list byte)) :
  0 <= Flags t < 128 ->
  (has (Flags t) (Z.lor (Z.lor TagFlagHasCRC TagFlagHasRestrictions)
                        TagFlagIsUpdate) = true ->
   has (Flags t) TagFlagExtended = true) ->
  0 <= Padding t ->
  Forall2 (wfFrame t) (Frames t) bss ->
  len (wireBody t bss) < 2 ^ 28 ->
  encodeTag t
  = (setSize (stagedTag t bss) (len (wireBody t bss)),
     {| buf := [];
        sink := hdrBytes t (ss 4 (len (wireBody t bss))) ++ wireBody t bss;
        err := None |},
     None).
Proof.
  intros Hr Hx Hp HF Hs. unfold encodeTag, Encode.
  rewrite (encodeStaged_bytes t bss Hr Hx Hp HF).
  fold (bodyBytes t bss). unfold wireBody in *.
  cbn [Flags stagedTag].
  assert (R : forall wb : list byte,
             len wb < 2 ^ 28 ->
             (let w := {| buf := hdrBytes t (zeros 4) ++ wb; sink := [];
                          err := None |} in
              let t0 := setSize (stagedTag t bss) (Z.of_nat (Writer.Len w) - 10) in
              let w0 := putSyncSafe 6 4 (uint32 (Size t0)) w in
              let '(w1, err) := Save w0 in (t0, w1, err))
             = (setSize (stagedTag t bss) (len wb),
                {| buf := []; sink := hdrBytes t (ss 4 (len wb)) ++ wb;
                   err := None |}, None)).
  { intros wb Hwb. cbv zeta. unfold Writer.Len. cbn [buf].
    assert (L : Z.of_nat (length (hdrBytes t (zeros 4) ++ wb)) - 10 = len wb).
    { rewrite length_app. unfold len. cbn [hdrBytes length app zeros repeat].
      lia. }
    rewrite L. cbn [Size setSize].
    rewrite (putSyncSafe_at _
               [x49; x44; x33; x04; x00;
                byteOf (FlagMap.Encode (headerFlags v24Data) (Flags t))]
               (zeros 4) wb [] 6 4 _ (len wb)).
    - reflexivity.
    - reflexivity.
    - reflexivity.
    - reflexivity.
    - apply uint32_small. unfold len in *.
      change (2 ^ 28) with 268435456 in Hwb.
      change (2 ^ 32) with 4294967296. lia.
    - unfold len in *. change (7 * Z.of_nat 4) with 28. lia. }
  destruct (has (Flags t) TagFlagUnsync).
  - unfold ConsumeBytesFromOffset, setBuf, StoreBytes. cbn [buf sink err].
    change (skipn 10 (hdrBytes t (zeros 4) ++ bodyBytes t bss))
      with (bodyBytes t bss).
    change (firstn 10 (hdrBytes t (zeros 4) ++ bodyBytes t bss))
      with (firstn 10 (hdrBytes t (zeros 4)) ++ firstn 0 (bodyBytes t bss)).
    cbn [firstn]. rewrite app_nil_r.
    change (firstn 10 (hdrBytes t (zeros 4))) with (hdrBytes t (zeros 4)).
    apply (R _ Hs).
  - apply (R _ Hs).
Qed.

End WithEnv.
End V24Encode.

Module V24Decode.
Import Reader V24 V24Layout V24Wire.

Section WithEnv.
Context {E : Env}.

Lemma ConsumeBytes_ss (v : Z) (rest s : list byte) :
  ConsumeBytes 4 {| buf := ss 4 v ++ rest; src := s; err := None |}
  = (ss 4 v, {| buf := rest; src := s; err := None |}).
Proof.
  pose proof (V24Facts.ConsumeBytes_app (ss 4 v) rest s) as H.
  now rewrite ss_length in H.
Qed.

Lemma decodeExtra_bytes (h : FrameHeader) (bs : list byte) :
  (has (FFlags h) FrameFlagCompressed = true ->
   has (FFlags h) FrameFlagHasDataLength = true) ->
  (if has (FFlags h) FrameFlagHasGroupID
   then outOfRange (GroupID h) = false else GroupID h = x00) ->
  (if has (FFlags h) FrameFlagEncrypted
   then outOfRange (EncryptMethod h) = false else EncryptMethod h = x00) ->
  DataLength h
  = (if has (FFlags h) FrameFlagHasDataLength then len bs else 0) ->
  0 <= len bs < 2 ^ 28 ->
  decodeExtra (bare h)
    {| buf := extraBytes h (ss 4 (len bs)) ++ bs; src := []; err := None |}
  = OK (untyped h, {| buf := bs; src := []; err := None |}).
Proof.
  intros Hc Hg He Hd Hl.
  assert (D : SyncSafe.decodeSyncSafeUint32 (ss 4 (len bs)) = OK (len bs)).
  { apply decode_ss.
    - exact Hl.
    - change (2 ^ 28) with 268435456 in Hl.
      change (2 ^ 32) with 4294967296. lia. }
  unfold decodeExtra, extraBytes, bare, untyped.
  cbn [FFlags FrameID FSize GroupID EncryptMethod DataLength FrameType_].
  destruct (FFlags h =? 0) eqn:Hz.
  - apply Z.eqb_eq in Hz. rewrite Hz in *. rewrite !FlagFacts.has_zero in *.
    cbn [opt app]. now rewrite Hg, He, Hd.
  - destruct (has (FFlags h) FrameFlagCompressed) eqn:C;
      destruct (has (FFlags h) FrameFlagHasGroupID) eqn:G;
      destruct (has (FFlags h) FrameFlagEncrypted) eqn:X;
      destruct (has (FFlags h) FrameFlagHasDataLength) eqn:L;
      try (specialize (Hc eq_refl); discriminate Hc);
      cbn [andb negb];
      cbn [opt app setGroupID setEncryptMethod FFlags];
      rewrite ?V24Bounds.reader_ConsumeByte_cons; cbn [Reader.err];
      rewrite ?Hg, ?He, ?G, ?X, ?L;
      cbn [setGroupID setEncryptMethod FFlags];
      rewrite ?V24Bounds.reader_ConsumeByte_cons; cbn [Reader.err];
      rewrite ?Hg, ?He, ?G, ?X, ?L;
      cbn [setGroupID setEncryptMethod FFlags];
      rewrite ?L, ?ConsumeBytes_ss; cbn [Reader.err];
      rewrite ?D; unfold setDataLength;
      cbn [FFlags FrameID FSize GroupID EncryptMethod DataLength FrameType_];
      rewrite ?Hd, ?Hg, ?He; reflexivity.
Qed.

Lemma readFrameHeader_bytes (t t' : Tag Payload_) (f : Frame Payload_)
    (bs rest s : list byte) :
  wfFrame t f bs ->
  has (Flags t') TagFlagUnsync = has (Flags t) TagFlagUnsync ->
  readFrameHeader t'
    {| buf := frameBytes f bs ++ rest; src := s; err := None |}
  = (OK (bare (Header f),
         {| buf := extraBytes (Header f) (ss 4 (len bs)) ++ bs; src := [];
            err := None |}),
     {| buf := rest; src := s; err := None |}).
Proof.
  intros [Ho Hs Hi Hn Ht Hf Hc Hu Hg He Hd Hz Hr] Hfl.
  unfold readFrameHeader, frameBytes.
  rewrite <- !app_assoc.
  pose proof (V24Facts.ConsumeBytes_app
                (list_byte_of_string (FrameID (Header f)))) as C4.
  rewrite Hi in C4. rewrite C4. clear C4. cbn [err]. rewrite Hn.
  pose proof (V24Facts.ConsumeBytes_app
                (ss 4 (FSize (Header f)) ++ flagBytes (Header f))) as C6.
  change (length (ss 4 (FSize (Header f)) ++ flagBytes (Header f)))
    with 6%nat in C6.
  rewrite (app_assoc (ss 4 (FSize (Header f))) (flagBytes (Header f))).
  rewrite C6. clear C6. cbn [err].
  change (slice (ss 4 (FSize (Header f)) ++ flagBytes (Header f)) 0 4)
    with (ss 4 (FSize (Header f))).
  rewrite decode_ss.
  2:{ change (7 * Z.of_nat 4) with 28. lia. }
  2:{ change (2 ^ 28) with 268435456 in Hr.
      change (2 ^ 32) with 4294967296. lia. }
  destruct (Z.ltb_spec (FSize (Header f)) 1); [lia|].
  change (Z.lor (Z.shiftl (b2z (nth 4 (ss 4 (FSize (Header f))
                                        ++ flagBytes (Header f)) x00)) 8)
            (b2z (nth 5 (ss 4 (FSize (Header f))
                         ++ flagBytes (Header f)) x00)))
    with (frameWire (FFlags (Header f))).
  rewrite FlagFacts.frameFlags_roundtrip by exact Hf.
  cbn [FSize FFlags].
  rewrite string_of_list_byte_of_string.
  unfold ConsumeIntoNewReader.
  pose proof (V24Facts.ConsumeBytes_app
                (extraBytes (Header f) (ss 4 (len bs)) ++ bs) rest s) as CN.
  replace (length (extraBytes (Header f) (ss 4 (len bs)) ++ bs))
    with (Z.to_nat (FSize (Header f))) in CN.
  2:{ rewrite length_app.
      pose proof (extraBytes_length (Header f) (ss 4 (len bs))
                    (ss_length _ _)).
      unfold len in Hz. lia. }
  rewrite (app_assoc (extraBytes (Header f) (ss 4 (len bs))) bs rest).
  rewrite CN. clear CN. cbn [err].
  rewrite Hfl.
  assert (Hun : (has (FFlags (Header f)) FrameFlagUnsynchronized
                 && negb (has (Flags t) TagFlagUnsync))%bool = false).
  { destruct (has (FFlags (Header f)) FrameFlagUnsynchronized);
      [rewrite Hu by reflexivity|]; reflexivity. }
  rewrite Hun. reflexivity.
Qed.

Lemma decodeFrame_bytes (t t' : Tag Payload_) (f : Frame Payload_)
    (bs rest s : list byte) :
  wfFrame t f bs ->
  has (Flags t') TagFlagUnsync = has (Flags t) TagFlagUnsync ->
  decodeFrame t' {| buf := frameBytes f bs ++ rest; src := s; err := None |}
  = (OK f, {| buf := rest; src := s; err := None |}).
Proof.
  intros W Hfl. unfold decodeFrame.
  rewrite (readFrameHeader_bytes t t' f bs rest s W Hfl).
  destruct W as [Ho Hs Hi Hn Ht Hf Hc Hu Hg He Hd Hz Hr].
  assert (Hl : 0 <= len bs < 2 ^ 28).
  { unfold len. split; [lia|].
    pose proof (extraBytes_length (Header f) (ss 4 0) (ss_length _ _)).
    unfold len in Hz. lia. }
  rewrite (decodeExtra_bytes _ _ Hc Hg He Hd Hl).
  unfold untyped at 1. cbn [FrameID]. rewrite Hs.
  unfold SetFrameHeader, setFrameType, untyped.
  cbn [FrameID FSize FFlags GroupID EncryptMethod DataLength].
  rewrite <- Ht. destruct f as [h p]. cbn [Header Payload].
  now destruct h.
Qed.

Lemma frameBytes_length (f : Frame Payload_) (bs : list byte) :
  length (list_byte_of_string (FrameID (Header f))) = 4%nat ->
  (10 <= length (frameBytes f bs))%nat.
Proof.
  intros H. unfold frameBytes. rewrite !length_app, H, ss_length.
  cbn [flagBytes length]. lia.
Qed.

Lemma decodeFrames_bytes (t : Tag Payload_) (fs : list (Frame Payload_))
    (bss : list (list byte)) (pad : nat) (s : list byte) :
  Forall2 (wfFrame t) fs bss ->
  pad = 0%nat \/ (4 <= pad)%nat ->
  forall (fuel : nat) (t' : Tag Payload_),
    has (Flags t') TagFlagUnsync = has (Flags t) TagFlagUnsync ->
    (length (framesBytes fs bss ++ zeros pad) <= fuel)%nat ->
    decodeFrames fuel t'
      {| buf := framesBytes fs bss ++ zeros pad; src := s; err := None |}
    = (setPadding (withFrames t' fs)
         (if (pad =? 0)%nat then Padding t' else Z.of_nat pad),
       {| buf := []; src := s; err := None |}, None).
Proof.
  intros H Hp. induction H as [|f bs fs bss W _ IH]; intros fuel t' Hfl Hfuel.
  - cbn [framesBytes app] in *.
    assert (T : withFrames t' [] = t').
    { unfold withFrames. rewrite app_nil_r. now destruct t'. }
    rewrite T. destruct Hp as [->|Hp].
    + cbn [zeros repeat Nat.eqb].
      replace (setPadding t' (Padding t')) with t' by now destruct t'.
      destruct fuel; reflexivity.
    + destruct pad as [|[|[|[|pad]]]]; try lia.
      cbn [Nat.eqb].
      destruct fuel as [|fuel]; [cbn in Hfuel; lia|].
      cbn [decodeFrames zeros repeat Len buf length Nat.ltb Nat.leb].
      rewrite V24Facts.decodeFrame_padding.
      destruct (error_eq_dec errPaddingEncountered errPaddingEncountered)
        as [_|N]; [|now elim N].
      unfold ConsumeAll, Len. cbn [err buf].
      rewrite repeat_length. do 2 f_equal. f_equal. lia.
  - cbn [framesBytes] in *. rewrite <- app_assoc in *.
    pose proof (frameBytes_length f bs (wf_id _ _ _ W)) as L10.
    rewrite length_app in Hfuel.
    destruct fuel as [|fuel]; [lia|].
    cbn [decodeFrames].
    replace (0 <? Len _)%nat with true.
    2:{ symmetry. apply Nat.ltb_lt. unfold Len. cbn [buf].
        rewrite length_app. lia. }
    rewrite (decodeFrame_bytes t t' f bs _ s W Hfl).
    rewrite IH.
    + unfold withFrames, appendFrame, setPadding. cbn.
      now rewrite <- app_assoc.
    + exact Hfl.
    + lia.
Qed.

Lemma decodeHeader_bytes (t t0 : Tag Payload_) (wb : list byte) :
  0 <= Flags t < 128 ->
  len wb < 2 ^ 28 ->
  decodeHeader t0 (readerOn (hdrBytes t (ss 4 (len wb)) ++ wb))
  = (setSize (setFlags t0 (Z.land (Flags t) 15)) (len wb),
     {| buf := if has (Flags t) TagFlagUnsync
               then Unsync.removeUnsyncCodes wb else wb;
        src := []; err := None |},
     None).
Proof.
  intros Hr Hs.
  assert (D : SyncSafe.decodeSyncSafeUint32 (ss 4 (len wb)) = OK (len wb)).
  { apply decode_ss.
    - unfold len. change (7 * Z.of_nat 4) with 28. unfold len in Hs. lia.
    - unfold len in *. change (2 ^ 28) with 268435456 in Hs.
      change (2 ^ 32) with 4294967296. lia. }
  set (fl := byteOf (FlagMap.Encode (headerFlags v24Data) (Flags t))).
  assert (L6 : Load 6 (readerOn (hdrBytes t (ss 4 (len wb)) ++ wb))
               = {| buf := hdrBytes t (ss 4 (len wb)); src := wb;
                    err := None |}) by reflexivity.
  assert (C10 : ConsumeBytes 10 {| buf := hdrBytes t (ss 4 (len wb));
                                   src := wb; err := None |}
                = (hdrBytes t (ss 4 (len wb)),
                   {| buf := []; src := wb; err := None |})) by reflexivity.
  unfold decodeHeader. rewrite L6. cbn [err]. rewrite C10.
  change (nth 4 (hdrBytes t (ss 4 (len wb))) x00) with x00.
  change (b2z x00 =? 0) with true. cbn [negb].
  change (slice (hdrBytes t (ss 4 (len wb))) 6 4) with (ss 4 (len wb)).
  rewrite D.
  change (b2z (nth 5 (hdrBytes t (ss 4 (len wb))) x00))
    with (headerWire (Flags t)).
  rewrite FlagFacts.headerFlags_roundtrip by exact Hr.
  cbn [Size setSize Flags setFlags].
  unfold Load. cbn [err src buf app].
  unfold len. rewrite Nat2Z.id, Nat.leb_refl.
  rewrite firstn_all, skipn_all. cbn [err].
  rewrite FlagFacts.has_land15 by (auto; left; reflexivity).
  destruct (has (Flags t) TagFlagUnsync); reflexivity.
Qed.

Lemma ConsumeBytes_crc (crc : Z) (rest s : list byte) :
  ConsumeBytes 6 {| buf := x05 :: ss 5 crc ++ rest; src := s; err := None |}
  = (x05 :: ss 5 crc, {| buf := rest; src := s; err := None |}).
Proof. reflexivity. Qed.

Lemma decodeExtended_bytes (t t0 : Tag Payload_) (crc : Z)
    (rest : list byte) :
  0 <= Flags t < 128 ->
  (has (Flags t) (Z.lor (Z.lor TagFlagHasCRC TagFlagHasRestrictions)
                        TagFlagIsUpdate) = true ->
   has (Flags t) TagFlagExtended = true) ->
  Flags t0 = Z.land (Flags t) 15 ->
  0 <= crc < 2 ^ 32 ->
  decodeExtended t0
    {| buf := extBytes t (ss 5 crc) ++ rest; src := []; err := None |}
  = (extTag t t0 crc, {| buf := rest; src := []; err := None |}, None).
Proof.
  intros Hr Hx H0 Hc.
  assert (D : SyncSafe.decodeSyncSafeUint32 (ss 5 crc) = OK crc).
  { apply decode_ss; [|lia].
    change (2 ^ 32) with 4294967296 in Hc.
    change (2 ^ (7 * Z.of_nat 5)) with 34359738368. lia. }
  unfold decodeExtended, extBytes, extTag.
  rewrite H0, FlagFacts.has_land15 by (auto; right; reflexivity).
  destruct (has (Flags t) TagFlagExtended) eqn:X; cbn [negb opt app].
  - assert (DX : SyncSafe.decodeSyncSafeUint32 (ss 4 (exSizeOf t))
                 = OK (exSizeOf t)).
    { apply decode_ss; unfold exSizeOf;
        destruct (has (Flags t) TagFlagIsUpdate);
        destruct (has (Flags t) TagFlagHasCRC);
        destruct (has (Flags t) TagFlagHasRestrictions);
        change (7 * Z.of_nat 4) with 28; change (2 ^ 28) with 268435456;
        change (2 ^ 32) with 4294967296; lia. }
    rewrite <- !app_assoc. rewrite ConsumeBytes_ss, DX. cbn [app].
    rewrite !V24Bounds.reader_ConsumeByte_cons.
    change (b2z x01 =? 1) with true. cbn [negb Flags setFlags].
    change (b2z (byteOf (FlagMap.Encode (headerExFlags v24Data) (Flags t))))
      with (headerExWire (Flags t)).
    rewrite FlagFacts.headerExFlags_roundtrip by exact Hr.
    unfold exSizeOf.
    destruct (has (Flags t) TagFlagIsUpdate) eqn:U;
      destruct (has (Flags t) TagFlagHasCRC) eqn:C;
      destruct (has (Flags t) TagFlagHasRestrictions) eqn:R;
      cbn [opt app fst snd];
      rewrite <- ?app_assoc; cbn [app];
      rewrite ?V24Bounds.reader_ConsumeByte_cons; cbn [fst snd];
      rewrite ?ConsumeBytes_crc;
      change (nth 0 (x05 :: ss 5 crc) x00) with x05;
      change (b2z x05 =? 5) with true; cbn [negb];
      change (slice (x05 :: ss 5 crc) 1 5) with (ss 5 crc);
      rewrite ?D; cbn [Flags setCRC setFlags]; rewrite ?R;
      reflexivity.
  - destruct (has (Flags t)
                (Z.lor (Z.lor TagFlagHasCRC TagFlagHasRestrictions)
                   TagFlagIsUpdate)) eqn:P;
      [specialize (Hx eq_refl); discriminate Hx|].
    rewrite (FlagFacts.land15_plain _ Hr P) in H0.
    rewrite !V24Crc.has_lor_r in P.
    apply orb_false_iff in P. destruct P as [P _].
    apply orb_false_iff in P. destruct P as [-> ->].
    destruct t0; cbn in *; subst; reflexivity.
Qed.

End WithEnv.
End V24Decode.

Module V24RoundTrip.
Import Reader V24 V24Layout V24Wire V24Encode V24Decode.

Section WithEnv.
Context {E : Env}.

Lemma Forall_Forall2 {A B} (R : A -> B -> Prop) (l : list A) :
  Forall (fun a => exists b, R a b) l -> exists l', Forall2 R l l'.
Proof.
  induction 1 as [|a l [b Hb] _ [l' IH]].
  - exists []. constructor.
  - exists (b :: l'). now constructor.
Qed.

Lemma padOf_shape (t : Tag Payload_) :
  padOf t = 0%nat \/ (4 <= padOf t)%nat.
Proof.
  unfold padOf. destruct (0 <? Padding t); [right; lia|now left].
Qed.

Lemma padOf_value (t : Tag Payload_) :
  0 <= Padding t ->
  Z.of_nat (padOf t) = if 0 <? Padding t then Z.max 4 (Padding t) else 0.
Proof.
  intros H. unfold padOf. destruct (0 <? Padding t); lia.
Qed.

Lemma encodedSize_bytes (t : Tag Payload_) (bss : list (list byte)) :
  0 <= Flags t < 128 ->
  (has (Flags t) (Z.lor (Z.lor TagFlagHasCRC TagFlagHasRestrictions)
                        TagFlagIsUpdate) = true ->
   has (Flags t) TagFlagExtended = true) ->
  0 <= Padding t ->
  Forall2 (wfFrame t) (Frames t) bss ->
  encodedSize t = len (wireBody t bss).
Proof.
  intros Hr Hx Hp HF. unfold encodedSize, encodeTag, Encode.
  rewrite (encodeStaged_bytes t bss Hr Hx Hp HF).
  fold (bodyBytes t bss). unfold wireBody.
  cbn [Flags stagedTag].
  destruct (has (Flags t) TagFlagUnsync).
  - unfold Writer.ConsumeBytesFromOffset, Writer.setBuf, Writer.StoreBytes.
    cbn [Writer.buf Writer.sink Writer.err].
    change (skipn 10 (hdrBytes t (zeros 4) ++ bodyBytes t bss))
      with (bodyBytes t bss).
    match goal with
    | |- context [Writer.Save ?w] => destruct (Writer.Save w)
    end.
    cbn [fst Size setSize]. unfold Writer.Len. cbn [Writer.buf].
    rewrite length_app. unfold len.
    change (length (firstn 10 (hdrBytes t (zeros 4) ++ bodyBytes t bss)))
      with 10%nat. lia.
  - match goal with
    | |- context [Writer.Save ?w] => destruct (Writer.Save w)
    end.
    cbn [fst Size setSize]. unfold Writer.Len. cbn [Writer.buf].
    rewrite length_app. unfold len.
    change (length (hdrBytes t (zeros 4))) with 10%nat. lia.
Qed.

Lemma decodeStream_bytes (t : Tag Payload_) (bss : list (list byte)) :
  0 <= Flags t < 128 ->
  (has (Flags t) (Z.lor (Z.lor TagFlagHasCRC TagFlagHasRestrictions)
                        TagFlagIsUpdate) = true ->
   has (Flags t) TagFlagExtended = true) ->
  Forall2 (wfFrame t) (Frames t) bss ->
  (has (Flags t) TagFlagUnsync = true ->
   Unsync.hasFF00 (bodyBytes t bss) = false) ->
  len (wireBody t bss) < 2 ^ 28 ->
  decodeStream (hdrBytes t (ss 4 (len (wireBody t bss))) ++ wireBody t bss)
  = (decodedTag t bss, {| buf := []; src := []; err := None |}, None).
Proof.
  intros Hr Hx HF Hu Hs. unfold decodeStream, Decode.
  rewrite (decodeHeader_bytes t freshTag _ Hr Hs).
  replace (if has (Flags t) TagFlagUnsync
           then Unsync.removeUnsyncCodes (wireBody t bss)
           else wireBody t bss)
    with (bodyBytes t bss).
  2:{ unfold wireBody. destruct (has (Flags t) TagFlagUnsync); [|reflexivity].
      symmetry. apply UnsyncFacts.remove_add. now apply Hu. }
  unfold bodyBytes at 1.
  assert (Hc : 0 <= crcOf t bss < 2 ^ 32)
    by apply V24CrcStaged.uint32_range.
  rewrite (decodeExtended_bytes t
             (setSize (setFlags freshTag (Z.land (Flags t) 15))
                (len (wireBody t bss)))
             (crcOf t bss) _ Hr Hx eq_refl Hc).
  set (t0 := extTag t _ _).
  assert (V : validateCRC t0
                {| buf := framesBytes (Frames t) bss ++ zeros (padOf t);
                   src := []; err := None |} = None).
  { unfold validateCRC, t0, extTag. cbn [Flags CRC Bytes buf].
    destruct (has (Flags t) TagFlagHasCRC); [|reflexivity].
    fold (crcOf t bss). now rewrite Z.eqb_refl. }
  rewrite V. unfold Len. cbn [buf].
  rewrite (decodeFrames_bytes t (Frames t) bss (padOf t) [] HF
             (padOf_shape t) _ t0 eq_refl (Nat.le_refl _)).
  f_equal. f_equal. unfold decodedTag, setPadding, withFrames, t0, extTag.
  cbn. f_equal. now destruct (padOf t =? 0)%nat eqn:P;
    [apply Nat.eqb_eq in P; rewrite P|].
Qed.

End WithEnv.
End V24RoundTrip.

(** The round trip is not unconditional.  A tag that [Decode] returns,
    with one frame whose data length indicator (99) is not the length
    of its payload (1): [Encode] writes the length of the payload in
    its place, and the tag decoded from the encoded bytes differs from
    the tag in that frame's header. *)
Lemma data_length_counterexample :
  let stream := [x49; x44; x33; x04; x00; x00; x00; x00; x00; x0f;
                 x58; x58; x58; x58; x00; x00; x00; x05; x00; x01;
                 x00; x00; x00; x63; x61] in
  let t := fst (fst (@V24.decodeStream Opaque.env stream)) in
  let w := snd (fst (@V24.encodeTag Opaque.env t)) in
  let t2 := fst (fst (@V24.decodeStream Opaque.env (Writer.sink w))) in
  snd (@V24.decodeStream Opaque.env stream) = None
  /\ snd (@V24.encodeTag Opaque.env t) = None
  /\ snd (@V24.decodeStream Opaque.env (Writer.sink w)) = None
  /\ map (fun f => V24.DataLength (V24.Header f)) (V24.Frames t) = [99]
  /\ map (fun f => V24.DataLength (V24.Header f)) (V24.Frames t2) = [1]
  /\ V24.Frames t2 <> V24.Frames t.
Proof.
  cbv zeta.
  assert (H1 : map (fun f => V24.DataLength (V24.Header f))
                 (V24.Frames (fst (fst (@V24.decodeStream Opaque.env
                    [x49; x44; x33; x04; x00; x00; x00; x00; x00; x0f;
                     x58; x58; x58; x58; x00; x00; x00; x05; x00; x01;
                     x00; x00; x00; x63; x61])))) = [99])
    by (vm_compute; reflexivity).
  assert (H2 : map (fun f => V24.DataLength (V24.Header f))
                 (V24.Frames (fst (fst (@V24.decodeStream Opaque.env
                    (Writer.sink (snd (fst (@V24.encodeTag Opaque.env
                       (fst (fst (@V24.decodeStream Opaque.env
                    [x49; x44; x33; x04; x00; x00; x00; x00; x00; x0f;
                     x58; x58; x58; x58; x00; x00; x00; x05; x00; x01;
                     x00; x00; x00; x63; x61]))))))))))) = [1])
    by (vm_compute; reflexivity).
  repeat split; try (vm_compute; reflexivity); try assumption.
  intros F. rewrite F in H2. rewrite H1 in H2. discriminate H2.
Qed.

(** X1.  For a tag in the form [Decode] returns it, whose
    frames carry as data length the length of their payload and are
    unsynchronized only with the tag, whose staged bytes hold no 0xFF
    0x00 if the tag is unsynchronized, and whose encoding fits a
    28-bit size: [Encode] succeeds, and [Decode] of the bytes it saves
    succeeds and yields the version, the flags, the restrictions and
    the frames of the tag, the frames in their order; the padding is 0
    or at least 4, and the size and the CRC are the ones [Encode]
    computed. *)
Theorem tag_roundtrip {E : V24.Env} (t : V24.Tag V24.Payload_) :
  V24.wfTag t ->
  (V24.has (V24.Flags t) V24.TagFlagUnsync = true ->
   Unsync.hasFF00 (V24.stagedBody t) = false) ->
  V24.encodedSize t < 2 ^ 28 ->
  exists (t1 : V24.Tag V24.Payload_) (w : Writer.writer)
         (t2 : V24.Tag V24.Payload_) (r : Reader.reader),
    V24.encodeTag t = (t1, w, None)
    /\ V24.decodeStream (Writer.sink w) = (t2, r, None)
    /\ V24.Version t2 = V24.Version t
    /\ V24.Flags t2 = V24.Flags t
    /\ V24.Restrictions t2 = V24.Restrictions t
    /\ V24.Frames t2 = V24.Frames t
    /\ V24.Padding t2
       = (if 0 <? V24.Padding t then Z.max 4 (V24.Padding t) else 0)
    /\ V24.Size t2 = V24.Size t1
    /\ V24.Size t1 = Z.of_nat (length (Writer.sink w)) - 10
    /\ (V24.has (V24.Flags t) V24.TagFlagHasCRC = true ->
        V24.CRC t2 = V24.CRC t1).
Proof.
  intros [Hv Hr Hx Hre Hp Hfs] Hu Hs.
  destruct (V24RoundTrip.Forall_Forall2 _ _ Hfs) as [bss HF].
  rewrite (V24Encode.stagedBody_bytes t bss Hr Hx Hp HF) in Hu.
  rewrite (V24RoundTrip.encodedSize_bytes t bss Hr Hx Hp HF) in Hs.
  eexists _, _, _, _.
  split; [exact (V24Encode.encodeTag_bytes t bss Hr Hx Hp HF Hs)|].
  cbn [Writer.sink].
  split; [exact (V24RoundTrip.decodeStream_bytes t bss Hr Hx HF Hu Hs)|].
  unfold V24Layout.decodedTag, V24Layout.stagedTag.
  cbn [V24.Version V24.Flags V24.Size V24.Padding V24.CRC V24.Restrictions
       V24.Frames V24.setSize].
  repeat split.
  - now rewrite Hv.
  - destruct (V24.has (V24.Flags t) V24.TagFlagHasRestrictions) eqn:R;
      [reflexivity|now rewrite Hre].
  - now apply V24RoundTrip.padOf_value.
  - unfold len. rewrite length_app. cbn [V24Layout.hdrBytes length app].
    rewrite V24Wire.ss_length. lia.
  - intros C. now rewrite C.
Qed.

Lemma tag_roundtrip_witness :
  let f := {| V24.Header :=
                {| V24.FrameID := "XXXX";
                   V24.FrameType_ := V24.FrameTypeUnknown;
                   V24.FSize := 8; V24.FFlags := 136;
                   V24.GroupID := x80; V24.EncryptMethod := x00;
                   V24.DataLength := 3 |};
              V24.Payload := [x41; xff; xe0] |} in
  let t := {| V24.Version := x04; V24.Flags := 35; V24.Size := 0;
              V24.Padding := 2; V24.CRC := 0; V24.Restrictions := x00;
              V24.Frames := [f] |} in
  exists (t1 : V24.Tag (list byte)) (w : Writer.writer)
         (t2 : V24.Tag (list byte)) (r : Reader.reader),
    @V24.encodeTag Opaque.env t = (t1, w, None)
    /\ @V24.decodeStream Opaque.env (Writer.sink w) = (t2, r, None)
    /\ V24.Version t2 = V24.Version t
    /\ V24.Flags t2 = V24.Flags t
    /\ V24.Restrictions t2 = V24.Restrictions t
    /\ V24.Frames t2 = V24.Frames t
    /\ V24.Padding t2
       = (if 0 <? V24.Padding t then Z.max 4 (V24.Padding t) else 0)
    /\ V24.Size t2 = V24.Size t1
    /\ V24.Size t1 = Z.of_nat (length (Writer.sink w)) - 10
    /\ (V24.has (V24.Flags t) V24.TagFlagHasCRC = true ->
        V24.CRC t2 = V24.CRC t1).
Proof.
  cbv zeta. apply (@tag_roundtrip Opaque.env).
  - constructor.
    + reflexivity.
    + cbn [V24.Flags]. lia.
    + intros _. reflexivity.
    + intros _. reflexivity.
    + cbn [V24.Padding]. lia.
    + constructor; [|constructor].
      exists [x41; xff; xe0]. constructor.
      * reflexivity.
      * reflexivity.
      * reflexivity.
      * reflexivity.
      * reflexivity.
      * cbn [V24.Header V24.FFlags]. lia.
      * intros _. reflexivity.
      * intros _. reflexivity.
      * reflexivity.
      * reflexivity.
      * reflexivity.
      * reflexivity.
      * cbn [V24.Header V24.FSize]. change (2 ^ 28) with 268435456. lia.
  - intros _. vm_compute. reflexivity.
  - vm_compute. reflexivity.
Defined.

(** * More of the v2.4 codec: what a decoded frame has taken *)

Module V24Consume.
Import Reader V24.

Lemma ConsumeBytes_inv (n : nat) (r r' : reader) (b : list byte) :
  ConsumeBytes n r = (b, r') -> err r' = None ->
  err r = None /\ buf r = b ++ buf r' /\ length b = n /\ src r' = src r.
Proof.
  unfold ConsumeBytes. destruct (err r) eqn:He.
  - intros [= <- <-] H'. congruence.
  - destruct (Nat.leb_spec n (length (buf r))); intros [= <- <-] H'.
    + cbn. rewrite firstn_skipn, length_firstn. repeat split. lia.
    + discriminate.
Qed.

Lemma remove_length (b : list byte) :
  (length (Unsync.removeUnsyncCodes b) <= length b)%nat.
Proof.
  assert (H : forall n b, (length b <= n)%nat ->
                          (length (Unsync.removeUnsyncCodes b) <= length b)%nat).
  { induction n as [|n IH]; intros c L.
    - destruct c; [cbn; lia|cbn in L; lia].
    - destruct c as [|x [|y tl]]; [cbn; lia|cbn; lia|].
      cbn [length] in L.
      change (Unsync.removeUnsyncCodes (x :: y :: tl))
        with (if (Unsync.isFF x && Unsync.is00 y)%bool
              then x :: Unsync.removeUnsyncCodes tl
              else x :: Unsync.removeUnsyncCodes (y :: tl)).
      destruct (Unsync.isFF x && Unsync.is00 y)%bool; cbn [length].
      + assert (L' : (length tl <= n)%nat) by lia.
        specialize (IH tl L'). lia.
      + assert (L' : (length (y :: tl) <= n)%nat) by (cbn [length]; lia).
        specialize (IH (y :: tl) L'). cbn [length] in IH. lia. }
  exact (H _ _ (Nat.le_refl _)).
Qed.

Lemma decode_nonneg (b : list byte) (v : Z) :
  SyncSafe.decodeSyncSafeUint32 b = OK v -> 0 <= v < 2 ^ 32.
Proof.
  unfold SyncSafe.decodeSyncSafeUint32. destruct (existsb _ _); [discriminate|].
  intros [= <-]. apply V24CrcStaged.uint32_range.
Qed.

Section WithEnv.
Context {E : Env}.

Ltac break_results :=
  repeat match goal with
    | X : OK _ = OK _ |- _ => inversion X; subst; clear X
    | X : Err _ = OK _ |- _ => discriminate X
    | X : OK _ = Err _ |- _ => discriminate X
    | X : context [match ?x with _ => _ end] |- _ => destruct x eqn:?
    | X : context [if ?x then _ else _] |- _ => destruct x eqn:?
    end.

Lemma decodeExtra_keeps (h h' : FrameHeader) (r r' : reader) :
  decodeExtra h r = OK (h', r') ->
  FrameID h' = FrameID h /\ FSize h' = FSize h /\ FFlags h' = FFlags h.
Proof.
  unfold decodeExtra. intros H. break_results; cbn; auto.
Qed.

Lemma ConsumeBytes_err (n : nat) (r r' : reader) (b : list byte) :
  ConsumeBytes n r = (b, r') -> err r' = None -> err r = None.
Proof.
  intros H H'. destruct (ConsumeBytes_inv n r r' b H H') as [A _]. exact A.
Qed.

Lemma ConsumeByte_err (r r' : reader) (b : byte) :
  ConsumeByte r = (b, r') -> err r' = None -> err r = None.
Proof.
  unfold ConsumeByte. destruct (ConsumeBytes 1 r) as [l r1] eqn:C.
  intros [= _ <-] H'. exact (ConsumeBytes_err _ _ _ _ C H').
Qed.

Lemma decodeExtra_err (h h' : FrameHeader) (r r' : reader) :
  decodeExtra h r = OK (h', r') -> err r' = None -> err r = None.
Proof.
  unfold decodeExtra. intros H. break_results;
    eauto 6 using ConsumeBytes_err, ConsumeByte_err.
Qed.

Lemma readFrameHeader_inv (t : Tag Payload_) (r r' sub : reader)
    (h : FrameHeader) :
  readFrameHeader t r = (OK (h, sub), r') -> err sub = None ->
  exists id hd body : list byte,
    buf r = id ++ hd ++ body ++ buf r'
    /\ length id = 4%nat /\ length hd = 6%nat
    /\ FrameID h = string_of_list_byte id
    /\ isPadding id = false
    /\ SyncSafe.decodeSyncSafeUint32 (firstn 4 hd) = OK (FSize h)
    /\ 1 <= FSize h
    /\ FSize h = Z.of_nat (length body)
    /\ src r' = src r /\ err r' = None.
Proof.
  unfold readFrameHeader.
  destruct (ConsumeBytes 4 r) as [id r1] eqn:C1.
  destruct (err r1) eqn:E1; [discriminate|].
  destruct (isPadding id) eqn:P; [discriminate|].
  destruct (ConsumeBytes 6 r1) as [hd r2] eqn:C2.
  destruct (err r2) eqn:E2; [discriminate|].
  destruct (SyncSafe.decodeSyncSafeUint32 _) as [size|] eqn:D; [|discriminate].
  destruct (Z.ltb_spec size 1); [discriminate|].
  cbn [FSize]. unfold ConsumeIntoNewReader.
  destruct (ConsumeBytes (Z.to_nat size) r2) as [b r3] eqn:C3.
  destruct (err r3) eqn:E3.
  - intros [= <- <- <-] Hs. exfalso. revert Hs.
    destruct (_ && _)%bool; cbn; discriminate.
  - intros [= <- _ <-] _. cbn [FSize FrameID].
    apply ConsumeBytes_inv in C1, C2, C3; auto.
    destruct C1 as (_ & B1 & L1 & S1), C2 as (_ & B2 & L2 & S2),
             C3 as (_ & B3 & L3 & S3).
    exists id, hd, b. rewrite B1, B2, B3.
    repeat split; auto; try lia; try congruence.
Qed.

Lemma decodeFrame_inv (t : Tag Payload_) (r r' : reader)
    (f : Frame Payload_) :
  (forall sub id p, ScanFrame sub id = OK p -> err sub = None) ->
  decodeFrame t r = (OK f, r') ->
  exists id hd body : list byte,
    buf r = id ++ hd ++ body ++ buf r'
    /\ length id = 4%nat /\ length hd = 6%nat
    /\ FrameID (Header f) = string_of_list_byte id
    /\ isPadding id = false
    /\ SyncSafe.decodeSyncSafeUint32 (firstn 4 hd) = OK (FSize (Header f))
    /\ 1 <= FSize (Header f)
    /\ FSize (Header f) = Z.of_nat (length body)
    /\ FrameType_ (Header f) = LookupFrameType (FrameID (Header f))
    /\ src r' = src r /\ err r' = None.
Proof.
  intros HS. unfold decodeFrame.
  destruct (readFrameHeader t r) as [[[h sub]|e] r1] eqn:H; [|discriminate].
  destruct (decodeExtra h sub) as [[h' sub']|] eqn:X; [|discriminate].
  destruct (ScanFrame sub' (FrameID h')) as [p|] eqn:S; [|discriminate].
  intros [= <- <-]. cbn [Header SetFrameHeader setFrameType FrameID FSize
                           FrameType_].
  apply HS in S.
  destruct (decodeExtra_keeps _ _ _ _ X) as (K1 & K2 & K3).
  assert (Hsub : err sub = None).
  { now apply (decodeExtra_err _ _ _ _ X). }
  destruct (readFrameHeader_inv t r r1 sub h H Hsub)
    as (id & hd & body & A1 & A2 & A3 & A4 & A5 & A6 & A7 & A8 & A9 & A10).
  exists id, hd, body. rewrite K1, K2. repeat split; auto.
Qed.

Lemma decodeFrames_count (fuel : nat) (t : Tag Payload_) (r : reader) :
  (10 * length (Frames (fst (fst (decodeFrames fuel t r))))
   <= 10 * length (Frames t) + Len r)%nat
  /\ Size (fst (fst (decodeFrames fuel t r))) = Size t.
Proof.
  revert t r. induction fuel as [|fuel IH]; intros t r; cbn [decodeFrames].
  - cbn. split; [lia|reflexivity].
  - destruct (0 <? Len r)%nat; [|cbn; split; [lia|reflexivity]].
    destruct (decodeFrame t r) as [[f|e] r1] eqn:D.
    + apply V24Facts.decodeFrame_shrinks in D.
      destruct (IH (appendFrame t f) r1) as [I1 I2].
      rewrite I2. split; [|reflexivity].
      cbn [appendFrame Frames] in I1. rewrite length_app in I1.
      cbn [length] in I1. unfold Len in *. lia.
    + destruct (error_eq_dec e errPaddingEncountered).
      * destruct (ConsumeAll r1). cbn. split; [lia|reflexivity].
      * cbn. split; [lia|reflexivity].
Qed.

Lemma ConsumeBytes_le (n : nat) (r : reader) :
  (Len (snd (ConsumeBytes n r)) <= Len r)%nat.
Proof.
  destruct (ConsumeBytes n r) as [b r'] eqn:C.
  apply V24Facts.ConsumeBytes_shape in C. unfold Len. cbn [snd].
  destruct C as [(_ & _ & L)|[_ B]]; [lia|rewrite B; lia].
Qed.

Lemma ConsumeByte_le (r : reader) : (Len (snd (ConsumeByte r)) <= Len r)%nat.
Proof.
  unfold ConsumeByte. pose proof (ConsumeBytes_le 1 r) as L.
  destruct (ConsumeBytes 1 r). exact L.
Qed.

Lemma decodeExtended_le (t : Tag Payload_) (r : reader) :
  (Len (snd (fst (decodeExtended t r))) <= Len r)%nat
  /\ Size (fst (fst (decodeExtended t r))) = Size t
  /\ Frames (fst (fst (decodeExtended t r))) = Frames t.
Proof.
  unfold decodeExtended.
  destruct (negb (has (Flags t) TagFlagExtended)); [cbn; auto|].
  pose proof (ConsumeBytes_le 4 r) as L1.
  destruct (ConsumeBytes 4 r) as [b r1]. cbn [snd] in L1.
  destruct (SyncSafe.decodeSyncSafeUint32 b) as [exSize|]; [|cbn; auto].
  pose proof (ConsumeByte_le r1) as L2.
  destruct (ConsumeByte r1) as [fs r2]. cbn [snd] in L2.
  destruct (negb (b2z fs =? 1)); [cbn; split; [lia|auto]|].
  pose proof (ConsumeByte_le r2) as L3.
  destruct (ConsumeByte r2) as [xf r3]. cbn [snd] in L3.
  set (t1 := setFlags t _).
  assert (T1 : Size t1 = Size t /\ Frames t1 = Frames t) by (split; reflexivity).
  clearbody t1.
  pose proof (ConsumeByte_le r3) as L4.
  set (u := if has (Flags t1) TagFlagIsUpdate then _ else _).
  assert (U : (Len (fst u) <= Len r3)%nat).
  { subst u. destruct (has (Flags t1) TagFlagIsUpdate); cbn [fst]; lia. }
  destruct u as [r4 n4]. cbn [fst] in U.
  pose proof (ConsumeBytes_le 6 r4) as L5.
  set (c := if has (Flags t1) TagFlagHasCRC then _ else _).
  assert (C : (Len (snd (fst (fst c))) <= Len r4)%nat
              /\ Size (fst (fst (fst c))) = Size t
              /\ Frames (fst (fst (fst c))) = Frames t).
  { subst c. destruct T1. destruct (has (Flags t1) TagFlagHasCRC);
      [|cbn; auto].
    destruct (ConsumeBytes 6 r4) as [d r5]. cbn [snd] in L5.
    destruct (negb _); [cbn; auto|].
    destruct (SyncSafe.decodeSyncSafeUint32 _); cbn; auto. }
  destruct c as [[[t2 r5] n5] [e|]]; cbn [fst snd] in C;
    destruct C as (C1 & C2 & C3); [cbn; split; [lia|auto]|].
  pose proof (ConsumeByte_le r5) as L6.
  set (d := if has (Flags t2) TagFlagHasRestrictions then _ else _).
  assert (D : (Len (snd (fst (fst d))) <= Len r5)%nat
              /\ Size (fst (fst (fst d))) = Size t
              /\ Frames (fst (fst (fst d))) = Frames t).
  { subst d. destruct (has (Flags t2) TagFlagHasRestrictions);
      [|cbn; auto].
    destruct (ConsumeByte r5) as [one r6]. cbn [snd] in L6.
    destruct (negb _); [cbn; auto|].
    pose proof (ConsumeByte_le r6) as L7.
    destruct (ConsumeByte r6) as [v r7]. cbn [snd] in L7. cbn.
    split; [lia|auto]. }
  destruct d as [[[t3 r6] n6] [e|]]; cbn [fst snd] in D;
    destruct D as (D1 & D2 & D3); [cbn; split; [lia|auto]|].
  set (r7 := if n6 <? exSize then _ else r6).
  assert (R7 : (Len r7 <= Len r6)%nat).
  { subst r7. destruct (n6 <? exSize); [apply ConsumeBytes_le|lia]. }
  destruct (err r7); cbn; split; auto; lia.
Qed.

Ltac errcase :=
  cbn [fst snd Frames Size setSize setFlags];
  split; [reflexivity|];
  split; [intros N; discriminate N|];
  intros _; first [left; reflexivity | right; lia].

Lemma decodeHeader_len (t : Tag Payload_) (r : reader) :
  (length (buf r) <= 4)%nat ->
  Frames (fst (fst (decodeHeader t r))) = Frames t
  /\ (snd (decodeHeader t r) = None ->
      Z.of_nat (Len (snd (fst (decodeHeader t r))))
      <= Size (fst (fst (decodeHeader t r))))
  /\ (snd (decodeHeader t r) <> None ->
      Size (fst (fst (decodeHeader t r))) = Size t
      \/ 0 <= Size (fst (fst (decodeHeader t r)))).
Proof.
  intros L4. unfold decodeHeader.
  pose proof (Z.le_refl 0) as Z0.
  set (r0 := Load 6 r).
  destruct (err r0) eqn:E0; [errcase|].
  assert (L0 : (length (buf r0) <= 10)%nat).
  { subst r0. unfold Load in *. destruct (err r); [lia|].
    destruct (6 <=? length (src r))%nat; cbn [buf err] in *; [|discriminate].
    rewrite length_app, length_firstn. lia. }
  destruct (ConsumeBytes 10 r0) as [hdr r1] eqn:C.
  destruct (negb (b2z (nth 4 hdr x00) =? 0));
    [errcase|].
  destruct (SyncSafe.decodeSyncSafeUint32 _) as [size|] eqn:D;
    [|errcase].
  apply decode_nonneg in D.
  cbn [Size setSize].
  set (r2 := Load (Z.to_nat size) r1).
  destruct (err r2) eqn:E2; [errcase|].
  assert (L2 : Z.of_nat (length (buf r2)) <= size).
  { assert (E1 : err r1 = None).
    { subst r2. unfold Load in E2. destruct (err r1) eqn:X; [|reflexivity].
      congruence. }
    apply V24Facts.ConsumeBytes_shape in C.
    destruct C as [(_ & _ & L)|[N _]]; [|congruence].
    subst r2. unfold Load in *. rewrite E1 in *.
    destruct (Z.to_nat size <=? length (src r1))%nat; cbn [buf err] in *;
      [|discriminate].
    rewrite length_app, length_firstn. lia. }
  cbn [fst snd Frames Size setSize setFlags]. repeat split; auto.
  - intros _. unfold Len.
    destruct (has _ TagFlagUnsync); [|exact L2].
    unfold ConsumeAll. rewrite E2. cbn.
    pose proof (remove_length (buf r2)). lia.
  - intros N. now elim N.
Qed.

End WithEnv.
End V24Consume.

(** X2.  A frame that [decodeFrame] returns has taken exactly its ten
    header bytes and the bytes its size field counts from the tag's
    reader: the ID is the first four bytes, which are not all zero,
    the size is at least 1, and the type is the registry's for the ID.
    The reflector is one that reports a reader that has run out. *)
Theorem decodeFrame_consumes {E : V24.Env} (t : V24.Tag V24.Payload_)
    (r r' : Reader.reader) (f : V24.Frame V24.Payload_) :
  (forall sub id p, V24.ScanFrame sub id = OK p -> Reader.err sub = None) ->
  V24.decodeFrame t r = (OK f, r') ->
  exists id hd body : list byte,
    Reader.buf r = id ++ hd ++ body ++ Reader.buf r'
    /\ length id = 4%nat /\ length hd = 6%nat
    /\ V24.FrameID (V24.Header f) = string_of_list_byte id
    /\ V24.isPadding id = false
    /\ SyncSafe.decodeSyncSafeUint32 (firstn 4 hd)
       = OK (V24.FSize (V24.Header f))
    /\ 1 <= V24.FSize (V24.Header f)
    /\ V24.FSize (V24.Header f) = Z.of_nat (length body)
    /\ V24.FrameType_ (V24.Header f)
       = V24.LookupFrameType (V24.FrameID (V24.Header f))
    /\ Reader.src r' = Reader.src r /\ Reader.err r' = None.
Proof. exact (V24Consume.decodeFrame_inv t r r' f). Qed.

Lemma decodeFrame_consumes_witness :
  exists id hd body : list byte,
    [x58; x58; x58; x58; x00; x00; x00; x02; x00; x00; x61; x62; x00]
    = id ++ hd ++ body ++ [x00]
    /\ length id = 4%nat /\ length hd = 6%nat
    /\ "XXXX"%string = string_of_list_byte id
    /\ V24.isPadding id = false
    /\ SyncSafe.decodeSyncSafeUint32 (firstn 4 hd) = OK 2
    /\ 1 <= 2
    /\ 2 = Z.of_nat (length body)
    /\ V24.FrameTypeUnknown = V24.LookupFrameType "XXXX"
    /\ @nil byte = [] /\ @None error = None.
Proof.
  apply (@decodeFrame_consumes Opaque.env (@V24.freshTag Opaque.env)
           {| Reader.buf := [x58; x58; x58; x58; x00; x00; x00; x02;
                             x00; x00; x61; x62; x00];
              Reader.src := []; Reader.err := None |}
           {| Reader.buf := [x00]; Reader.src := []; Reader.err := None |}
           {| V24.Header :=
                {| V24.FrameID := "XXXX";
                   V24.FrameType_ := V24.FrameTypeUnknown;
                   V24.FSize := 2; V24.FFlags := 0;
                   V24.GroupID := x00; V24.EncryptMethod := x00;
                   V24.DataLength := 0 |};
              V24.Payload := [x61; x62] |}).
  - intros sub id p. cbn. unfold Opaque.ScanFrame.
    destruct (Reader.err sub); [discriminate|reflexivity].
  - vm_compute. reflexivity.
Defined.

(** X3.  The frame loop of [Decode] appends at most one frame for
    every ten bytes its reader holds, and [Decode] itself, called with
    no more than the four bytes the dispatcher has looked at in the
    reader's buffer, appends at most one frame for every ten bytes of
    the size the tag header gives. *)
Theorem decode_frame_count {E : V24.Env} (t : V24.Tag V24.Payload_)
    (r : Reader.reader) :
  (forall fuel : nat,
     (10 * length (V24.Frames (fst (fst (V24.decodeFrames fuel t r))))
      <= 10 * length (V24.Frames t) + Reader.Len r)%nat)
  /\ ((length (Reader.buf r) <= 4)%nat ->
      10 * (Z.of_nat (length (V24.Frames (fst (fst (V24.Decode t r)))))
            - Z.of_nat (length (V24.Frames t)))
      <= Z.max 0 (V24.Size (fst (fst (V24.Decode t r))))).
Proof.
  split.
  - intros fuel. apply V24Consume.decodeFrames_count.
  - intros L4. unfold V24.Decode.
    destruct (V24Consume.decodeHeader_len t r L4) as (H1 & H2 & H3).
    destruct (V24.decodeHeader t r) as [[t1 r1] [e|]]; cbn [fst snd] in *.
    + rewrite H1. lia.
    + specialize (H2 eq_refl).
      destruct (V24Consume.decodeExtended_le t1 r1) as (X1 & X2 & X3).
      destruct (V24.decodeExtended t1 r1) as [[t2 r2] [e|]];
        cbn [fst snd] in *.
      * rewrite X3, H1. lia.
      * destruct (V24.validateCRC t2 r2); cbn [fst].
        -- rewrite X3, H1. lia.
        -- destruct (V24Consume.decodeFrames_count (Reader.Len r2) t2 r2)
             as [F1 F2].
           rewrite F2, X2, X3, H1 in *. lia.
Qed.

Lemma decode_frame_count_witness :
  let t := @V24.freshTag Opaque.env in
  let r := @V24.readerOn
             [x49; x44; x33; x04; x00; x00; x00; x00; x00; x0b;
              x58; x58; x58; x58; x00; x00; x00; x01; x00; x00; x61] in
  10 * (Z.of_nat (length (V24.Frames (fst (fst (@V24.Decode Opaque.env t r)))))
        - Z.of_nat (length (V24.Frames t)))
  <= Z.max 0 (V24.Size (fst (fst (@V24.Decode Opaque.env t r)))).
Proof.
  cbv zeta.
  apply (proj2 (@decode_frame_count Opaque.env (@V24.freshTag Opaque.env)
                  (V24.readerOn
                     [x49; x44; x33; x04; x00; x00; x00; x00; x00; x0b;
                      x58; x58; x58; x58; x00; x00; x00; x01; x00; x00;
                      x61]))).
  cbn. lia.
Defined.

(** * More of the v2.4 codec: what [Encode] writes *)

Module V24Sink.
Import Writer V24 V24Layout WriterFacts V24Staging.

Lemma sink_StoreBytes (b : list byte) (w : writer) :
  sink (StoreBytes b w) = sink w.
Proof. unfold StoreBytes. now destruct (err w). Qed.

Lemma sink_StoreByte (b : byte) (w : writer) : sink (StoreByte b w) = sink w.
Proof. apply sink_StoreBytes. Qed.

Lemma sink_setErr (e : error) (w : writer) : sink (setErr e w) = sink w.
Proof. reflexivity. Qed.

Lemma sink_copyTo (off n : nat) (b : list byte) (w : writer) :
  sink (copyTo off n b w) = sink w.
Proof. reflexivity. Qed.

Lemma sink_putSyncSafe (off n : nat) (v : Z) (w : writer) :
  sink (putSyncSafe off n v w) = sink w.
Proof. reflexivity. Qed.

Ltac sinks :=
  repeat first [ rewrite sink_putSyncSafe | rewrite sink_copyTo
               | rewrite sink_StoreBytes | rewrite sink_StoreByte
               | rewrite sink_setErr ].

Section WithEnv.
Context {E : Env}.

Lemma encodeExtra_sink (h : FrameHeader) (w : writer) :
  sink (fst (encodeExtra h w)) = sink w.
Proof.
  unfold encodeExtra.
  destruct (FFlags h =? 0); [reflexivity|].
  destruct (has (FFlags h) FrameFlagHasGroupID);
    destruct (has (FFlags h) FrameFlagEncrypted);
    destruct (has (FFlags h) FrameFlagHasDataLength);
    destruct (outOfRange (GroupID h));
    destruct (outOfRange (EncryptMethod h));
    cbn [fst]; sinks; reflexivity.
Qed.

Lemma encodeFrame_sink (t : Tag Payload_) (f : Frame Payload_) (w : writer) :
  sink (fst (encodeFrame t f w)) = sink w.
Proof.
  unfold encodeFrame.
  set (w4 := StoreByte _ (StoreByte _ (StoreBytes _ (StoreBytes _ w)))).
  assert (S4 : sink w4 = sink w) by (subst w4; sinks; reflexivity).
  set (h := if has (FFlags (HeaderOf f)) FrameFlagCompressed then _ else _).
  pose proof (encodeExtra_sink h w4) as S5.
  destruct (encodeExtra h w4) as [w5 dlo]. cbn [fst] in S5.
  destruct (if FFlags h =? 0 then None else err w5); [cbn; congruence|].
  destruct (OutputFrame f) as [[payload frameID]|]; [|cbn; congruence].
  cbn [fst]. sinks.
  destruct (_ && _)%bool.
  - unfold ConsumeBytesFromOffset. sinks. cbn [sink setBuf].
    destruct (-1 <? dlo); sinks; congruence.
  - destruct (-1 <? dlo); sinks; congruence.
Qed.

Lemma encodeFrames_sink (t : Tag Payload_) (fs : list (Frame Payload_))
    (w : writer) :
  sink (fst (encodeFrames t fs w)) = sink w.
Proof.
  revert w. induction fs as [|f fs IH]; intros w; cbn [encodeFrames].
  - reflexivity.
  - pose proof (encodeFrame_sink t f w) as S.
    destruct (encodeFrame t f w) as [w1 [e|]]; cbn [fst] in *; [exact S|].
    now rewrite IH.
Qed.

Lemma encodeExtended_sink (t : Tag Payload_) (w : writer) :
  sink (fst (encodeExtended t w)) = sink w.
Proof.
  unfold encodeExtended.
  destruct (negb (has (Flags t) TagFlagExtended)); [reflexivity|].
  destruct (has (Flags t) TagFlagIsUpdate);
    destruct (has (Flags t) TagFlagHasCRC);
    destruct (has (Flags t) TagFlagHasRestrictions);
    cbn [fst]; sinks; reflexivity.
Qed.

Lemma encodeExtended_extends (p : list byte) (t : Tag Payload_) (w : writer) :
  extends p w -> extends p (fst (encodeExtended t w)).
Proof.
  intros H. unfold encodeExtended.
  destruct (negb (has (Flags t) TagFlagExtended)); [exact H|].
  pose proof (ext_len _ _ H) as L.
  destruct (has (Flags t) TagFlagIsUpdate);
    destruct (has (Flags t) TagFlagHasCRC);
    destruct (has (Flags t) TagFlagHasRestrictions);
    cbn [fst]; auto 10 with ext.
Qed.

Lemma encodeStaged_sink (t : Tag Payload_) (w : writer) :
  sink (snd (fst (fst (fst (encodeStaged t w))))) = sink w.
Proof.
  unfold encodeStaged.
  set (t0 := if has (Flags t) _ then _ else t).
  set (w0 := StoreBytes _ w).
  assert (S0 : sink w0 = sink w) by (subst w0; sinks; reflexivity).
  pose proof (encodeExtended_sink t0 w0) as S1.
  destruct (encodeExtended t0 w0) as [w1 crcOffset]. cbn [fst] in S1.
  pose proof (encodeFrames_sink t0 (Frames t0) w1) as S2.
  destruct (encodeFrames t0 (Frames t0) w1) as [w2 [e|]]; cbn [fst] in S2;
    [cbn; congruence|].
  destruct (0 <? Padding t0); destruct (-1 <? crcOffset);
    cbn [fst snd]; sinks; congruence.
Qed.

Lemma err_StoreBytes (b : list byte) (w : writer) :
  err (StoreBytes b w) = err w.
Proof. unfold StoreBytes. now destruct (err w) eqn:X. Qed.

Lemma encodeExtended_offset (p : list byte) (t : Tag Payload_) (w : writer) :
  extends p w ->
  snd (encodeExtended t w) = -1
  \/ Z.of_nat (length p) <= snd (encodeExtended t w).
Proof.
  intros H. unfold encodeExtended.
  destruct (negb (has (Flags t) TagFlagExtended)); [now left|].
  pose proof (ext_len _ _ H) as L.
  assert (L6 : forall b, (length p <= Len (StoreBytes b w))%nat)
    by (intros b; apply ext_len; auto with ext).
  destruct (has (Flags t) TagFlagIsUpdate);
    destruct (has (Flags t) TagFlagHasCRC); cbn [snd]; auto.
  - right.
    pose proof (ext_len p (StoreByte x00 (StoreBytes
                  [x00; x00; x00; x00; x01;
                   byteOf (FlagMap.Encode (headerExFlags v24Data) (Flags t))]
                  w)) ltac:(auto with ext)). lia.
  - right. specialize (L6 [x00; x00; x00; x00; x01;
                   byteOf (FlagMap.Encode (headerExFlags v24Data) (Flags t))]).
    lia.
Qed.

(** The staged bytes begin with the tag header, its size not yet
    filled in. *)
Lemma encodeStaged_header (t : Tag Payload_) (w : writer) :
  buf w = [] -> err w = None ->
  exists x,
    buf (snd (fst (fst (fst (encodeStaged t w)))))
    = hdrBytes (fst (fst (fst (fst (encodeStaged t w))))) (zeros 4) ++ x.
Proof.
  intros Hb He. unfold encodeStaged.
  set (t0 := if has (Flags t) _ then _ else t).
  set (w0 := StoreBytes _ w).
  assert (X0 : extends (hdrBytes t0 (zeros 4)) w0).
  { subst w0. unfold StoreBytes. rewrite He. cbn [buf]. rewrite Hb.
    exists []. now rewrite app_nil_r. }
  pose proof (encodeExtended_extends _ t0 w0 X0) as X1.
  pose proof (encodeExtended_offset _ t0 w0 X0) as O1.
  destruct (encodeExtended t0 w0) as [w1 crcOffset]. cbn [fst snd] in X1, O1.
  pose proof (encodeFrames_extends _ t0 (Frames t0) w1 X1) as X2.
  destruct (encodeFrames t0 (Frames t0) w1) as [w2 [e|]]; cbn [fst] in X2;
    [exact X2|].
  assert (F : forall v, hdrBytes (setPadding t0 v) (zeros 4)
                        = hdrBytes t0 (zeros 4)) by reflexivity.
  assert (G : forall (t1 : Tag Payload_) v,
             hdrBytes (setCRC t1 v) (zeros 4) = hdrBytes t1 (zeros 4))
    by reflexivity.
  destruct (0 <? Padding t0); [destruct (Padding t0 <? 4)|];
    destruct (Z.ltb_spec (-1) crcOffset);
    cbn [fst snd]; rewrite ?G, ?F;
    try (apply ext_putSyncSafe;
         [|destruct O1; [lia|cbn [hdrBytes length app zeros repeat] in *; lia]]);
    auto with ext; exact (ext_StoreBytes _ _ _ X2).
Qed.

End WithEnv.
End V24Sink.

(** X4.  [encodeFrame] checks the bounds of the group ID and of the
    encryption method as [decodeFrame] does: a frame flagged with a
    group ID outside 0x80..0xF0 and not flagged as encrypted is
    refused with [ErrInvalidGroupID], and a frame flagged as encrypted
    with a method outside 0x80..0xF0 with [ErrInvalidEncryptMethod],
    the later check overwriting the error of the earlier one. *)
Theorem encodeFrame_bounds {E : V24.Env} (t : V24.Tag V24.Payload_)
    (f : V24.Frame V24.Payload_) (w : Writer.writer) :
  (V24.has (V24.FFlags (V24.Header f)) V24.FrameFlagHasGroupID = true ->
   V24.has (V24.FFlags (V24.Header f)) V24.FrameFlagEncrypted = false ->
   V24.outOfRange (V24.GroupID (V24.Header f)) = true ->
   snd (V24.encodeFrame t f w) = Some ErrInvalidGroupID)
  /\ (V24.has (V24.FFlags (V24.Header f)) V24.FrameFlagEncrypted = true ->
      V24.outOfRange (V24.EncryptMethod (V24.Header f)) = true ->
      snd (V24.encodeFrame t f w) = Some ErrInvalidEncryptMethod).
Proof.
  assert (NZ : forall x fl, V24.has x fl = true -> (x =? 0) = false).
  { intros x fl H. destruct (Z.eqb_spec x 0) as [->|]; [|reflexivity].
    discriminate H. }
  unfold V24.encodeFrame, V24.HeaderOf.
  set (h := if V24.has (V24.FFlags (V24.Header f)) V24.FrameFlagCompressed
            then _ else V24.Header f).
  assert (HF : forall fl, V24.has (V24.FFlags (V24.Header f)) fl = true ->
                          V24.has (V24.FFlags h) fl = true).
  { intros fl H. subst h. destruct (V24.has _ V24.FrameFlagCompressed); auto.
    cbn [V24.FFlags V24.setHFlags]. rewrite V24Crc.has_lor_l, H. reflexivity. }
  assert (HE : V24.has (V24.FFlags h) V24.FrameFlagEncrypted
               = V24.has (V24.FFlags (V24.Header f)) V24.FrameFlagEncrypted).
  { subst h. destruct (V24.has _ V24.FrameFlagCompressed); auto.
    cbn [V24.FFlags V24.setHFlags]. rewrite V24Crc.has_lor_l.
    change (V24.has V24.FrameFlagHasDataLength V24.FrameFlagEncrypted)
      with false. now rewrite orb_false_r. }
  assert (HG : V24.GroupID h = V24.GroupID (V24.Header f)
               /\ V24.EncryptMethod h = V24.EncryptMethod (V24.Header f)).
  { subst h. destruct (V24.has _ V24.FrameFlagCompressed); auto. }
  destruct HG as [HG HM].
  set (w4 := Writer.StoreByte _ _). clearbody w4. clearbody h.
  split.
  - intros G X O. unfold V24.encodeExtra.
    rewrite (NZ _ _ (HF _ G)), (HF _ G), HE, X, HG, O.
    destruct (V24.has (V24.FFlags h) V24.FrameFlagHasDataLength);
      unfold Writer.StoreByte, Writer.StoreBytes; reflexivity.
  - intros X O. unfold V24.encodeExtra.
    rewrite (NZ _ _ (HF _ X)), (HF _ X), HM, O.
    destruct (V24.has (V24.FFlags h) V24.FrameFlagHasDataLength);
      unfold Writer.StoreByte, Writer.StoreBytes; reflexivity.
Qed.

Lemma encodeFrame_bounds_witness :
  snd (@V24.encodeFrame Opaque.env (@V24.freshTag Opaque.env)
         {| V24.Header :=
              {| V24.FrameID := "XXXX";
                 V24.FrameType_ := V24.FrameTypeUnknown;
                 V24.FSize := 2; V24.FFlags := 8;
                 V24.GroupID := x7f; V24.EncryptMethod := x00;
                 V24.DataLength := 0 |};
            V24.Payload := [x61] |} Writer.empty)
  = Some ErrInvalidGroupID
  /\ snd (@V24.encodeFrame Opaque.env (@V24.freshTag Opaque.env)
            {| V24.Header :=
                 {| V24.FrameID := "XXXX";
                    V24.FrameType_ := V24.FrameTypeUnknown;
                    V24.FSize := 3; V24.FFlags := 40;
                    V24.GroupID := x7f; V24.EncryptMethod := xf1;
                    V24.DataLength := 0 |};
               V24.Payload := [x61] |} Writer.empty)
     = Some ErrInvalidEncryptMethod.
Proof.
  split.
  - apply (proj1 (@encodeFrame_bounds Opaque.env _ _ _)); reflexivity.
  - apply (proj2 (@encodeFrame_bounds Opaque.env _ _ _)); reflexivity.
Defined.

(** X5.  When the encoding of a frame fails, [Encode] returns the
    error of the frame at once, before it saves: the sink holds what
    it held before the call.  (An error of the sink itself is not
    covered: the sink of the model takes every write.) *)
Theorem Encode_frame_error_saves_nothing {E : V24.Env}
    (t t1 : V24.Tag V24.Payload_) (w w1 : Writer.writer)
    (crcOffset : Z) (framesOffset : nat) (e : error) :
  V24.encodeStaged t w = (t1, w1, crcOffset, framesOffset, Some e) ->
  V24.Encode t w = (t1, w1, Some e)
  /\ Writer.sink w1 = Writer.sink w.
Proof.
  intros H. split.
  - unfold V24.Encode. now rewrite H.
  - pose proof (V24Sink.encodeStaged_sink t w) as S.
    rewrite H in S. exact S.
Qed.

Lemma Encode_frame_error_saves_nothing_witness :
  let f := {| V24.Header :=
                {| V24.FrameID := "XXXX";
                   V24.FrameType_ := V24.FrameTypeUnknown;
                   V24.FSize := 2; V24.FFlags := 8;
                   V24.GroupID := x7f; V24.EncryptMethod := x00;
                   V24.DataLength := 0 |};
              V24.Payload := [x61] |} in
  let t := {| V24.Version := x04; V24.Flags := 0; V24.Size := 0;
              V24.Padding := 0; V24.CRC := 0; V24.Restrictions := x00;
              V24.Frames := [f] |} in
  let w := {| Writer.buf := []; Writer.sink := [x41; x42];
              Writer.err := None |} in
  snd (@V24.Encode Opaque.env t w) = Some ErrInvalidGroupID
  /\ Writer.sink (snd (fst (@V24.Encode Opaque.env t w))) = [x41; x42].
Proof.
  cbv zeta.
  match goal with
  | |- snd (V24.Encode ?t ?w) = _ /\ _ =>
      let x := eval vm_compute in (@V24.encodeStaged Opaque.env t w) in
      match x with
      | (?t1, ?w1, ?c, ?o, Some ?e) =>
          destruct (@Encode_frame_error_saves_nothing Opaque.env
                      t t1 w w1 c o e ltac:(vm_compute; reflexivity))
            as [A B];
          rewrite A; split; [reflexivity|exact B]
      end
  end.
Defined.

(** X6.  What [Encode] saves when it succeeds on a writer with
    nothing staged: the ten bytes of the tag header, with the flags of
    the tag as [Encode] leaves it, and behind them as many bytes as the
    tag's size says.  The size field holds that size if it is below
    2^28; a size of 2^28 or more is not reported: the four bytes of
    the field stay zero. *)
Theorem Encode_layout {E : V24.Env} (t t' : V24.Tag V24.Payload_)
    (w w' : Writer.writer) :
  Writer.buf w = [] -> Writer.err w = None ->
  V24.Encode t w = (t', w', None) ->
  exists sz body : list byte,
    Writer.sink w'
    = Writer.sink w
      ++ [x49; x44; x33; x04; x00;
          V24.byteOf (FlagMap.Encode (V24.headerFlags V24.v24Data)
                        (V24.Flags t'))]
      ++ sz ++ body
    /\ length sz = 4%nat
    /\ V24.Size t' = Z.of_nat (length body)
    /\ Writer.buf w' = []
    /\ (V24.Size t' < 2 ^ 28 ->
        SyncSafe.decodeSyncSafeUint32 sz = OK (V24.Size t'))
    /\ (2 ^ 28 <= V24.Size t' < 2 ^ 32 -> sz = zeros 4).
Proof.
  intros Hb He. unfold V24.Encode.
  destruct (V24Sink.encodeStaged_header t w Hb He) as [x Hx].
  pose proof (V24Sink.encodeStaged_sink t w) as Hs.
  destruct (V24.encodeStaged t w) as [[[[t1 w1] c] o] [e1|]];
    [discriminate|].
  cbn [fst snd] in Hx, Hs.
  set (body := if V24.has (V24.Flags t1) V24.TagFlagUnsync
               then Unsync.addUnsyncCodes x else x).
  match goal with
  | |- context [Writer.Len ?v] => set (w2 := v)
  end.
  assert (E2 : Writer.err w2 = Writer.err w1).
  { subst w2. destruct (V24.has (V24.Flags t1) V24.TagFlagUnsync);
      [|reflexivity].
    unfold Writer.ConsumeBytesFromOffset, Writer.StoreBytes, Writer.setBuf.
    cbn [Writer.err]. now destruct (Writer.err w1). }
  destruct (Writer.err w1) eqn:X1.
  { unfold Writer.Save, Writer.putSyncSafe, Writer.setBuf.
    cbn [Writer.err]. rewrite E2. discriminate. }
  assert (W2 : Writer.buf w2 = V24Layout.hdrBytes t1 (zeros 4) ++ body
               /\ Writer.sink w2 = Writer.sink w).
  { subst w2 body. destruct (V24.has (V24.Flags t1) V24.TagFlagUnsync).
    - unfold Writer.ConsumeBytesFromOffset, Writer.StoreBytes, Writer.setBuf.
      cbn [Writer.err Writer.buf Writer.sink]. rewrite Hx, X1.
      change (skipn 10 (V24Layout.hdrBytes t1 (zeros 4) ++ x)) with x.
      change (firstn 10 (V24Layout.hdrBytes t1 (zeros 4) ++ x))
        with (V24Layout.hdrBytes t1 (zeros 4) ++ firstn 0 x).
      cbn [firstn Writer.buf Writer.sink]. rewrite app_nil_r. now split.
    - now split. }
  destruct W2 as (B2 & S2).
  assert (L2 : Z.of_nat (Writer.Len w2) - 10 = Z.of_nat (length body)).
  { unfold Writer.Len. rewrite B2, length_app.
    change (length (V24Layout.hdrBytes t1 (zeros 4))) with 10%nat. lia. }
  rewrite L2. cbn [V24.Size V24.setSize].
  unfold Writer.Save, Writer.putSyncSafe, Writer.setBuf.
  cbn [Writer.err Writer.buf Writer.sink].
  rewrite E2.
  intros [= <- <-]. cbn [Writer.sink Writer.buf V24.Size V24.Flags V24.setSize].
  rewrite S2, B2.
  unfold SyncSafe.putSyncSafe, SyncSafe.encodeSyncSafeUint32.
  change (7 * Z.of_nat 4) with 28.
  destruct (Z.leb_spec (2 ^ 28) (uint32 (Z.of_nat (length body)))) as [G|G].
  - exists (zeros 4), body. repeat split; auto.
    + intros S. exfalso. rewrite V24Wire.uint32_small in G; [lia|].
      change (2 ^ 28) with 268435456 in S.
      change (2 ^ 32) with 4294967296. lia.
  - exists (V24Layout.ss 4 (uint32 (Z.of_nat (length body)))), body.
    pose proof (V24CrcStaged.uint32_range (Z.of_nat (length body))) as R.
    repeat split; auto.
    + f_equal.
      change (V24Layout.hdrBytes t1 (zeros 4) ++ body)
        with ([x49; x44; x33; x04; x00;
               V24.byteOf (FlagMap.Encode (V24.headerFlags V24.v24Data)
                             (V24.Flags t1))] ++ zeros 4 ++ body).
      change 6%nat
        with (length [x49; x44; x33; x04; x00;
                      V24.byteOf (FlagMap.Encode
                                    (V24.headerFlags V24.v24Data)
                                    (V24.Flags t1))]) at 1.
      rewrite V24Wire.patch_mid; reflexivity.
    + intros S. rewrite V24Wire.uint32_small.
      * apply V24Wire.decode_ss; [change (7 * Z.of_nat 4) with 28|]; lia.
      * change (2 ^ 28) with 268435456 in S.
        change (2 ^ 32) with 4294967296. lia.
    + intros S. exfalso. rewrite V24Wire.uint32_small in G; lia.
Qed.

Lemma Encode_layout_witness :
  let f := {| V24.Header :=
                {| V24.FrameID := "XXXX";
                   V24.FrameType_ := V24.FrameTypeUnknown;
                   V24.FSize := 1; V24.FFlags := 0;
                   V24.GroupID := x00; V24.EncryptMethod := x00;
                   V24.DataLength := 0 |};
              V24.Payload := [x61] |} in
  let t := {| V24.Version := x04; V24.Flags := 4; V24.Size := 0;
              V24.Padding := 0; V24.CRC := 0; V24.Restrictions := x00;
              V24.Frames := [f] |} in
  let t' := fst (fst (@V24.Encode Opaque.env t Writer.empty)) in
  let w' := snd (fst (@V24.Encode Opaque.env t Writer.empty)) in
  exists sz body : list byte,
    Writer.sink w'
    = Writer.sink Writer.empty
      ++ [x49; x44; x33; x04; x00;
          V24.byteOf (FlagMap.Encode (V24.headerFlags V24.v24Data)
                        (V24.Flags t'))]
      ++ sz ++ body
    /\ length sz = 4%nat
    /\ V24.Size t' = Z.of_nat (length body)
    /\ Writer.buf w' = []
    /\ (V24.Size t' < 2 ^ 28 ->
        SyncSafe.decodeSyncSafeUint32 sz = OK (V24.Size t'))
    /\ (2 ^ 28 <= V24.Size t' < 2 ^ 32 -> sz = zeros 4).
Proof.
  cbv zeta.
  match goal with
  | |- context [V24.Encode ?t ?w] =>
      apply (@Encode_layout Opaque.env
               t (fst (fst (@V24.Encode Opaque.env t w)))
               w (snd (fst (@V24.Encode Opaque.env t w))));
      [reflexivity | reflexivity |
       assert (H : snd (@V24.Encode Opaque.env t w) = None)
         by (vm_compute; reflexivity);
       rewrite <- H; now destruct (@V24.Encode Opaque.env t w) as [[? ?] ?]]
  end.
Defined.

(** * More of the field scanner of [codec24.go] *)

Module BigEndianFacts.
Import Codec24.

Lemma lor_shift8 (acc b : Z) :
  0 <= acc -> 0 <= b < 256 -> Z.lor (Z.shiftl acc 8) b = acc * 256 + b.
Proof.
  intros Ha Hb.
  rewrite Z.shiftl_mul_pow2 by lia. change (2 ^ 8) with 256.
  rewrite <- Z.lxor_lor, <- Z.add_nocarry_lxor; try reflexivity.
  all: apply Z.bits_inj'; intros n Hn; rewrite Z.land_spec, Z.bits_0.
  all: destruct (Z.ltb_spec n 8).
  all: try (replace (acc * 256) with (acc * 2 ^ 8) by lia;
            rewrite Z.mul_pow2_bits_low by lia; reflexivity).
  all: rewrite (Z.bits_above_log2 b n), andb_false_r; try reflexivity; try lia.
  all: destruct (Z.eq_dec b 0) as [->|]; [simpl; lia|].
  all: apply Z.log2_lt_pow2; try lia.
  all: apply Z.lt_le_trans with (2 ^ 8); [simpl; lia|].
  all: apply Z.pow_le_mono_r; lia.
Qed.

Lemma fold_step (b : list byte) (acc : Z) :
  0 <= acc ->
  fold_left (fun value x => Z.lor (Z.shiftl value 8) (b2z x)) b acc
  = acc * 256 ^ Z.of_nat (length b) + bigEndian b
  /\ 0 <= bigEndian b < 256 ^ Z.of_nat (length b).
Proof.
  unfold bigEndian.
  revert acc. induction b as [|x b IH]; intros acc Ha.
  - cbn. lia.
  - cbn [fold_left length].
    pose proof (b2z_range x) as Hx.
    rewrite !lor_shift8 by lia.
    destruct (IH (acc * 256 + b2z x) ltac:(lia)) as [I1 I2].
    destruct (IH (0 * 256 + b2z x) ltac:(lia)) as [J1 _].
    rewrite I1, J1.
    replace (Z.of_nat (S (length b))) with (Z.of_nat (length b) + 1) by lia.
    rewrite Z.pow_add_r by lia. change (256 ^ 1) with 256.
    set (P := 256 ^ Z.of_nat (length b)) in *.
    set (F := fold_left _ b 0) in *.
    assert (HP : 0 < P) by (apply Z.pow_pos_nonneg; lia).
    split; [ring|].
    assert (b2z x * P <= 255 * P) by (apply Z.mul_le_mono_nonneg_r; lia).
    assert (0 <= b2z x * P) by (apply Z.mul_nonneg_nonneg; lia).
    lia.
Qed.

Lemma bigEndian_app (a b : list byte) :
  bigEndian (a ++ b)
  = bigEndian a * 256 ^ Z.of_nat (length b) + bigEndian b.
Proof.
  unfold bigEndian at 1. rewrite fold_left_app.
  destruct (fold_step a 0 ltac:(lia)) as [_ A].
  fold (bigEndian a).
  destruct (fold_step b (bigEndian a) ltac:(lia)) as [B _].
  exact B.
Qed.

Lemma bigEndian_range (b : list byte) :
  0 <= bigEndian b < 256 ^ Z.of_nat (length b).
Proof. now destruct (fold_step b 0 ltac:(lia)). Qed.

(** Of a counter wider than eight bytes only the last eight count. *)
Lemma uint64_last8 (pre last : list byte) :
  length last = 8%nat -> uint64 (bigEndian (pre ++ last)) = bigEndian last.
Proof.
  intros L. rewrite bigEndian_app. unfold uint64.
  pose proof (bigEndian_range last) as R. rewrite L in *.
  change (256 ^ Z.of_nat 8) with (2 ^ 64) in *.
  rewrite Z.add_comm, Z.mod_add by (cbv; discriminate).
  now apply Z.mod_small.
Qed.

Lemma uint64_short (b : list byte) :
  (length b <= 8)%nat -> uint64 (bigEndian b) = bigEndian b.
Proof.
  intros L. unfold uint64. apply Z.mod_small.
  pose proof (bigEndian_range b) as R. split; [lia|].
  apply Z.lt_le_trans with (256 ^ Z.of_nat (length b)); [lia|].
  change (2 ^ 64) with (256 ^ 8). apply Z.pow_le_mono_r; lia.
Qed.

End BigEndianFacts.

Module Codec24More.
Import Scanner Codec24.

Lemma isErr_true (s : scanner) : err s <> None -> isErr s = true.
Proof. unfold isErr. destruct (err s); [reflexivity|congruence]. Qed.

Lemma isErr_false (s : scanner) : err s = None -> isErr s = false.
Proof. unfold isErr. now intros ->. Qed.

Lemma scanner_ConsumeBytes_app (b rest : list byte) (cnt : Z) :
  ConsumeBytes (length b) {| buf := b ++ rest; n := cnt; err := None |}
  = (b, {| buf := rest; n := cnt; err := None |}).
Proof.
  unfold ConsumeBytes. cbn [err buf].
  replace (length b <=? length (b ++ rest))%nat with true
    by (symmetry; apply Nat.leb_le; rewrite length_app; lia).
  rewrite firstn_app, Nat.sub_diag, firstn_all, skipn_app, Nat.sub_diag,
    skipn_all. cbn. now rewrite app_nil_r.
Qed.

Lemma ConsumeBytes_short (k : nat) (s : scanner) :
  err s = None -> (length (buf s) < k)%nat ->
  ConsumeBytes k s
  = (zeros k, {| buf := buf s; n := n s; err := Some ErrUnexpectedEOF |}).
Proof.
  intros He L. unfold ConsumeBytes. rewrite He.
  destruct (Nat.leb_spec k (length (buf s))); [lia|reflexivity].
Qed.

Lemma Read_inv (r r' : list byte) (k : nat) (s s' : scanner) :
  Read r k s = (s', r') -> err s' = None ->
  err s = None /\ r = firstn k r ++ r' /\ length (firstn k r) = k
  /\ buf s' = buf s ++ firstn k r /\ n s' = n s + Z.of_nat k.
Proof.
  unfold Read. destruct (err s) eqn:He.
  - intros [= <- <-] Hn. congruence.
  - destruct (Nat.leb_spec k (length r)); intros [= <- <-] Hn; [|discriminate].
    cbn. rewrite firstn_skipn, length_firstn. repeat split. lia.
Qed.

Lemma Read_err (r r' : list byte) (k : nat) (s s' : scanner) (e : error) :
  Read r k s = (s', r') -> err s = None -> err s' = Some e ->
  e = ErrUnexpectedEOF.
Proof.
  unfold Read. intros H He. rewrite He in H.
  destruct (k <=? length r)%nat; inversion H; subst; cbn; congruence.
Qed.

Lemma decode_err (b : list byte) (e : error) :
  SyncSafe.decodeSyncSafeUint32 b = Err e -> e = ErrInvalidSync.
Proof.
  unfold SyncSafe.decodeSyncSafeUint32. destruct (existsb _ _); congruence.
Qed.

Lemma isPadding_zeros (id : list byte) :
  length id = 4%nat -> V24.isPadding id = true ->
  id = [x00; x00; x00; x00].
Proof.
  destruct id as [|a [|b [|c [|d [|]]]]]; try discriminate. intros _.
  unfold V24.isPadding. cbn [nth]. intros H.
  repeat (apply andb_prop in H; destruct H as [H ?]).
  repeat match goal with
         | X : (b2z _ =? 0) = true |- _ =>
             apply Z.eqb_eq in X; apply (b2z_inj _ x00) in X
         end.
  now subst.
Qed.

Lemma ConsumeByte_n (s : scanner) : n (snd (ConsumeByte s)) = n s.
Proof.
  unfold ConsumeByte, ConsumeBytes. destruct (err s); [reflexivity|].
  destruct (_ <=? _)%nat; reflexivity.
Qed.

Lemma ConsumeBytes_n (k : nat) (s : scanner) :
  n (snd (ConsumeBytes k s)) = n s.
Proof.
  unfold ConsumeBytes. destruct (err s); [reflexivity|].
  destruct (_ <=? _)%nat; reflexivity.
Qed.

(** [scanExtraHeaderData] keeps the byte count, the ID and the size,
    and the errors it leaves are three. *)
Lemma scanExtra_keeps (s : scanner) (h : FrameHeader) :
  n (fst (scanExtraHeaderData s h)) = n s
  /\ FrameID (snd (scanExtraHeaderData s h)) = FrameID h
  /\ Size (snd (scanExtraHeaderData s h)) = Size h
  /\ Flags (snd (scanExtraHeaderData s h)) = Flags h
  /\ (forall e, err (fst (scanExtraHeaderData s h)) = Some e ->
      e = ErrInvalidFrameFlags \/ e = ErrInvalidFrameHeader
      \/ e = ErrInvalidSync \/ err s = Some e).
Proof.
  unfold scanExtraHeaderData.
  destruct (_ && _)%bool;
    [cbn; repeat split; auto; intros e [= <-]; auto|].
  pose proof (ConsumeByte_n s) as N1.
  destruct (V24.has (Flags h) V24.FrameFlagHasGroupID).
  - destruct (ConsumeByte s) as [gid s1] eqn:C1. cbn [snd] in N1.
    destruct (isErr s1 || badSymbol gid)%bool eqn:B1;
      [cbn; repeat split; auto; intros e [= <-]; auto|].
    apply orb_false_iff in B1. destruct B1 as [B1 _].
    assert (E1 : err s1 = None)
      by (unfold isErr in B1; destruct (err s1); congruence).
    cbn [Flags setGroupID].
    pose proof (ConsumeByte_n s1) as N2.
    destruct (V24.has (Flags h) V24.FrameFlagEncrypted).
    + destruct (ConsumeByte s1) as [em s2] eqn:C2. cbn [snd] in N2.
      destruct (isErr s2 || badSymbol em)%bool eqn:B2;
        [cbn; repeat split; auto; try congruence; intros e [= <-]; auto|].
      cbn [Flags setEncryptMethod setGroupID].
      pose proof (ConsumeBytes_n 4 s2) as N3.
      destruct (V24.has (Flags h) V24.FrameFlagHasDataLength).
      * destruct (ConsumeBytes 4 s2) as [b s3]. cbn [snd] in N3.
        destruct (SyncSafe.decodeSyncSafeUint32 b) eqn:D;
          destruct (isErr s3); cbn; repeat split; auto; try congruence;
          intros e' [= <-]; apply decode_err in D; auto.
      * apply orb_false_iff in B2. destruct B2 as [B2 _].
        assert (E2 : err s2 = None)
          by (unfold isErr in B2; destruct (err s2); congruence).
        cbn. repeat split; auto; try congruence.
    + cbn [Flags setEncryptMethod setGroupID].
      pose proof (ConsumeBytes_n 4 s1) as N3.
      destruct (V24.has (Flags h) V24.FrameFlagHasDataLength).
      * destruct (ConsumeBytes 4 s1) as [b s3]. cbn [snd] in N3.
        destruct (SyncSafe.decodeSyncSafeUint32 b) eqn:D;
          destruct (isErr s3); cbn; repeat split; auto; try congruence;
          intros e' [= <-]; apply decode_err in D; auto.
      * cbn. repeat split; auto; try congruence.
  - pose proof (ConsumeByte_n s) as N2.
    destruct (V24.has (Flags h) V24.FrameFlagEncrypted).
    + destruct (ConsumeByte s) as [em s2] eqn:C2. cbn [snd] in N2.
      destruct (isErr s2 || badSymbol em)%bool eqn:B2;
        [cbn; repeat split; auto; try congruence; intros e [= <-]; auto|].
      cbn [Flags setEncryptMethod setGroupID].
      pose proof (ConsumeBytes_n 4 s2) as N3.
      destruct (V24.has (Flags h) V24.FrameFlagHasDataLength).
      * destruct (ConsumeBytes 4 s2) as [b s3]. cbn [snd] in N3.
        destruct (SyncSafe.decodeSyncSafeUint32 b) eqn:D;
          destruct (isErr s3); cbn; repeat split; auto; try congruence;
          intros e' [= <-]; apply decode_err in D; auto.
      * apply orb_false_iff in B2. destruct B2 as [B2 _].
        assert (E2 : err s2 = None)
          by (unfold isErr in B2; destruct (err s2); congruence).
        cbn. repeat split; auto; try congruence.
    + pose proof (ConsumeBytes_n 4 s) as N3.
      destruct (V24.has (Flags h) V24.FrameFlagHasDataLength).
      * destruct (ConsumeBytes 4 s) as [b s3]. cbn [snd] in N3.
        destruct (SyncSafe.decodeSyncSafeUint32 b) eqn:D;
          destruct (isErr s3); cbn; repeat split; auto; try congruence;
          intros e' [= <-]; apply decode_err in D; auto.
      * cbn. repeat split; auto.
Qed.

(** What [DecodeFrame] has read when it goes on to scan the payload,
    and the errors it ends with before that. *)
Lemma readFrame_inv (c : codec24) (tf : Z) (r r' : list byte) :
  match readFrame c tf r with
  | (inr (s, h), r') =>
      exists frame, r = frame ++ r'
        /\ Z.of_nat (length frame) = 10 + Size h
        /\ 1 <= Size h
        /\ FrameID h = string_of_list_byte (firstn 4 frame)
        /\ n s = 10 + Size h
  | (inl (cnt, e), r') =>
      e = errPaddingEncountered ->
      cnt = 4 /\ r = x00 :: x00 :: x00 :: x00 :: r'
  end.
Proof.
  unfold readFrame. cbv zeta.
  destruct (Read r 4 Scanner.empty) as [s1 r1] eqn:R1.
  destruct (err s1) as [e1|] eqn:E1.
  { intros ->. now apply (Read_err _ _ _ _ _ _ R1 eq_refl) in E1. }
  destruct (Read_inv _ _ _ _ _ R1 E1) as (_ & A1 & L1 & B1 & N1).
  unfold ConsumeAll at 1. rewrite E1. cbn [Scanner.empty buf n app] in *.
  rewrite B1.
  destruct (V24.isPadding (firstn 4 r)) eqn:P.
  { intros _. cbn [n]. split; [lia|].
    apply (isPadding_zeros _ L1) in P. rewrite P in A1. exact A1. }
  set (s1' := {| buf := []; n := n s1; err := None |}).
  destruct (Read r1 6 s1') as [s2 r2] eqn:R2.
  destruct (err s2) as [e2|] eqn:E2.
  { intros ->. now apply (Read_err _ _ _ _ _ _ R2 eq_refl) in E2. }
  destruct (Read_inv _ _ _ _ _ R2 E2) as (_ & A2 & L2 & B2 & N2).
  unfold ConsumeAll at 1. rewrite E2. cbn [buf n app s1'] in *.
  rewrite B2.
  destruct (SyncSafe.decodeSyncSafeUint32 _) as [size|e3] eqn:D.
  2:{ intros ->. now apply decode_err in D. }
  destruct (Z.ltb_spec size 1); [discriminate|].
  cbn [Size Flags FrameID].
  set (s2' := {| buf := []; n := n s2; err := None |}).
  destruct (Read r2 (Z.to_nat size) s2') as [s3 r3] eqn:R3.
  destruct (err s3) as [e4|] eqn:E3.
  { intros ->. now apply (Read_err _ _ _ _ _ _ R3 eq_refl) in E3. }
  destruct (Read_inv _ _ _ _ _ R3 E3) as (_ & A3 & L3 & B3 & N3).
  cbn [n s2'] in N3.
  set (h := {| FrameID := _; Size := size; Flags := _; GroupID := x00;
               EncryptMethod := x00; DataLength := 0 |}).
  set (s4 := if (_ && _)%bool then _ else s3).
  assert (S4 : n s4 = n s3 /\ err s4 = None).
  { subst s4. destruct (_ && _)%bool; cbn; auto. }
  destruct S4 as [N4 E4].
  assert (FR : r = (firstn 4 r ++ firstn 6 r1 ++ firstn (Z.to_nat size) r2)
                   ++ r3).
  { rewrite <- !app_assoc. rewrite <- A3, <- A2. exact A1. }
  assert (LF : Z.of_nat (length (firstn 4 r ++ firstn 6 r1
                                 ++ firstn (Z.to_nat size) r2)) = 10 + size).
  { rewrite !length_app, L1, L2, L3. lia. }
  assert (ID : string_of_list_byte (slice (firstn 4 r) 0 4)
               = string_of_list_byte
                   (firstn 4 (firstn 4 r ++ firstn 6 r1
                              ++ firstn (Z.to_nat size) r2))).
  { unfold slice. cbn [skipn]. rewrite firstn_app, L1. cbn [firstn Nat.sub].
    now rewrite app_nil_r. }
  destruct (negb (_ =? 0)) eqn:NZ.
  - destruct (scanExtra_keeps s4 h) as (K1 & K2 & K3 & KF & K4).
    fold h. destruct (scanExtraHeaderData s4 h) as [s5 h5].
    cbn [fst snd] in *. rewrite KF. cbn [Flags h]. rewrite NZ.
    destruct (err s5) as [e5|] eqn:E5.
    + intros ->. destruct (K4 _ eq_refl) as [X|[X|[X|X]]]; congruence.
    + exists (firstn 4 r ++ firstn 6 r1 ++ firstn (Z.to_nat size) r2).
      rewrite K2, K3. cbn [Size FrameID h]. repeat split; auto; lia.
  - assert (NZ' : negb (Flags h =? 0) = false) by exact NZ.
    rewrite NZ'.
    exists (firstn 4 r ++ firstn 6 r1 ++ firstn (Z.to_nat size) r2).
    cbn [Size FrameID h]. repeat split; auto; lia.
Qed.

End Codec24More.

(** X7.  The first error of a scan wins: once the scan of the leading
    fields of a struct has ended with an error, the fields that follow
    consume nothing, and the scan of the whole struct leaves the
    scanner (its bytes, its byte count and that error) and the scan
    state as the leading fields left them. *)
Theorem scan_first_error_wins {E : Codec24.Env} (c : Codec24.codec24)
    (fuel : nat) (s s1 : Scanner.scanner) (name : string)
    (pre post : list Codec24.field) (st st1 : Codec24.state)
    (vs1 : list Codec24.value) :
  Codec24.scanStruct c fuel s name pre st = (s1, st1, vs1) ->
  Scanner.err s1 <> None ->
  exists vs, Codec24.scanStruct c fuel s name (pre ++ post) st = (s1, st1, vs).
Proof.
  intros H He. destruct fuel as [|fuel]; cbn [Codec24.scanStruct] in *.
  - exists []. now inversion H.
  - destruct (String.eqb name "FrameHeader"); [exists []; now inversion H|].
    rewrite fold_left_app, H.
    apply Codec24Facts.scanFields_sticky.
    + now apply Codec24More.isErr_true.
    + intros. now apply Codec24Facts.scanStruct_sticky.
Qed.

Lemma scan_first_error_wins_witness :
  exists vs,
    @Codec24.scanStruct Latin1.env Codec24.newCodec24 2
      {| Scanner.buf := [x04; x48; x69]; Scanner.n := 13;
         Scanner.err := None |}
      "FrameText"
      ([("Encoding"%string, [], Codec24.TUint8 "Encoding"%string)]
       ++ [("Text"%string, [], Codec24.TStringSlice)])
      {| Codec24.frameID := "TIT2"; Codec24.encoding := x00 |}
    = ({| Scanner.buf := [x48; x69]; Scanner.n := 13;
          Scanner.err := Some ErrInvalidFrame |},
       {| Codec24.frameID := "TIT2"; Codec24.encoding := x00 |}, vs).
Proof.
  eapply (@scan_first_error_wins Latin1.env).
  - vm_compute. reflexivity.
  - discriminate.
Defined.

(** X8.  A 16-bit field: under the [tempo] tag one byte below 255 is
    the value, and a byte 255 is followed by a second byte that is
    added to it; without the tag the two bytes are the value, most
    significant first. *)
Theorem scanUint16_values (s : Scanner.scanner) (tags : list string)
    (st : Codec24.state) (b b2 : byte) (rest : list byte) :
  Scanner.err s = None ->
  (Codec24.hasTag tags "tempo" = true -> b2z b <> 255 ->
   Scanner.buf s = b :: rest ->
   Codec24.scanUint16 s tags st
   = ({| Scanner.buf := rest; Scanner.n := Scanner.n s;
         Scanner.err := None |}, st, Codec24.VUint (b2z b)))
  /\ (Codec24.hasTag tags "tempo" = true -> b2z b = 255 ->
      Scanner.buf s = b :: b2 :: rest ->
      Codec24.scanUint16 s tags st
      = ({| Scanner.buf := rest; Scanner.n := Scanner.n s;
            Scanner.err := None |}, st, Codec24.VUint (255 + b2z b2)))
  /\ (Codec24.hasTag tags "tempo" = false ->
      Scanner.buf s = b :: b2 :: rest ->
      Codec24.scanUint16 s tags st
      = ({| Scanner.buf := rest; Scanner.n := Scanner.n s;
            Scanner.err := None |}, st,
         Codec24.VUint (b2z b * 256 + b2z b2))).
Proof.
  intros He. destruct s as [sb cnt se]. cbn in He. subst se.
  pose proof (b2z_range b) as Rb. pose proof (b2z_range b2) as Rb2.
  unfold Codec24.scanUint16. cbn [Codec24.isErr Scanner.err Scanner.buf
                                  Scanner.n].
  split; [|split].
  - intros T N ->. rewrite T, Codec24Facts.scanner_ConsumeByte_cons.
    destruct (Z.eqb_spec (b2z b) 255); [contradiction|]. reflexivity.
  - intros T N ->. rewrite T, Codec24Facts.scanner_ConsumeByte_cons.
    rewrite N. cbn [Z.eqb Pos.eqb].
    rewrite Codec24Facts.scanner_ConsumeByte_cons.
    cbn [Codec24.isErr Scanner.err]. unfold uint16.
    rewrite Z.mod_small; [reflexivity|].
    change (2 ^ 16) with 65536. lia.
  - intros T ->. rewrite T.
    change (b :: b2 :: rest) with ([b; b2] ++ rest).
    pose proof (Codec24More.scanner_ConsumeBytes_app [b; b2] rest cnt) as C.
    cbn [length] in C. rewrite C. cbn [Codec24.isErr Scanner.err nth].
    rewrite BigEndianFacts.lor_shift8 by lia. reflexivity.
Qed.

Lemma scanUint16_values_witness :
  Codec24.scanUint16
    {| Scanner.buf := [x78; x01]; Scanner.n := 0; Scanner.err := None |}
    ["tempo"%string] {| Codec24.frameID := "SYTC"; Codec24.encoding := x00 |}
  = ({| Scanner.buf := [x01]; Scanner.n := 0; Scanner.err := None |},
     {| Codec24.frameID := "SYTC"; Codec24.encoding := x00 |},
     Codec24.VUint (b2z x78))
  /\ Codec24.scanUint16
       {| Scanner.buf := [xff; x2d; x01]; Scanner.n := 0;
          Scanner.err := None |}
       ["tempo"%string]
       {| Codec24.frameID := "SYTC"; Codec24.encoding := x00 |}
     = ({| Scanner.buf := [x01]; Scanner.n := 0; Scanner.err := None |},
        {| Codec24.frameID := "SYTC"; Codec24.encoding := x00 |},
        Codec24.VUint (255 + b2z x2d))
  /\ Codec24.scanUint16
       {| Scanner.buf := [x01; x02; x03]; Scanner.n := 0;
          Scanner.err := None |}
       [] {| Codec24.frameID := "XXXX"; Codec24.encoding := x00 |}
     = ({| Scanner.buf := [x03]; Scanner.n := 0; Scanner.err := None |},
        {| Codec24.frameID := "XXXX"; Codec24.encoding := x00 |},
        Codec24.VUint (b2z x01 * 256 + b2z x02)).
Proof.
  split; [|split].
  - apply (proj1 (scanUint16_values
                    {| Scanner.buf := [x78; x01]; Scanner.n := 0;
                       Scanner.err := None |} ["tempo"%string]
                    {| Codec24.frameID := "SYTC"; Codec24.encoding := x00 |}
                    x78 x00 [x01] eq_refl));
      [reflexivity|vm_compute; discriminate|reflexivity].
  - apply (proj1 (proj2 (scanUint16_values
                    {| Scanner.buf := [xff; x2d; x01]; Scanner.n := 0;
                       Scanner.err := None |} ["tempo"%string]
                    {| Codec24.frameID := "SYTC"; Codec24.encoding := x00 |}
                    xff x2d [x01] eq_refl))); reflexivity.
  - apply (proj2 (proj2 (scanUint16_values
                    {| Scanner.buf := [x01; x02; x03]; Scanner.n := 0;
                       Scanner.err := None |} []
                    {| Codec24.frameID := "XXXX"; Codec24.encoding := x00 |}
                    x01 x02 [x03] eq_refl))); reflexivity.
Defined.

(** X9.  A 64-bit field under the [counter] tag takes all the bytes
    that are left, however many, and its value is their big-endian
    number modulo 2^64: up to eight bytes count in full (none give 0),
    and of more than eight only the last eight count.  Without the tag
    the field takes eight bytes, and fewer than eight end the scan
    with [ErrInvalidFrame], whatever the error of the scanner was. *)
Theorem scanUint64_counter (s : Scanner.scanner) (tags : list string)
    (st : Codec24.state) :
  Scanner.err s = None ->
  (Codec24.hasTag tags "counter" = true ->
   Codec24.scanUint64 s tags st
   = ({| Scanner.buf := []; Scanner.n := Scanner.n s; Scanner.err := None |},
      st, Codec24.VUint (Codec24.uint64 (Codec24.bigEndian (Scanner.buf s))))
   /\ ((length (Scanner.buf s) <= 8)%nat ->
       Codec24.uint64 (Codec24.bigEndian (Scanner.buf s))
       = Codec24.bigEndian (Scanner.buf s))
   /\ (forall pre last, Scanner.buf s = pre ++ last -> length last = 8%nat ->
       Codec24.uint64 (Codec24.bigEndian (Scanner.buf s))
       = Codec24.bigEndian last))
  /\ (Codec24.hasTag tags "counter" = false ->
      (length (Scanner.buf s) < 8)%nat ->
      Codec24.scanUint64 s tags st
      = ({| Scanner.buf := Scanner.buf s; Scanner.n := Scanner.n s;
            Scanner.err := Some ErrInvalidFrame |}, st, Codec24.VZero)).
Proof.
  intros He. unfold Codec24.scanUint64.
  rewrite (Codec24More.isErr_false s He). split.
  - intros T. rewrite T. unfold Scanner.ConsumeAll. rewrite He.
    cbn [Codec24.isErr Scanner.err]. repeat split.
    + apply BigEndianFacts.uint64_short.
    + intros pre last -> L. now apply BigEndianFacts.uint64_last8.
  - intros T L. rewrite T, (Codec24More.ConsumeBytes_short 8 s He L).
    reflexivity.
Qed.

Lemma scanUint64_counter_witness :
  let s := {| Scanner.buf := [x01; x00; x00; x00; x00; x00; x00; x00; x2a];
              Scanner.n := 19; Scanner.err := None |} in
  let st := {| Codec24.frameID := "PCNT"; Codec24.encoding := x00 |} in
  Codec24.scanUint64 s ["counter"%string] st
  = ({| Scanner.buf := []; Scanner.n := 19; Scanner.err := None |}, st,
     Codec24.VUint (Codec24.uint64 (Codec24.bigEndian (Scanner.buf s))))
  /\ Codec24.uint64 (Codec24.bigEndian (Scanner.buf s))
     = Codec24.bigEndian [x00; x00; x00; x00; x00; x00; x00; x2a]
  /\ Codec24.scanUint64
       {| Scanner.buf := [x00; x2a]; Scanner.n := 12; Scanner.err := None |}
       [] st
     = ({| Scanner.buf := [x00; x2a]; Scanner.n := 12;
           Scanner.err := Some ErrInvalidFrame |}, st, Codec24.VZero).
Proof.
  cbv zeta. split; [|split].
  - apply (proj1 (scanUint64_counter
                    {| Scanner.buf := [x01; x00; x00; x00; x00; x00; x00;
                                       x00; x2a];
                       Scanner.n := 19; Scanner.err := None |}
                    ["counter"%string] _ eq_refl)). reflexivity.
  - apply (proj1 (scanUint64_counter
                    {| Scanner.buf := [x01; x00; x00; x00; x00; x00; x00;
                                       x00; x2a];
                       Scanner.n := 19; Scanner.err := None |}
                    ["counter"%string]
                    {| Codec24.frameID := "PCNT"; Codec24.encoding := x00 |}
                    eq_refl) eq_refl) with (pre := [x01]); reflexivity.
  - apply (proj2 (scanUint64_counter
                    {| Scanner.buf := [x00; x2a]; Scanner.n := 12;
                       Scanner.err := None |} [] _ eq_refl));
      [reflexivity|cbn; lia].
Defined.

(** X10.  [DecodeFrame] of [codec24.go] reports padding on four zero
    bytes and on nothing else: it has then read these four bytes and
    no more, and before the scan of the payload no other input makes
    it end with the padding error. *)
Theorem DecodeFrame_padding {E : Codec24.Env} (c : Codec24.codec24)
    (fuel : nat) (tagFlags : Z) :
  (forall rest : list byte,
     Codec24.DecodeFrame c fuel tagFlags (x00 :: x00 :: x00 :: x00 :: rest)
     = (4, Some errPaddingEncountered, None, rest))
  /\ (forall (r r' : list byte) (cnt : Z),
        Codec24.readFrame c tagFlags r
        = (inl (cnt, errPaddingEncountered), r') ->
        cnt = 4 /\ r = x00 :: x00 :: x00 :: x00 :: r').
Proof.
  split.
  - intros rest. reflexivity.
  - intros r r' cnt H.
    pose proof (Codec24More.readFrame_inv c tagFlags r r') as I.
    rewrite H in I. now apply I.
Qed.

Lemma DecodeFrame_padding_witness :
  4 = 4 /\ [x00; x00; x00; x00; x41] = [x00; x00; x00; x00; x41].
Proof.
  apply (proj2 (@DecodeFrame_padding Latin1.env Codec24.newCodec24 1 0)
           [x00; x00; x00; x00; x41] [x41] 4).
  reflexivity.
Defined.

(** ** The byte count of the scanner

    Only [Read] counts bytes: the scan of a payload leaves the count
    alone, provided the string methods of the scanner, which are not
    among the sources, do. *)

Module Codec24Count.
Import Scanner Codec24.

Lemma ConsumeAll_n (s : scanner) : n (snd (ConsumeAll s)) = n s.
Proof. unfold ConsumeAll. now destruct (err s). Qed.

Section WithEnv.
Context {E : Env}.
Variable c : codec24.
Hypothesis fixed_n : forall k e s,
  n (snd (ConsumeFixedLengthString k e s)) = n s.
Hypothesis next_n : forall e s, n (snd (ConsumeNextString e s)) = n s.
Hypothesis strings_n : forall e s, n (snd (ConsumeStrings e s)) = n s.

Ltac consume :=
  match goal with
  | |- context [ConsumeByte ?s] =>
      let N := fresh "N" in
      pose proof (Codec24More.ConsumeByte_n s) as N;
      destruct (ConsumeByte s); cbn [snd] in N
  | |- context [ConsumeBytes ?k ?s] =>
      let N := fresh "N" in
      pose proof (Codec24More.ConsumeBytes_n k s) as N;
      destruct (ConsumeBytes k s); cbn [snd] in N
  | |- context [ConsumeAll ?s] =>
      let N := fresh "N" in
      pose proof (ConsumeAll_n s) as N;
      destruct (ConsumeAll s); cbn [snd] in N
  | |- context [ConsumeFixedLengthString ?k ?e ?s] =>
      let N := fresh "N" in
      pose proof (fixed_n k e s) as N;
      destruct (ConsumeFixedLengthString k e s); cbn [snd] in N
  | |- context [ConsumeNextString ?e ?s] =>
      let N := fresh "N" in
      pose proof (next_n e s) as N;
      destruct (ConsumeNextString e s); cbn [snd] in N
  | |- context [ConsumeStrings ?e ?s] =>
      let N := fresh "N" in
      pose proof (strings_n e s) as N;
      destruct (ConsumeStrings e s); cbn [snd] in N
  | |- context [if ?b then _ else _] => destruct b
  | |- context [match ?x with Some _ => _ | None => _ end] => destruct x
  | |- context [let '(_, _) := ?x in _] => destruct x
  end.

Ltac count := repeat consume; cbn [fst snd n setErr]; congruence.

Lemma scanUint8_n (s : scanner) (name : string) (st : state) :
  n (fst (fst (scanUint8 c s name st))) = n s.
Proof. unfold scanUint8. count. Qed.

Lemma scanUint16_n (s : scanner) (tags : list string) (st : state) :
  n (fst (fst (scanUint16 s tags st))) = n s.
Proof. unfold scanUint16. count. Qed.

Lemma scanUint32_n (s : scanner) (st : state) :
  n (fst (fst (scanUint32 s st))) = n s.
Proof. unfold scanUint32. count. Qed.

Lemma scanUint64_n (s : scanner) (tags : list string) (st : state) :
  n (fst (fst (scanUint64 s tags st))) = n s.
Proof. unfold scanUint64. count. Qed.

Lemma scanString_n (s : scanner) (name : string) (tags : list string)
    (st : state) :
  n (fst (fst (scanString s name tags st))) = n s.
Proof. unfold scanString. count. Qed.

Lemma scanByteSlice_n (s : scanner) (st : state) :
  n (fst (fst (scanByteSlice s st))) = n s.
Proof. unfold scanByteSlice. count. Qed.

Lemma scanStringSlice_n (s : scanner) (st : state) :
  n (fst (fst (scanStringSlice s st))) = n s.
Proof. unfold scanStringSlice. count. Qed.

Lemma scanStructSlice_n scanElem (k : nat) (s : scanner) (st : state)
    (elems : list value) :
  (forall s st, n (fst (fst (scanElem s st))) = n s) ->
  n (fst (fst (scanStructSlice scanElem k s st elems))) = n s.
Proof.
  intros Hrec. revert s st elems.
  induction k as [|k IH]; intros s st elems; cbn [scanStructSlice];
    [reflexivity|].
  destruct (0 <? Len s)%nat; [|reflexivity].
  pose proof (Hrec s st) as N.
  destruct (scanElem s st) as [[s1 st1] v]. cbn [fst] in N.
  destruct (isErr s1); [exact N|]. rewrite IH. exact N.
Qed.

Lemma scanField_n scanNested (k : nat)
    (acc : scanner * state * list value) (f : field) :
  (forall s nm fs st, n (fst (fst (scanNested s nm fs st))) = n s) ->
  n (fst (fst (scanField c scanNested k acc f))) = n (fst (fst acc)).
Proof.
  intros Hrec. destruct acc as [[s st] vs]. destruct f as [[fname tags] typ].
  unfold scanField. cbn [fst].
  destruct typ as [nm|nm|nm|nm|nm| | |nm fs|nm fs].
  - pose proof (scanUint8_n s nm st) as N.
    destruct (scanUint8 c s nm st) as [[? ?] ?]. exact N.
  - pose proof (scanUint16_n s tags st) as N.
    destruct (scanUint16 s tags st) as [[? ?] ?]. exact N.
  - pose proof (scanUint32_n s st) as N.
    destruct (scanUint32 s st) as [[? ?] ?]. exact N.
  - pose proof (scanUint64_n s tags st) as N.
    destruct (scanUint64 s tags st) as [[? ?] ?]. exact N.
  - pose proof (scanString_n s nm tags st) as N.
    destruct (scanString s nm tags st) as [[? ?] ?]. exact N.
  - pose proof (scanByteSlice_n s st) as N.
    destruct (scanByteSlice s st) as [[? ?] ?]. exact N.
  - pose proof (scanStringSlice_n s st) as N.
    destruct (scanStringSlice s st) as [[? ?] ?]. exact N.
  - destruct (isErr s); [reflexivity|].
    pose proof (scanStructSlice_n (fun s st => scanNested s nm fs st)
                  k s st [] (fun s st => Hrec s nm fs st)) as N.
    destruct (scanStructSlice _ k s st []) as [[? ?] ?]. exact N.
  - pose proof (Hrec s nm fs st) as N.
    destruct (scanNested s nm fs st) as [[? ?] ?]. exact N.
Qed.

Lemma scanFields_n scanNested (k : nat) (fields : list field)
    (acc : scanner * state * list value) :
  (forall s nm fs st, n (fst (fst (scanNested s nm fs st))) = n s) ->
  n (fst (fst (fold_left (scanField c scanNested k) fields acc)))
  = n (fst (fst acc)).
Proof.
  intros Hrec. revert acc.
  induction fields as [|f fields IH]; intros acc; cbn [fold_left];
    [reflexivity|].
  rewrite IH. now apply scanField_n.
Qed.

Lemma scanStruct_n (fuel : nat) (s : scanner) (name : string)
    (fields : list field) (st : state) :
  n (fst (fst (scanStruct c fuel s name fields st))) = n s.
Proof.
  revert s name fields st.
  induction fuel as [|fuel IH]; intros s name fields st; cbn [scanStruct];
    [reflexivity|].
  destruct (String.eqb name "FrameHeader"); [reflexivity|].
  rewrite scanFields_n; [reflexivity|]. intros. apply IH.
Qed.

End WithEnv.

(** The string methods of the ISO-8859-1 scanner leave the count
    alone. *)
Lemma Latin1_fixed_n (k : nat) (e : byte) (s : scanner) :
  n (snd (Latin1.ConsumeFixedLengthString k e s)) = n s.
Proof.
  unfold Latin1.ConsumeFixedLengthString.
  pose proof (Codec24More.ConsumeBytes_n k s) as N.
  destruct (ConsumeBytes k s). exact N.
Qed.

Lemma Latin1_next_n (e : byte) (s : scanner) :
  n (snd (Latin1.ConsumeNextString e s)) = n s.
Proof.
  unfold Latin1.ConsumeNextString. destruct (err s); [reflexivity|].
  now destruct (Latin1.splitNul (buf s)).
Qed.

Lemma Latin1_strings_n (e : byte) (s : scanner) :
  n (snd (Latin1.ConsumeStrings e s)) = n s.
Proof. unfold Latin1.ConsumeStrings. now destruct (err s). Qed.

End Codec24Count.

(** X11.  A frame that [DecodeFrame] of [codec24.go] returns is what
    it has read from the stream, and nothing behind it: ten bytes of
    header and as many bytes as the size field says, at least one; the
    frame ID is the first four of them.  The byte count it returns is
    the number of these bytes, the string methods of the scanner being
    such that they leave the count alone. *)
Theorem DecodeFrame_reads_frame {E : Codec24.Env} (c : Codec24.codec24)
    (fuel : nat) (tagFlags cnt : Z) (r r' : list byte) (f : Codec24.Frame) :
  (forall k e s,
     Scanner.n (snd (Codec24.ConsumeFixedLengthString k e s)) = Scanner.n s) ->
  (forall e s,
     Scanner.n (snd (Codec24.ConsumeNextString e s)) = Scanner.n s) ->
  (forall e s,
     Scanner.n (snd (Codec24.ConsumeStrings e s)) = Scanner.n s) ->
  Codec24.DecodeFrame c fuel tagFlags r = (cnt, None, Some f, r') ->
  exists frame : list byte,
    r = frame ++ r'
    /\ Z.of_nat (length frame) = 10 + Codec24.Size (Codec24.Header f)
    /\ 1 <= Codec24.Size (Codec24.Header f)
    /\ Codec24.FrameID (Codec24.Header f)
       = string_of_list_byte (firstn 4 frame)
    /\ cnt = Z.of_nat (length frame).
Proof.
  intros K1 K2 K3. unfold Codec24.DecodeFrame.
  pose proof (Codec24More.readFrame_inv c tagFlags r r') as I.
  destruct (Codec24.readFrame c tagFlags r) as [[[n0 e]|[s h]] r1];
    [discriminate|].
  destruct (Codec24.LookupReflectType _) as [tname tfields].
  pose proof (Codec24Count.scanStruct_n c K1 K2 K3 fuel s tname tfields
                {| Codec24.frameID := Codec24.FrameID h;
                   Codec24.encoding := Codec24.EncodingISO88591 |}) as N.
  destruct (Codec24.scanStruct _ _ _ _ _ _) as [[s2 st2] vs].
  cbn [fst] in N.
  destruct (Scanner.err s2); [discriminate|].
  intros [= <- <- <-]. cbn [Codec24.Header].
  destruct I as (frame & I1 & I2 & I3 & I4 & I5).
  exists frame. repeat split; auto. congruence.
Qed.

Lemma DecodeFrame_reads_frame_witness :
  exists frame : list byte,
    [x54; x49; x54; x32; x00; x00; x00; x03; x00; x00; x00; x48; x69; xaa]
    = frame ++ [xaa]
    /\ Z.of_nat (length frame) = 10 + 3
    /\ 1 <= 3
    /\ "TIT2"%string = string_of_list_byte (firstn 4 frame)
    /\ 13 = Z.of_nat (length frame).
Proof.
  apply (@DecodeFrame_reads_frame Latin1.env Codec24.newCodec24 5 0 13
           [x54; x49; x54; x32; x00; x00; x00; x03; x00; x00; x00; x48; x69;
            xaa]
           [xaa]
           {| Codec24.Header :=
                {| Codec24.FrameID := "TIT2"; Codec24.Size := 3;
                   Codec24.Flags := 0; Codec24.GroupID := x00;
                   Codec24.EncryptMethod := x00; Codec24.DataLength := 0 |};
              Codec24.Fields :=
                [Codec24.VStruct []; Codec24.VUint 0;
                 Codec24.VStrs ["Hi"%string]] |}).
  - exact Codec24Count.Latin1_fixed_n.
  - exact Codec24Count.Latin1_next_n.
  - exact Codec24Count.Latin1_strings_n.
  - vm_compute. reflexivity.
Defined.

(** X12.  A data length indicator that is cut short is not reported:
    the error of the four-byte read is overwritten by the result of
    decoding the bytes the read handed back, which are zero bytes when
    the scanner runs short, so [scanExtraHeaderData] ends without an
    error and with a data length of 0. *)
Theorem truncated_data_length (s : Scanner.scanner)
    (h : Codec24.FrameHeader) :
  Scanner.err s = None ->
  V24.has (Codec24.Flags h) V24.FrameFlagHasGroupID = false ->
  V24.has (Codec24.Flags h) V24.FrameFlagEncrypted = false ->
  V24.has (Codec24.Flags h) V24.FrameFlagHasDataLength = true ->
  (length (Scanner.buf s) < 4)%nat ->
  Codec24.scanExtraHeaderData s h
  = ({| Scanner.buf := Scanner.buf s; Scanner.n := Scanner.n s;
        Scanner.err := None |}, Codec24.setDataLength h 0).
Proof.
  intros He G X D L. unfold Codec24.scanExtraHeaderData.
  rewrite G, X, D. cbn [negb andb]. rewrite andb_false_r.
  rewrite (Codec24More.ConsumeBytes_short 4 s He L). reflexivity.
Qed.

Lemma truncated_data_length_witness :
  Codec24.scanExtraHeaderData
    {| Scanner.buf := [x00; x05]; Scanner.n := 12; Scanner.err := None |}
    {| Codec24.FrameID := "XXXX"; Codec24.Size := 2; Codec24.Flags := 128;
       Codec24.GroupID := x00; Codec24.EncryptMethod := x00;
       Codec24.DataLength := 0 |}
  = ({| Scanner.buf := [x00; x05]; Scanner.n := 12; Scanner.err := None |},
     {| Codec24.FrameID := "XXXX"; Codec24.Size := 2; Codec24.Flags := 128;
        Codec24.GroupID := x00; Codec24.EncryptMethod := x00;
        Codec24.DataLength := 0 |}).
Proof.
  apply (truncated_data_length
           {| Scanner.buf := [x00; x05]; Scanner.n := 12;
              Scanner.err := None |}
           {| Codec24.FrameID := "XXXX"; Codec24.Size := 2;
              Codec24.Flags := 128; Codec24.GroupID := x00;
              Codec24.EncryptMethod := x00; Codec24.DataLength := 0 |});
    try reflexivity.
  cbn. lia.
Defined.
